(** * Price scraper: extraction and normalization pipeline

    A shallow embedding of the JavaScript sources

      - [src/utils/priceParser.js]   ([parsePrice], [extractCurrency], [normalizePrice])
      - [src/utils/validator.js]     ([isValidPriceRange], [isReasonablePriceChange],
                                      [validatePriceData], [isOutOfStock])
      - [src/extractors/amazon.js], [walmart.js], [generic.js]
      - [src/scraper.js]             ([PriceScraper.getPrice], [detectVendor], and in
                                      [Requests] the constructor, [fetchHtml] with its
                                      retries and [getPricesBatch])

    JavaScript values are an inductive type [jsval]; strings are lists of
    UTF-16 code units; numbers are IEEE-754 binary64 values in the
    representation of the standard library's [spec_float], with the
    arithmetic of [SpecFloat] at precision 53 and maximal exponent 1024.
    What the sources take from their host (the HTML parser and selector
    engine cheerio, [JSON.parse], the network fetch, the clock) is a record
    of operations the extractors and the scraper are parameterised by. *)

From Stdlib Require Import Reals Lra.
From Stdlib Require Import ZArith List Lia Bool String Ascii.
From Stdlib Require Import Floats.
Import ListNotations.

Set Warnings "-inexact-float".
Local Open Scope Z_scope.

(* ================================================================== *)
(** * Strings *)

(** A JavaScript string is a sequence of UTF-16 code units. *)
Definition jsstring := list Z.

Fixpoint jsstring_eqb (a b : jsstring) : bool :=
  match a, b with
  | [], [] => true
  | x :: a', y :: b' => (x =? y) && jsstring_eqb a' b'
  | _, _ => false
  end.

(** Literals are written as Rocq strings (UTF-8 bytes) and decoded to code
    units; [utf8_decode] covers the one- to three-byte forms, that is the
    whole Basic Multilingual Plane, which holds every character the sources
    mention. *)
Fixpoint utf8_decode (bs : list Z) (fuel : nat) : jsstring :=
  match fuel with
  | O => []
  | S fuel' =>
    match bs with
    | [] => []
    | b0 :: r0 =>
      if b0 <? 128 then b0 :: utf8_decode r0 fuel'
      else if b0 <? 224 then
        match r0 with
        | b1 :: r1 => ((b0 - 192) * 64 + (b1 - 128)) :: utf8_decode r1 fuel'
        | [] => []
        end
      else
        match r0 with
        | b1 :: b2 :: r2 =>
          ((b0 - 224) * 4096 + (b1 - 128) * 64 + (b2 - 128)) :: utf8_decode r2 fuel'
        | _ => []
        end
    end
  end.

Definition bytes_of (s : string) : list Z :=
  map (fun c => Z.of_N (N_of_ascii c)) (list_ascii_of_string s).

Definition u (s : string) : jsstring :=
  let bs := bytes_of s in utf8_decode bs (List.length bs).
Arguments u s%_string.

(** Character classes of the regular expressions in the sources. *)

(** [\d] *)
Definition is_digit (c : Z) : bool := (48 <=? c) && (c <=? 57).

(** [\s]: WhiteSpace and LineTerminator of ECMAScript. *)
Definition is_space (c : Z) : bool :=
  ((9 <=? c) && (c <=? 13)) || (c =? 32) || (c =? 160) || (c =? 5760)
  || ((8192 <=? c) && (c <=? 8202)) || (c =? 8232) || (c =? 8233)
  || (c =? 8239) || (c =? 8287) || (c =? 12288) || (c =? 65279).

Definition DOLLAR : Z := 36.
Definition EURO : Z := 8364.
Definition POUND : Z := 163.
Definition YEN : Z := 165.
Definition RUPEE : Z := 8377.
Definition COMMA : Z := 44.
Definition DOT : Z := 46.

(** [[\$€£¥₹]] *)
Definition is_currency_glyph (c : Z) : bool :=
  (c =? DOLLAR) || (c =? EURO) || (c =? POUND) || (c =? YEN) || (c =? RUPEE).

(** [s.replace(/[c]/, '')] without the [g] flag: the first code unit of the
    class is removed. *)
Fixpoint remove_first (p : Z -> bool) (s : jsstring) : jsstring :=
  match s with
  | [] => []
  | c :: r => if p c then r else c :: remove_first p r
  end.

(** [s.replace(/[c]/g, '')] and [s.replace(/[c]+/g, '')]: every code unit of
    the class is removed. *)
Definition remove_all (p : Z -> bool) (s : jsstring) : jsstring :=
  filter (fun c => negb (p c)) s.

Fixpoint trim_start (s : jsstring) : jsstring :=
  match s with
  | c :: r => if is_space c then trim_start r else s
  | [] => []
  end.

(** [s.trim()] *)
Definition trim (s : jsstring) : jsstring :=
  rev (trim_start (rev (trim_start s))).

(** [s.startsWith(p)], as a prefix test. *)
Fixpoint starts_with (p s : jsstring) : bool :=
  match p, s with
  | [], _ => true
  | x :: p', y :: s' => (x =? y) && starts_with p' s'
  | _ :: _, [] => false
  end.

(** [s.includes(p)] *)
Fixpoint includes (s p : jsstring) : bool :=
  starts_with p s ||
  match s with
  | [] => false
  | _ :: r => includes r p
  end.

(** [toLowerCase] on the ASCII letters.  Outside ASCII the Unicode mapping
    yields an ASCII letter for two code units only, U+212A (to [k]) and
    U+0130 (to [i] and a combining dot); [detectVendor], the one caller,
    searches for needles that contain neither letter, so its result is the
    same under the full mapping. *)
Definition to_lower (c : Z) : Z :=
  if (65 <=? c) && (c <=? 90) then c + 32 else c.

Definition toLowerCase (s : jsstring) : jsstring := map to_lower s.

(* ================================================================== *)
(** * Numbers: IEEE-754 binary64 *)

Definition number := spec_float.

(** A double written as a Rocq float literal. *)
Definition dbl (f : PrimFloat.float) : number := Prim2SF f.

Definition NaN_ : number := S754_nan.
Definition pos_zero : number := S754_zero false.
Definition neg_zero : number := S754_zero true.
Definition pos_inf : number := S754_infinity false.

(** [x * y] and [x / y] *)
Definition fmul (x y : number) : number := SFmul prec emax x y.
Definition fdiv (x y : number) : number := SFdiv prec emax x y.
(** [x - y] *)
Definition fsub (x y : number) : number := SFsub prec emax x y.

(** [isNaN(x)] *)
Definition isNaN (x : number) : bool :=
  match x with S754_nan => true | _ => false end.

(** [x <= y], [x >= y], [x === y] on numbers *)
Definition fle (x y : number) : bool := SFleb x y.
Definition fge (x y : number) : bool := SFleb y x.
Definition feq (x y : number) : bool := SFeqb x y.

(** The Number value of the rational [a / b], for [0 <= a] and [0 < b]:
    round to nearest, ties to even.  The quotient is computed with guard
    bits and its position between two mantissas, then rounded by
    [binary_round_aux]; this is the division of [SpecFloat] with mantissas
    of any size. *)
Definition round_ratio (neg : bool) (a b : Z) : number :=
  if a =? 0 then S754_zero neg
  else
    let '(q, e, l) := SFdiv_core_binary prec emax a 0 b 0 in
    binary_round_aux prec emax neg q e l.

(** The Number value of an integer. *)
Definition of_int (n : Z) : number :=
  if n <? 0 then round_ratio true (- n) 1 else round_ratio false n 1.

(** The Number value of [m * 10^x] for [0 <= m]. *)
Definition of_decimal (neg : bool) (m x : Z) : number :=
  if 0 <=? x then round_ratio neg (m * 10 ^ x) 1
  else round_ratio neg m (10 ^ (- x)).

(** [Math.round(x)]: the integer closest to [x], the larger one of two at
    the same distance; zeros, infinities and NaN are returned as they are,
    and a negative [x] that rounds to zero gives [-0]. *)
Definition Math_round (x : number) : number :=
  match x with
  | S754_finite s m e =>
    if 0 <=? e then x
    else
      let v2 := if s then - (2 * Z.pos m) else 2 * Z.pos m in
      let n := (v2 + 2 ^ (- e)) / 2 ^ (1 - e) in
      if n =? 0 then S754_zero s else of_int n
  | _ => x
  end.

(* ================================================================== *)
(** * Decimal numerals *)

Definition digit_val (c : Z) : Z := c - 48.

(** The value of a run of decimal digits, most significant first, added
    to [acc] shifted left. *)
Fixpoint digits_value (acc : Z) (ds : jsstring) : Z :=
  match ds with
  | [] => acc
  | c :: r => digits_value (10 * acc + digit_val c) r
  end.

(** The longest prefix of digits, and the rest. *)
Fixpoint span_digits (s : jsstring) : jsstring * jsstring :=
  match s with
  | c :: r =>
    if is_digit c then let '(ds, rest) := span_digits r in (c :: ds, rest)
    else ([], s)
  | [] => ([], [])
  end.

(** The exponent part [e], [e+] or [e-] and at least one digit; 0 when the
    text at hand is not one. *)
Definition exponent_part (s : jsstring) : Z :=
  match s with
  | c :: r =>
    if (c =? 101) || (c =? 69) then
      match r with
      | sg :: r' =>
        if (sg =? 43) || (sg =? 45) then
          match fst (span_digits r') with
          | [] => 0
          | ds => if sg =? 45 then - digits_value 0 ds else digits_value 0 ds
          end
        else digits_value 0 (fst (span_digits r))
      | [] => 0
      end
    else 0
  | [] => 0
  end.

(** [StrUnsignedDecimalLiteral] at the head of [s]: digits, an optional
    fraction, an optional exponent; or a dot followed by digits.  The
    result is the mantissa and the decimal exponent of the numeral read,
    [None] when no numeral starts here. *)
Definition unsigned_decimal (s : jsstring) : option (Z * Z) :=
  let '(ip, r1) := span_digits s in
  match r1 with
  | c :: r2 =>
    if c =? DOT then
      let '(fp, r3) := span_digits r2 in
      match ip, fp with
      | [], [] => None
      | _, _ =>
        Some (digits_value 0 (ip ++ fp), exponent_part r3 - Z.of_nat (List.length fp))
      end
    else
      match ip with
      | [] => None
      | _ => Some (digits_value 0 ip, exponent_part r1)
      end
  | [] =>
    match ip with
    | [] => None
    | _ => Some (digits_value 0 ip, 0)
    end
  end.

Definition INFINITY_WORD : jsstring := u "Infinity".

Definition unsigned_literal (neg : bool) (s : jsstring) : number :=
  if starts_with INFINITY_WORD s then S754_infinity neg
  else
    match unsigned_decimal s with
    | Some (m, x) => of_decimal neg m x
    | None => NaN_
    end.

(** [parseFloat(s)]: leading white space is skipped, the longest prefix
    that is a decimal literal is read and the rest ignored; NaN when there
    is none.  The value is the nearest double, the one JavaScript engines
    return for numerals of any length. *)
Definition parseFloat (s : jsstring) : number :=
  match trim_start s with
  | c :: r =>
    if c =? 45 then unsigned_literal true r
    else if c =? 43 then unsigned_literal false r
    else unsigned_literal false (c :: r)
  | [] => NaN_
  end.

(** ** Number to string *)

(** The decimal digits of a non-negative integer, most significant first;
    [fuel] bounds their number. *)
Fixpoint digits_of (fuel : nat) (n : Z) (acc : jsstring) : jsstring :=
  match fuel with
  | O => acc
  | S fuel' =>
    if n <? 10 then (48 + n) :: acc
    else digits_of fuel' (n / 10) ((48 + n mod 10) :: acc)
  end.

Definition decimal_digits (n : Z) : jsstring :=
  digits_of (S (Z.to_nat (Z.log2 n))) n [].

Definition num_digits (n : Z) : Z := Z.of_nat (List.length (decimal_digits n)).

(** The value [a / b * 10^x] as a fraction. *)
Definition scale10 (a b x : Z) : Z * Z :=
  if 0 <=? x then (a * 10 ^ x, b) else (a, b * 10 ^ (- x)).

(** The [n] with [10^(n-1) <= a / b < 10^n], for [0 < a] and [0 < b]:
    for a value of at least one the number of digits of its integer part,
    below one the search goes down from 0. *)
Fixpoint magnitude_below (fuel : nat) (a b n : Z) : Z :=
  match fuel with
  | O => n
  | S fuel' => if b <=? 10 * a then n else magnitude_below fuel' (10 * a) b (n - 1)
  end.

Definition magnitude (a b : Z) : Z :=
  if b <=? a then num_digits (a / b)
  else magnitude_below 400 a b 0.

(** A candidate with [k] digits: an integer [s] with
    [10^(k-1) <= s < 10^k] and a position [n] of the decimal point such
    that [s * 10^(n-k)] is a numeral of the double [x], that is, rounds to
    it. *)
Definition candidate_ok (x : number) (s n k : Z) : bool :=
  (10 ^ (k - 1) <=? s) && (s <? 10 ^ k) &&
  match of_decimal false s (n - k), x with
  | S754_finite _ m1 e1, S754_finite _ m2 e2 => (Z.pos m1 =? Z.pos m2) && (e1 =? e2)
  | _, _ => false
  end.

(** The candidates with [k] digits for a double [x = a / b] of magnitude
    [n0] are the two integers around [x / 10^(n0-k)]; of two that round
    to [x] the one closer to it is taken. *)
Definition shortest_at (x : number) (a b n0 k : Z) : option (Z * Z) :=
  let '(p, q) := scale10 a b (k - n0) in
  let lo := p / q in
  let r := p mod q in
  let hi := lo + 1 in
  let '(hs, hn) := if hi =? 10 ^ k then (10 ^ (k - 1), n0 + 1) else (hi, n0) in
  let lo_ok := candidate_ok x lo n0 k in
  let hi_ok := candidate_ok x hs hn k in
  if lo_ok && hi_ok then
    if 2 * r <=? q then Some (lo, n0) else Some (hs, hn)
  else if lo_ok then Some (lo, n0)
  else if hi_ok then Some (hs, hn)
  else None.

(** The least [k] with a candidate, searched upwards. *)
Fixpoint shortest_from (fuel : nat) (x : number) (a b n0 k : Z) : option (Z * Z * Z) :=
  match fuel with
  | O => None
  | S fuel' =>
    match shortest_at x a b n0 k with
    | Some (s, n) => Some (s, n, k)
    | None => shortest_from fuel' x a b n0 (k + 1)
    end
  end.

(** The digits of the exact value of [m * 2^e]: a double is a decimal
    fraction, [m * 5^(-e) / 10^(-e)] for a negative [e]. *)
Definition exact_decimal (m : positive) (e : Z) : Z * Z * Z :=
  let '(s, x) :=
    if 0 <=? e then (Z.pos m * 2 ^ e, 0) else (Z.pos m * 5 ^ (- e), e) in
  let k := num_digits s in
  (s, k + x, k).

(** The digits [Number::toString] prints for [m * 2^e]: the shortest
    numeral of the double.  Seventeen digits are enough for every double,
    and the search stops there; the exact digits, a numeral of the double
    as well, stand behind it. *)
Definition shortest_digits (m : positive) (e : Z) : Z * Z * Z :=
  let '(a, b) := if 0 <=? e then (Z.pos m * 2 ^ e, 1) else (Z.pos m, 2 ^ (- e)) in
  match shortest_from 17 (S754_finite false m e) a b (magnitude a b) 1 with
  | Some t => t
  | None => exact_decimal m e
  end.

Definition zeros (n : Z) : jsstring := repeat 48 (Z.to_nat n).

(** The layout of [Number::toString]: digits [s] (there are [k] of them)
    and the position [n] of the decimal point. *)
Definition layout (s n k : Z) : jsstring :=
  let ds := decimal_digits s in
  if (k <=? n) && (n <=? 21) then ds ++ zeros (n - k)
  else if (0 <? n) && (n <=? 21) then
    firstn (Z.to_nat n) ds ++ [DOT] ++ skipn (Z.to_nat n) ds
  else if (-6 <? n) && (n <=? 0) then
    [48; DOT] ++ zeros (- n) ++ ds
  else
    let x := n - 1 in
    let ex := (if x <? 0 then [45] else [43]) ++ decimal_digits (Z.abs x) in
    match ds with
    | d :: [] => d :: 101 :: ex
    | d :: r => d :: DOT :: r ++ 101 :: ex
    | [] => []
    end.

(** [String(x)] and [x.toString()] for a number [x]. *)
Definition Number_toString (x : number) : jsstring :=
  match x with
  | S754_nan => u "NaN"
  | S754_zero _ => u "0"
  | S754_infinity s => if s then u "-Infinity" else u "Infinity"
  | S754_finite sg m e =>
    let '(s, n, k) := shortest_digits m e in
    if sg then 45 :: layout s n k else layout s n k
  end.

(* ================================================================== *)
(** * JavaScript values *)

(** The values the pipeline handles: primitives, and the plain objects and
    arrays that [JSON.parse] and object literals build.  The properties of
    an object are listed in the order [for ... in] visits them. *)
#[local] Unset Elimination Schemes.
Inductive jsval : Type :=
| Undefined
| Null
| Bool (b : bool)
| Num (x : number)
| Str (s : jsstring)
| Obj (props : list (jsstring * jsval))
| Arr (elems : list jsval).
#[local] Set Elimination Schemes.

(** [!!v] *)
Definition truthy (v : jsval) : bool :=
  match v with
  | Undefined | Null => false
  | Bool b => b
  | Num x =>
    match x with
    | S754_zero _ | S754_nan => false
    | _ => true
    end
  | Str s => match s with [] => false | _ => true end
  | Obj _ | Arr _ => true
  end.

(** [a || b] *)
Definition js_or (a b : jsval) : jsval := if truthy a then a else b.
Infix "|||" := js_or (at level 50, left associativity).

(** [typeof v === 'string'], ['number'], ['object'] *)
Definition is_string (v : jsval) : bool :=
  match v with Str _ => true | _ => false end.
Definition is_number (v : jsval) : bool :=
  match v with Num _ => true | _ => false end.
Definition is_object (v : jsval) : bool :=
  match v with Null | Obj _ | Arr _ => true | _ => false end.

(** [v !== undefined] *)
Definition defined (v : jsval) : bool :=
  match v with Undefined => false | _ => true end.

(** [a === b].  Two objects are equal when they are the same object; the
    one comparison in the sources, [salePrice !== price], is only reached
    with a string on the left, and two object operands are taken as
    distinct. *)
Definition strict_eq (a b : jsval) : bool :=
  match a, b with
  | Undefined, Undefined => true
  | Null, Null => true
  | Bool x, Bool y => Bool.eqb x y
  | Num x, Num y => feq x y
  | Str x, Str y => jsstring_eqb x y
  | _, _ => false
  end.

Fixpoint lookup (k : jsstring) (props : list (jsstring * jsval)) : jsval :=
  match props with
  | [] => Undefined
  | (k', v) :: r => if jsstring_eqb k k' then v else lookup k r
  end.

(** [v.k] for a value that is neither [null] nor [undefined], and [k] the
    name of a data property (none of the names the sources read is a
    member of a prototype): own properties for an object, [undefined] for
    arrays and primitives. *)
Definition prop (v : jsval) (k : jsstring) : jsval :=
  match v with
  | Obj props => lookup k props
  | _ => Undefined
  end.

(** Outcome of an evaluation that may throw. *)
Inductive outcome (A : Type) : Type :=
| Ok (a : A)
| Throw (msg : jsstring).
Arguments Ok {A} a.
Arguments Throw {A} msg.

Definition bind {A B} (m : outcome A) (f : A -> outcome B) : outcome B :=
  match m with
  | Ok a => f a
  | Throw e => Throw e
  end.

Notation "x <- m ;; k" := (bind m (fun x => k))
  (at level 61, m at next level, right associativity).

(** [try { m } catch (e) { h }] *)
Definition try_catch {A} (m : outcome A) (h : A) : A :=
  match m with
  | Ok a => a
  | Throw _ => h
  end.

Definition TypeError : jsstring := u "TypeError".

(** [v.k] for any value: reading a property of [null] or [undefined]
    throws. *)
Definition get (v : jsval) (k : jsstring) : outcome jsval :=
  match v with
  | Undefined | Null => Throw TypeError
  | _ => Ok (prop v k)
  end.

(** [v?.k] *)
Definition get_opt (v : jsval) (k : jsstring) : jsval :=
  match v with
  | Undefined | Null => Undefined
  | _ => prop v k
  end.

(** [a.join(sep)] over the string forms of the elements. *)
Fixpoint join (sep : jsstring) (xs : list jsstring) : jsstring :=
  match xs with
  | [] => []
  | [x] => x
  | x :: r => x ++ sep ++ join sep r
  end.

(** [v.toString()] for a value that has the method (any but [null] and
    [undefined], where the call throws): an array joins the string forms
    of its elements, with empty strings for [null] and [undefined]. *)
Fixpoint toString (v : jsval) : jsstring :=
  match v with
  | Undefined => u "undefined"
  | Null => u "null"
  | Bool b => if b then u "true" else u "false"
  | Num x => Number_toString x
  | Str s => s
  | Obj _ => u "[object Object]"
  | Arr xs =>
    join [COMMA]
      ((fix elems (l : list jsval) : list jsstring :=
          match l with
          | [] => []
          | e :: r =>
            (match e with Undefined | Null => [] | _ => toString e end) :: elems r
          end) xs)
  end.

(** The values of the properties [for (const key in v)] visits, in order:
    the elements of an array by index, the properties of an object. *)
Definition children (v : jsval) : list jsval :=
  match v with
  | Obj props => map snd props
  | Arr xs => xs
  | _ => []
  end.

(* ================================================================== *)
(** * [src/utils/priceParser.js] *)

(** The four [replace] calls and the [trim] of [parsePrice]. *)
Definition clean (priceString : jsstring) : jsstring :=
  let cleaned :=
    trim (remove_all is_space (remove_all (Z.eqb COMMA)
            (remove_first is_currency_glyph priceString))) in
  remove_all (fun c => negb (is_digit c || (c =? DOT))) cleaned.

Definition hundred : number := dbl 100.

Definition parsePrice (priceString : jsval) : jsval :=
  match priceString with
  | Str s =>
    if negb (truthy priceString) then Null
    else
      let price := parseFloat (clean s) in
      if isNaN price || fle price pos_zero then Null
      else Num (fdiv (Math_round (fmul price hundred)) hundred)
  | _ => Null
  end.

Definition USD : jsstring := u "USD".

Definition extractCurrency (priceString : jsval) : jsstring :=
  match priceString with
  | Str s =>
    if negb (truthy priceString) then USD
    else if includes s [DOLLAR] then USD
    else if includes s [EURO] then u "EUR"
    else if includes s [POUND] then u "GBP"
    else if includes s [YEN] then u "JPY"
    else if includes s [RUPEE] then u "INR"
    else USD
  | _ => USD
  end.

Definition normalizePrice (priceData : jsval) : jsval :=
  if negb (truthy priceData) then Null
  else
    let price := prop priceData (u "price") in
    let salePrice := prop priceData (u "salePrice") in
    let listPrice := prop priceData (u "listPrice") in
    let currency := prop priceData (u "currency") in
    let finalPrice := salePrice ||| price ||| listPrice in
    let parsedPrice := parsePrice finalPrice in
    if negb (truthy parsedPrice) then Null
    else
      Obj [ (u "price", parsedPrice);
            (u "originalPrice",
               if truthy listPrice then parsePrice listPrice else parsedPrice);
            (u "salePrice",
               if truthy salePrice then parsePrice salePrice else Null);
            (u "currency", currency ||| Str (extractCurrency finalPrice));
            (u "isOnSale",
               Bool (truthy salePrice && negb (strict_eq salePrice price))) ].

(* ================================================================== *)
(** * [src/utils/validator.js] *)

Definition isValidPriceRange (price : jsval) (minPrice maxPrice : number) : bool :=
  match price with
  | Num x => if isNaN x then false else fge x minPrice && fle x maxPrice
  | _ => false
  end.

Definition DEFAULT_MIN_PRICE : number := dbl 0.01.
Definition DEFAULT_MAX_PRICE : number := dbl 1000000.

(** [isReasonablePriceChange(oldPrice, newPrice, thresholdPercent)] on
    numbers, as its parameters are declared. *)
Definition isReasonablePriceChange (oldPrice newPrice thresholdPercent : number) : bool :=
  if negb (truthy (Num oldPrice)) || negb (truthy (Num newPrice)) then true
  else
    let changePercent :=
      fmul (SFabs (fdiv (fsub newPrice oldPrice) oldPrice)) hundred in
    fle changePercent thresholdPercent.

Definition DEFAULT_THRESHOLD : number := dbl 50.

Record validation := { isValid : bool; errors : list jsstring }.

Definition validatePriceData (priceData : jsval) : validation :=
  if negb (truthy priceData) then
    {| isValid := false; errors := [u "Price data is null or undefined"] |}
  else
    let price := prop priceData (u "price") in
    let r1 :=
      if negb (truthy price) || negb (is_number price) then
        {| isValid := false; errors := [u "Price is missing or invalid"] |}
      else if negb (isValidPriceRange price DEFAULT_MIN_PRICE DEFAULT_MAX_PRICE) then
        {| isValid := false;
           errors := [u "Price " ++ toString price ++ u " is outside valid range"] |}
      else {| isValid := true; errors := [] |} in
    if negb (truthy (prop priceData (u "currency"))) then
      {| isValid := isValid r1;
         errors := errors r1 ++ [u "Currency is missing (using default: USD)"] |}
    else r1.

(** Case-insensitive matching of a pattern of ASCII letters and spaces:
    a code unit matches a pattern character when their canonical forms
    agree.  [Canonicalize] maps a code unit to its upper case, and keeps a
    non-ASCII one that would map into ASCII, so only the two ASCII cases
    of a letter match it. *)
Definition canonicalize (c : Z) : Z :=
  if (97 <=? c) && (c <=? 122) then c - 32 else c.

Fixpoint starts_with_ci (p s : jsstring) : bool :=
  match p, s with
  | [], _ => true
  | x :: p', y :: s' => (canonicalize x =? canonicalize y) && starts_with_ci p' s'
  | _ :: _, [] => false
  end.

(** [/p/i.test(s)] for a literal pattern [p]. *)
Fixpoint test_ci (p s : jsstring) : bool :=
  starts_with_ci p s ||
  match s with
  | [] => false
  | _ :: r => test_ci p r
  end.

Definition outOfStockIndicators : list jsstring :=
  [ u "out of stock";
    u "currently unavailable";
    u "temporarily out of stock";
    u "unavailable";
    u "sold out" ].

Definition isOutOfStock (html : jsval) : bool :=
  match html with
  | Str s =>
    if negb (truthy html) then false
    else existsb (fun pattern => test_ci pattern s) outOfStockIndicators
  | _ => false
  end.

(* ================================================================== *)
(** * The patterns of the extractors *)

Definition QUOTE : Z := 34.
Definition LBRACE : Z := 123.
Definition RBRACE : Z := 125.

(** A key as it stands in JSON text: the name in double quotes and a
    colon. *)
Definition json_key (name : string) : jsstring := [QUOTE] ++ u name ++ [QUOTE; 58].
Arguments json_key name%_string.

(** [[\s\S]*?] followed by the literal [stop]: the text up to and with the
    first occurrence of [stop]; the rest of the input comes second. *)
Fixpoint upto (stop s : jsstring) : option (jsstring * jsstring) :=
  if starts_with stop s then Some (stop, skipn (List.length stop) s)
  else
    match s with
    | [] => None
    | c :: r =>
      match upto stop r with
      | Some (m, rest) => Some (c :: m, rest)
      | None => None
      end
    end.

(** The leftmost match of a pattern given by its matcher at a position. *)
Fixpoint leftmost {A} (at_head : jsstring -> option A) (s : jsstring) : option A :=
  match at_head s with
  | Some m => Some m
  | None =>
    match s with
    | [] => None
    | _ :: r => leftmost at_head r
    end
  end.

(** [prefix\s*] at the head of [s]; what follows it. *)
Definition after_prefix (prefix s : jsstring) : option jsstring :=
  if starts_with prefix s then Some (trim_start (skipn (List.length prefix) s))
  else None.

(** [(\{[\s\S]*?\})] at the head of [s]: the group. *)
Definition braces (s : jsstring) : option jsstring :=
  match s with
  | c :: r =>
    if c =? LBRACE then
      match upto [RBRACE] r with
      | Some (m, _) => Some (LBRACE :: m)
      | None => None
      end
    else None
  | [] => None
  end.

(** [/"name":\s*(\{[\s\S]*?\})/]: group 1 of the first match. *)
Definition match_key_object (name : string) (s : jsstring) : option jsstring :=
  leftmost (fun t =>
    match after_prefix (json_key name) t with
    | Some r => braces r
    | None => None
    end) s.
Arguments match_key_object name%_string s.

(** [/window\.__WML_REDUX_INITIAL_STATE__\s*=\s*(\{[\s\S]*?\});/] *)
Definition match_redux_state (s : jsstring) : option jsstring :=
  leftmost (fun t =>
    match after_prefix (u "window.__WML_REDUX_INITIAL_STATE__") t with
    | Some r1 =>
      match after_prefix [61] r1 with
      | Some (c :: r2) =>
        if c =? LBRACE then
          match upto [RBRACE; 59] r2 with
          | Some (m, _) => Some (LBRACE :: removelast m)
          | None => None
          end
        else None
      | _ => None
      end
    | None => None
    end) s.

(** [/"product":\s*(\{[\s\S]*?"price":[\s\S]*?\})/] *)
Definition match_product (s : jsstring) : option jsstring :=
  leftmost (fun t =>
    match after_prefix (json_key "product") t with
    | Some (c :: r) =>
      if c =? LBRACE then
        match upto (json_key "price") r with
        | Some (m1, r1) =>
          match upto [RBRACE] r1 with
          | Some (m2, _) => Some (LBRACE :: m1 ++ m2)
          | None => None
          end
        | None => None
        end
      else None
    | _ => None
    end) s.

(** The selectors with an attribute test, [[name="value"]] and
    [[name*="value"]], with an optional element name in front. *)
Definition attr_is (tag name value : string) : jsstring :=
  u tag ++ u "[" ++ u name ++ u "=" ++ [QUOTE] ++ u value ++ [QUOTE] ++ u "]".
Definition attr_has (name value : string) : jsstring :=
  u "[" ++ u name ++ u "*=" ++ [QUOTE] ++ u value ++ [QUOTE] ++ u "]".
Arguments attr_is (tag name value)%_string.
Arguments attr_has (name value)%_string.

(* ================================================================== *)
(** * The host *)

(** What the sources call and this repository does not define.

    - cheerio: [load] parses the HTML text; a selection is a list of
      elements; the fields [select] to [inner_html] are [$(selector)],
      [.find(selector)], [.siblings(selector)], [.parent()], [.text()],
      [.attr(name)] (a string or [undefined]) and [.html()] (a string or
      [null]).
    - [JSON_parse] is [JSON.parse]; it throws on text that is not JSON.
    - [fetchHtml] stands for the request of [PriceScraper.fetchHtml] with
      its retries: the HTML text, or the error thrown after the last
      attempt.
    - [now] is [new Date().toISOString()]. *)
Class Host : Type := {
  element : Type;
  document : Type;
  load : jsstring -> document;
  select : document -> jsstring -> list element;
  find : document -> list element -> jsstring -> list element;
  siblings : document -> list element -> jsstring -> list element;
  parent : document -> list element -> list element;
  text : document -> list element -> jsstring;
  attr : document -> list element -> jsstring -> jsval;
  inner_html : document -> list element -> jsval;
  JSON_parse : jsstring -> outcome jsval;
  fetchHtml : jsstring -> jsval -> outcome jsstring;
  now : jsstring
}.

(** [selection.first()] *)
Definition first {A} (sel : list A) : list A := firstn 1 sel.

(** [selection.length], as the test [if (selection.length)]. *)
Definition nonempty {A} (sel : list A) : bool :=
  match sel with [] => false | _ => true end.

(** A loop whose body may [return]: [body x = Some v] is [return v],
    [None] goes on with the next element; [None] at the end is the code
    after the loop. *)
Fixpoint for_each {A} (body : A -> option jsval) (l : list A) : option jsval :=
  match l with
  | [] => None
  | x :: r =>
    match body x with
    | Some v => Some v
    | None => for_each body r
    end
  end.

(** [if (v) return v;] between two methods. *)
Definition or_else (v : jsval) (next : jsval) : jsval :=
  if truthy v then v else next.

(** The end of a function whose loops fell through. *)
Definition returned (r : option jsval) (otherwise : jsval) : jsval :=
  match r with
  | Some v => v
  | None => otherwise
  end.

(** The candidate object literals of the extractors. *)
Definition candidate_price (price : jsval) : jsval :=
  Obj [(u "price", price)].
Definition candidate_price_currency (price currency : jsval) : jsval :=
  Obj [(u "price", price); (u "currency", currency)].
Definition candidate_price_list (price listPrice : jsval) : jsval :=
  Obj [(u "price", price); (u "listPrice", listPrice)].
Definition candidate_price_list_currency (price listPrice currency : jsval) : jsval :=
  Obj [(u "price", price); (u "listPrice", listPrice); (u "currency", currency)].

(** [v ? v.toString() : null] *)
Definition toString_or_null (v : jsval) : jsval :=
  if truthy v then Str (toString v) else Null.

Definition JSON_LD_SCRIPTS : jsstring := attr_is "script" "type" "application/ld+json".
Definition A_OFFSCREEN : jsstring := u ".a-offscreen".
Definition PRODUCT : jsval := Str (u "Product").

(* ================================================================== *)
(** * [src/extractors/amazon.js] *)

Module AmazonExtractor.
Section WithHost.
Context `{H : Host}.

Definition jsonPatterns : list string :=
  ["buyingPrice"%string; "priceToPay"%string; "offerPrice"%string].

(** [data.find(d => d['@type'] === 'Product')] *)
Fixpoint find_product (data : list jsval) : outcome jsval :=
  match data with
  | [] => Ok Undefined
  | d :: r =>
    t <- get d (u "@type") ;;
    if strict_eq t PRODUCT then Ok d else find_product r
  end.

(** The body of the [try] in the loop over the JSON-LD scripts, from
    [JSON.parse] on. *)
Definition from_product_schema (content : jsstring) : outcome (option jsval) :=
  data <- JSON_parse content ;;
  t <- get data (u "@type") ;;
  is_product <-
    (if strict_eq t PRODUCT then Ok true
     else match data with
          | Arr xs => d <- find_product xs ;; Ok (truthy d)
          | _ => Ok false
          end) ;;
  if is_product then
    product <- (match data with Arr xs => find_product xs | _ => Ok data end) ;;
    product_offers <- get product (u "offers") ;;
    if truthy product_offers then
      let offers :=
        match product_offers with
        | Arr xs => nth 0 xs Undefined
        | _ => product_offers
        end in
      price <- get offers (u "price") ;;
      if truthy price then
        currency <- get offers (u "priceCurrency") ;;
        Ok (Some (normalizePrice
                    (candidate_price_currency price (currency ||| Str USD))))
      else Ok None
    else Ok None
  else Ok None.

Definition extractFromJsonData (doc : document) (html : jsstring) : jsval :=
  returned
    (for_each (fun pattern =>
       match match_key_object pattern html with
       | Some group =>
         try_catch
           (priceData <- JSON_parse group ;;
            a <- get priceData (u "amount") ;;
            p <- get priceData (u "price") ;;
            v <- get priceData (u "value") ;;
            let amount := a ||| p ||| v in
            c <- get priceData (u "currency") ;;
            let currency := c ||| Str USD in
            if truthy amount then
              Ok (Some (normalizePrice (candidate_price_currency amount currency)))
            else Ok None)
           None
       | None => None
       end) jsonPatterns)
    (returned
       (for_each (fun script =>
          try_catch
            (let content := inner_html doc [script] in
             match content with
             | Str c => if truthy content then from_product_schema c else Ok None
             | _ => Ok None
             end)
            None) (select doc JSON_LD_SCRIPTS))
       Null).

(** [element.find('.a-offscreen').text() || element.text()] *)
Definition price_text (doc : document) (el : list element) : jsval :=
  Str (text doc (find doc el A_OFFSCREEN)) ||| Str (text doc el).

Definition priceToPaySelectors : list jsstring :=
  [ attr_is "" "id" "priceToPay";
    attr_has "class" "priceToPay";
    u ".a-price.a-text-price.a-size-medium.apexPriceToPay" ].

Definition extractFromPriceToPay (doc : document) : jsval :=
  returned
    (for_each (fun selector =>
       let el := first (select doc selector) in
       if nonempty el then
         let price := parsePrice (price_text doc el) in
         if truthy price then
           Some (normalizePrice (candidate_price (Str (toString price))))
         else None
       else None) priceToPaySelectors)
    Null.

Definition offerSelectors : list jsstring :=
  [ attr_is "" "data-a-color" "price"; u ".a-price"; u ".a-price-whole" ].

Definition extractFromOffers (doc : document) : jsval :=
  returned
    (for_each (fun selector =>
       for_each (fun e =>
         let el := [e] in
         let price := parsePrice (price_text doc el) in
         if truthy price then
           let listPriceElement :=
             first (siblings doc el (attr_is "" "data-a-strike" "true")) in
           let listPrice :=
             if nonempty listPriceElement
             then parsePrice (price_text doc listPriceElement)
             else Null in
           Some (normalizePrice
                   (candidate_price_list (Str (toString price))
                      (toString_or_null listPrice)))
         else None) (select doc selector)) offerSelectors)
    Null.

(** [s.replace(/[^\d]/g, '')] *)
Definition digits_only (s : jsstring) : jsstring :=
  remove_all (fun c => negb (is_digit c)) s.

Definition extractFromCorePrice (doc : document) : jsval :=
  let corePrice := first (select doc (attr_has "class" "a-price-whole")) in
  let coreFraction := first (select doc (attr_has "class" "a-price-fraction")) in
  if nonempty corePrice then
    let whole := digits_only (text doc corePrice) in
    let fraction :=
      if nonempty coreFraction then digits_only (text doc coreFraction)
      else u "00" in
    if truthy (Str whole) then
      let priceString := whole ++ [DOT] ++ fraction in
      let price := parsePrice (Str priceString) in
      if truthy price then normalizePrice (candidate_price (Str (toString price)))
      else Null
    else Null
  else Null.

Definition extract (html : jsstring) : jsval :=
  if negb (truthy (Str html)) then Null
  else
    let doc := load html in
    or_else (extractFromJsonData doc html)
      (or_else (extractFromPriceToPay doc)
         (or_else (extractFromOffers doc)
            (or_else (extractFromCorePrice doc) Null))).

(** [isCartPrice(html)] of the Amazon extractor. *)
Definition cartPricePhrases : list jsstring :=
  [ u "see price in cart"; u "add to cart to see price"; u "price available in cart" ].

Definition isCartPrice (html : jsstring) : bool :=
  if negb (truthy (Str html)) then false
  else existsb (fun phrase => test_ci phrase html) cartPricePhrases.

End WithHost.
End AmazonExtractor.

(** The loop [for (const key in obj)] of the two recursive searches: the
    properties whose value has type ['object'] are searched in order, and
    the first result that is truthy is returned.  [findPriceInJsonLd]
    throws nowhere and its loop is a plain one; [findPriceInState] may
    throw, and an exception leaves its loop. *)
Definition first_in_elems (rec : jsval -> jsval) : list jsval -> jsval :=
  fix loop (l : list jsval) : jsval :=
    match l with
    | [] => Null
    | v :: r =>
      if is_object v then
        let result := rec v in
        if truthy result then result else loop r
      else loop r
    end.

Definition first_in_props (rec : jsval -> jsval)
  : list (jsstring * jsval) -> jsval :=
  fix loop (l : list (jsstring * jsval)) : jsval :=
    match l with
    | [] => Null
    | (_, v) :: r =>
      if is_object v then
        let result := rec v in
        if truthy result then result else loop r
      else loop r
    end.

Definition search_elems (rec : jsval -> outcome jsval)
  : list jsval -> outcome jsval :=
  fix loop (l : list jsval) : outcome jsval :=
    match l with
    | [] => Ok Null
    | v :: r =>
      if is_object v then
        result <- rec v ;;
        if truthy result then Ok result else loop r
      else loop r
    end.

Definition search_props (rec : jsval -> outcome jsval)
  : list (jsstring * jsval) -> outcome jsval :=
  fix loop (l : list (jsstring * jsval)) : outcome jsval :=
    match l with
    | [] => Ok Null
    | (_, v) :: r =>
      if is_object v then
        result <- rec v ;;
        if truthy result then Ok result else loop r
      else loop r
    end.

(* ================================================================== *)
(** * [src/extractors/walmart.js] *)

Module WalmartExtractor.
Section WithHost.
Context `{H : Host}.

(** The checks of [findPriceInState] on the node itself, before the loop
    over its properties: [Some v] is [return v]. *)
Definition price_property (obj : jsval) : outcome (option jsval) :=
  let obj_price := prop obj (u "price") in
  if defined obj_price then
    price <-
      (if is_object obj_price then
         current <- get obj_price (u "current") ;;
         nested <- get obj_price (u "price") ;;
         Ok (get_opt current (u "price") ||| nested)
       else Ok obj_price) ;;
    let currency := prop obj (u "currency") ||| Str USD in
    if truthy price then
      let listPrice :=
        prop obj_price (u "was") ||| prop obj (u "wasPrice")
          ||| prop obj (u "listPrice") in
      Ok (Some (normalizePrice
                  (candidate_price_list_currency (Str (toString price))
                     (toString_or_null listPrice) currency)))
    else Ok None
  else Ok None.

Definition pricing_property (obj : jsval) : option jsval :=
  let pricing := prop obj (u "pricing") in
  if truthy pricing then
    let price := prop pricing (u "price") ||| prop pricing (u "currentPrice") in
    let listPrice :=
      prop pricing (u "wasPrice") ||| prop pricing (u "rollbackPrice") in
    if truthy price then
      Some (normalizePrice
              (candidate_price_list (Str (toString price))
                 (toString_or_null listPrice)))
    else None
  else None.

Fixpoint findPriceInState (obj : jsval) : outcome jsval :=
  if negb (truthy obj) || negb (is_object obj) then Ok Null
  else
    here <- price_property obj ;;
    match here with
    | Some v => Ok v
    | None =>
      match pricing_property obj with
      | Some v => Ok v
      | None =>
        match obj with
        | Obj props => search_props findPriceInState props
        | Arr xs => search_elems findPriceInState xs
        | _ => Ok Null
        end
      end
    end.

Definition scriptPatterns : list (jsstring -> option jsstring) :=
  [ match_redux_state; match_product; match_key_object "pricing" ].

(** The loop over the patterns, on the page text and on each script. *)
Definition from_patterns (source : jsstring) : option jsval :=
  for_each (fun pattern : jsstring -> option jsstring =>
    match pattern source with
    | Some group =>
      try_catch
        (stateData <- JSON_parse group ;;
         price <- findPriceInState stateData ;;
         if truthy price then Ok (Some price) else Ok None)
        None
    | None => None
    end) scriptPatterns.

Definition extractFromJsonState (doc : document) (html : jsstring) : jsval :=
  returned (from_patterns html)
    (returned
       (for_each (fun script =>
          let scriptContent := inner_html doc [script] in
          match scriptContent with
          | Str c => if truthy scriptContent then from_patterns c else None
          | _ => None
          end) (select doc (u "script")))
       Null).

Definition priceDisplaySelectors : list jsstring :=
  [ attr_is "" "data-testid" "product-price";
    attr_has "class" "PriceDisplay";
    attr_has "class" "price-display";
    u ".prod-PriceHero .price";
    attr_is "" "itemprop" "price" ].

Definition WAS_PRICE : jsstring := attr_has "class" "was-price".

Definition extractFromPriceDisplay (doc : document) : jsval :=
  returned
    (for_each (fun selector =>
       let el := first (select doc selector) in
       if nonempty el then
         let priceText := Str (trim (text doc el)) ||| attr doc el (u "content") in
         if truthy priceText then
           let price := parsePrice priceText in
           if truthy price then
             (* a selection is an object: the right operand of [||],
                [element.parent().find(...).first()], is never taken *)
             let wasPriceElement := first (siblings doc el WAS_PRICE) in
             let wasPrice :=
               if nonempty wasPriceElement
               then parsePrice (Str (text doc wasPriceElement))
               else Null in
             Some (normalizePrice
                     (candidate_price_list (Str (toString price))
                        (toString_or_null wasPrice)))
           else None
         else None
       else None) priceDisplaySelectors)
    Null.

Definition OG_PRICE_AMOUNT : jsstring := attr_is "meta" "property" "product:price:amount".
Definition OG_PRICE_CURRENCY : jsstring := attr_is "meta" "property" "product:price:currency".

Definition extractFromMetaTags (doc : document) : jsval :=
  let ogPrice := attr doc (select doc OG_PRICE_AMOUNT) (u "content") in
  if truthy ogPrice then
    let currency :=
      attr doc (select doc OG_PRICE_CURRENCY) (u "content") ||| Str USD in
    normalizePrice (candidate_price_currency ogPrice currency)
  else
    let itemPrice :=
      attr doc (select doc (attr_is "" "itemprop" "price")) (u "content") in
    if truthy itemPrice then normalizePrice (candidate_price itemPrice)
    else Null.

Definition extract (html : jsstring) : jsval :=
  if negb (truthy (Str html)) then Null
  else
    let doc := load html in
    or_else (extractFromJsonState doc html)
      (or_else (extractFromPriceDisplay doc)
         (or_else (extractFromMetaTags doc) Null)).

(** [isRollbackPrice(html)] of the Walmart extractor. *)
Definition rollbackPhrases : list jsstring := [ u "rollback"; u "reduced price" ].

Definition isRollbackPrice (html : jsstring) : bool :=
  if negb (truthy (Str html)) then false
  else existsb (fun phrase => test_ci phrase html) rollbackPhrases.

End WithHost.
End WalmartExtractor.

(* ================================================================== *)
(** * [src/extractors/generic.js] *)

Module GenericExtractor.
Section WithHost.
Context `{H : Host}.

(** The check of [findPriceInJsonLd] on the node itself. *)
Definition has_price (obj : jsval) : bool :=
  defined (prop obj (u "price"))
  || defined (get_opt (prop obj (u "offers")) (u "price")).

Definition price_here (obj : jsval) : jsval :=
  let offers := prop obj (u "offers") in
  let price := prop obj (u "price") ||| get_opt offers (u "price") in
  let priceType :=
    prop obj (u "priceCurrency") ||| get_opt offers (u "priceCurrency") in
  Obj [(u "price", price); (u "currency", priceType)].

Fixpoint findPriceInJsonLd (obj : jsval) : jsval :=
  if negb (truthy obj) || negb (is_object obj) then Null
  else if has_price obj then price_here obj
  else
    match obj with
    | Obj props => first_in_props findPriceInJsonLd props
    | Arr xs => first_in_elems findPriceInJsonLd xs
    | _ => Null
    end.

Definition extractFromJsonLd (doc : document) : jsval :=
  returned
    (for_each (fun script =>
       try_catch
         (let content := inner_html doc [script] in
          match content with
          | Str c =>
            if truthy content then
              data <- JSON_parse c ;;
              let price := findPriceInJsonLd data in
              if truthy price then Ok (Some (normalizePrice price)) else Ok None
            else Ok None
          | _ => Ok None
          end)
         None) (select doc JSON_LD_SCRIPTS))
    Null.

Definition extractFromOpenGraph (doc : document) : jsval :=
  let ogPrice :=
    attr doc (select doc WalmartExtractor.OG_PRICE_AMOUNT) (u "content") in
  let ogCurrency :=
    attr doc (select doc WalmartExtractor.OG_PRICE_CURRENCY) (u "content") in
  if truthy ogPrice then
    normalizePrice (candidate_price_currency ogPrice (ogCurrency ||| Str USD))
  else Null.

Definition commonSelectors : list jsstring :=
  [ u ".price";
    u ".product-price";
    attr_has "class" "price";
    attr_has "id" "price";
    u "[data-price]";
    u ".current-price";
    u ".sale-price" ].

Definition extractFromCommonSelectors (doc : document) : jsval :=
  returned
    (for_each (fun selector =>
       let el := first (select doc selector) in
       if nonempty el then
         let priceText :=
           Str (trim (text doc el)) ||| attr doc el (u "data-price") in
         if truthy priceText then
           let price := parsePrice priceText in
           if truthy price then
             Some (normalizePrice (candidate_price (Str (toString price))))
           else None
         else None
       else None) commonSelectors)
    Null.

Definition extract (html : jsstring) : jsval :=
  if negb (truthy (Str html)) then Null
  else
    let doc := load html in
    or_else (extractFromJsonLd doc)
      (or_else (extractFromOpenGraph doc)
         (or_else (extractFromCommonSelectors doc) Null)).

End WithHost.
End GenericExtractor.

(* ================================================================== *)
(** * [src/scraper.js] *)

Inductive strategy := AmazonStrategy | WalmartStrategy | GenericStrategy.

Module PriceScraper.
Section WithHost.
Context `{H : Host}.

Definition AMAZON : jsstring := u "amazon".
Definition WALMART : jsstring := u "walmart".

Definition detectVendor (url : jsstring) : jsstring :=
  let lowerUrl := toLowerCase url in
  if includes lowerUrl (u "amazon.com") || includes lowerUrl (u "amazon.") then AMAZON
  else if includes lowerUrl (u "walmart.com") || includes lowerUrl (u "walmart.") then WALMART
  else if includes lowerUrl (u "target.com") then u "target"
  else if includes lowerUrl (u "bestbuy.com") then u "bestbuy"
  else u "generic".

(** [this.amazonExtractor.extract(html)] and its two siblings. *)
Definition run_strategy (s : strategy) (html : jsstring) : jsval :=
  match s with
  | AmazonStrategy => AmazonExtractor.extract html
  | WalmartStrategy => WalmartExtractor.extract html
  | GenericStrategy => GenericExtractor.extract html
  end.

(** The [switch] of [getPrice]: the value [priceData] is left with, and
    next to it the strategies whose [extract] was called, in the order of
    the calls.  The [try] around the switch has nothing to catch here: the
    three [extract] functions are total on strings, the exceptions of
    [JSON.parse] and of property reads being caught inside them. *)
Definition dispatch (vendor html : jsstring) : list strategy * jsval :=
  if jsstring_eqb vendor AMAZON then
    ([AmazonStrategy], run_strategy AmazonStrategy html)
  else if jsstring_eqb vendor WALMART then
    ([WalmartStrategy], run_strategy WalmartStrategy html)
  else
    let priceData := run_strategy GenericStrategy html in
    if negb (truthy priceData) then
      let fromAmazon := run_strategy AmazonStrategy html in
      if truthy fromAmazon then ([GenericStrategy; AmazonStrategy], fromAmazon)
      else ([GenericStrategy; AmazonStrategy; WalmartStrategy],
            run_strategy WalmartStrategy html)
    else ([GenericStrategy], priceData).

(** Assignment to a property of an object under construction. *)
Fixpoint set_prop (props : list (jsstring * jsval)) (k : jsstring) (v : jsval)
  : list (jsstring * jsval) :=
  match props with
  | [] => [(k, v)]
  | (k', v') :: r =>
    if jsstring_eqb k k' then (k, v) :: r else (k', v') :: set_prop r k v
  end.

(** [{ ...props, ...v }]: the own properties of [v] are copied in order. *)
Definition spread (props : list (jsstring * jsval)) (v : jsval)
  : list (jsstring * jsval) :=
  match v with
  | Obj ps => fold_left (fun acc kv => set_prop acc (fst kv) (snd kv)) ps props
  | _ => props
  end.

Definition OUT_OF_STOCK_ERROR : jsstring := u "Product appears to be out of stock".
Definition NO_PRICE_ERROR : jsstring := u "Could not extract price from page".

Definition unavailable (url vendor error : jsstring) : jsval :=
  Obj [ (u "url", Str url); (u "vendor", Str vendor);
        (u "error", Str error); (u "available", Bool false) ].

(** What [getPrice] resolves to: the record, and the strategies invoked
    on the way. *)
Record answer := { invoked : list strategy; record : jsval }.

(** A missing [options] is the empty object. *)
Definition default_options (options : jsval) : jsval :=
  match options with Undefined => Obj [] | _ => options end.

(** [isOutOfStock(html) && !options.allowOutOfStock] *)
Definition out_of_stock_gate (html : jsstring) (options : jsval) : outcome bool :=
  if isOutOfStock (Str html) then
    allow <- get options (u "allowOutOfStock") ;; Ok (negb (truthy allow))
  else Ok false.

(** The end of [getPrice], from the value of [priceData] on. *)
Definition assemble (url vendor : jsstring) (priceData : jsval) : jsval :=
  if negb (truthy priceData) then unavailable url vendor NO_PRICE_ERROR
  else
    let validation := validatePriceData priceData in
    if negb (isValid validation) then
      Obj [ (u "url", Str url); (u "vendor", Str vendor);
            (u "error",
               Str (u "Price validation failed: "
                      ++ join (u ", ") (errors validation)));
            (u "available", Bool false);
            (u "rawPrice", priceData) ]
    else
      Obj (set_prop
             (set_prop
                (set_prop
                   (spread [ (u "url", Str url); (u "vendor", Str vendor) ]
                      priceData)
                   (u "available") (Bool true))
                (u "scrapedAt") (Str now))
             (u "warnings")
             (match errors validation with
              | [] => Undefined
              | es => Arr (map Str es)
              end)).

(** [getPrice(url, options)] *)
Definition getPrice (url options : jsval) : outcome answer :=
  let options := default_options options in
  match url with
  | Str url_ =>
    if negb (truthy url) then Throw (u "Valid URL is required")
    else
      let vendor := detectVendor url_ in
      html <- fetchHtml url_ options ;;
      if negb (truthy (Str html)) then Throw (u "Failed to fetch HTML content")
      else
        gate <- out_of_stock_gate html options ;;
        if gate then
          Ok {| invoked := [];
                record := unavailable url_ vendor OUT_OF_STOCK_ERROR |}
        else
          let '(called, priceData) := dispatch vendor html in
          Ok {| invoked := called; record := assemble url_ vendor priceData |}
  | _ => Throw (u "Valid URL is required")
  end.

End WithHost.
End PriceScraper.

(** ** Settings, requests and batches *)

Module Requests.

(** The settings the constructor keeps. *)
Record settings := {
  apiKey : jsval;
  apiUrl : jsval;
  maxRetries : jsval;
  retryDelay : jsval;
  timeout : jsval
}.

(** [new PriceScraper(apiKey, options)]; [env_url] is
    [process.env.DECODO_API_URL]. *)
Definition constructor (env_url apiKey options : jsval) : outcome settings :=
  let options := PriceScraper.default_options options in
  if negb (truthy apiKey) then Throw (u "Decodo API key is required")
  else
    url <- get options (u "apiUrl") ;;
    retries <- get options (u "maxRetries") ;;
    delay <- get options (u "retryDelay") ;;
    time <- get options (u "timeout") ;;
    Ok {| apiKey := apiKey;
          apiUrl := url ||| env_url ||| Str (u "https://api.decodo.com/v1");
          maxRetries := retries ||| Num (dbl 3);
          retryDelay := delay ||| Num (dbl 1000);
          timeout := time ||| Num (dbl 30000) |}.

(** What one request gives: the [data] of the response, or the error
    [axios] throws.  The body of the [try] reads the page from it. *)
Definition UNEXPECTED : jsstring := u "Unexpected response format from Decodo API".

Definition read_response (data : jsval) : outcome jsval :=
  if truthy data && truthy (prop data (u "html")) then Ok (prop data (u "html"))
  else if truthy data && truthy (prop data (u "content")) then
    Ok (prop data (u "content"))
  else if is_string data then Ok data
  else Throw UNEXPECTED.

(** The requests made so far and the delays passed to [sleep]. *)
Record log := { requests : nat; slept : list number }.

(** [Math.pow(2, k)] for a whole number [0 <= k]: the power of two, a
    double up to [2^1023], and [Infinity] from [2^1024] on. *)
Definition Math_pow2 (k : Z) : number := of_int (2 ^ k).

(** [attempt++] on a whole number: the successor of [2^53] is not a
    double, and the counter stays there. *)
Definition increment (attempt : Z) : Z :=
  if attempt <? 2 ^ 53 then attempt + 1 else attempt.

(** [lastError?.message || 'Unknown error'] *)
Definition message_of (lastError : option jsstring) : jsstring :=
  match lastError with
  | Some (c :: r) => c :: r
  | _ => u "Unknown error"
  end.

Definition failure (retries : Z) (lastError : option jsstring) : jsstring :=
  u "Failed to fetch HTML after " ++ Number_toString (of_int retries)
    ++ u " attempts: " ++ message_of lastError.

(** The loop of [fetchHtml] for a whole number [retries] of
    [maxRetries] and a double [delay] of [retryDelay]: [network k] is the
    outcome of the request number [k], and [attempt] the counter of the
    loop.  The delays are computed in doubles.  [fuel] bounds the
    iterations, the test that ends the loop included; [None] when it
    runs out. *)
Fixpoint attempts (network : nat -> outcome jsval) (retries : Z) (delay : number)
  (fuel : nat) (attempt : Z) (lastError : option jsstring) (l : log)
  : option (outcome jsval * log) :=
  match fuel with
  | O => None
  | S fuel' =>
    if attempt <=? retries then
      let sent := {| requests := S (requests l); slept := slept l |} in
      match (data <- network (requests l) ;; read_response data) with
      | Ok html => Some (Ok html, sent)
      | Throw error =>
        attempts network retries delay fuel' (increment attempt) (Some error)
          (if attempt <? retries then
             {| requests := requests sent;
                slept := slept sent ++ [fmul delay (Math_pow2 (attempt - 1))] |}
           else sent)
      end
    else Some (Throw (failure retries lastError), l)
  end.

Definition fetchHtml (network : nat -> outcome jsval) (retries : Z)
  (delay : number) (fuel : nat) : option (outcome jsval * log) :=
  attempts network retries delay fuel 1 None {| requests := 0; slept := [] |}.

Section Batch.
Context `{H : Host}.

(** [getPricesBatch(urls, options)]: the promises of [getPrice] are
    settled one by one, and a rejection becomes a record. *)
Definition settled (options url : jsval) : jsval :=
  match PriceScraper.getPrice url options with
  | Ok a => PriceScraper.record a
  | Throw message =>
    Obj [ (u "url", url);
          (u "error", Str message ||| Str (u "Unknown error"));
          (u "available", Bool false) ]
  end.

Definition getPricesBatch (urls options : jsval) : outcome (list jsval) :=
  match urls with
  | Arr us => Ok (map (settled options) us)
  | _ => Throw (u "URLs must be an array")
  end.

End Batch.
End Requests.

(* ================================================================== *)
(** * A host with three pages

    A small world to run the pipeline in: pages given by their URL, their
    text and the elements each selector matches in them, and the JSON
    texts [JSON.parse] accepts. *)

Module Fixture.

Record fx_element := {
  fx_text : jsstring;
  fx_attrs : list (jsstring * jsval);
  fx_html : jsval
}.

Definition fx_document := list (jsstring * list fx_element).

Record page := { page_url : jsstring; page_html : jsstring; page_dom : fx_document }.

Fixpoint assoc {A} (k : jsstring) (l : list (jsstring * A)) : option A :=
  match l with
  | [] => None
  | (k', a) :: r => if jsstring_eqb k k' then Some a else assoc k r
  end.

Definition quoted (s : string) : jsstring := [QUOTE] ++ u s ++ [QUOTE].
Arguments quoted s%_string.

(** [<span itemprop="price" content="12.99"></span>]: a price only the
    Walmart strategy looks for. *)
Definition walmart_style_html : jsstring :=
  u "<span itemprop=" ++ quoted "price" ++ u " content=" ++ quoted "12.99"
    ++ u "></span>".

Definition walmart_style_page : page :=
  {| page_url := u "https://www.amazon.com/dp/B08N5WRWNW";
     page_html := walmart_style_html;
     page_dom :=
       [ (attr_is "" "itemprop" "price",
          [ {| fx_text := [];
               fx_attrs := [(u "content", Str (u "12.99"))];
               fx_html := Str [] |} ]) ] |}.

(** [{"amount": "19.99", "currency": "USD"}] *)
Definition buying_price_json : jsstring :=
  u "{" ++ quoted "amount" ++ u ": " ++ quoted "19.99" ++ u ", "
    ++ quoted "currency" ++ u ": " ++ quoted "USD" ++ u "}".

Definition amazon_script : jsstring :=
  u "var data = {" ++ quoted "buyingPrice" ++ u ": " ++ buying_price_json ++ u "};".

(** A page whose only price is in an Amazon-style embedded block. *)
Definition amazon_style_html : jsstring :=
  u "<script>" ++ amazon_script ++ u "</script>".

Definition amazon_style_page : page :=
  {| page_url := u "https://www.target.com/p/-/A-123";
     page_html := amazon_style_html;
     page_dom :=
       [ (u "script",
          [ {| fx_text := amazon_script; fx_attrs := [];
               fx_html := Str amazon_script |} ]) ] |}.

Definition sold_out_html : jsstring :=
  u "<div id=" ++ quoted "availability" ++ u ">Currently Unavailable.</div>".

Definition sold_out_page : page :=
  {| page_url := u "https://www.walmart.com/ip/456";
     page_html := sold_out_html;
     page_dom := [] |}.

Definition pages : list page :=
  [ walmart_style_page; amazon_style_page; sold_out_page ].

Definition json_texts : list (jsstring * jsval) :=
  [ (buying_price_json,
     Obj [ (u "amount", Str (u "19.99")); (u "currency", Str (u "USD")) ]) ].

Definition fx_load (html : jsstring) : fx_document :=
  match List.find (fun p => jsstring_eqb html (page_html p)) pages with
  | Some p => page_dom p
  | None => []
  end.

Definition fx_select (doc : fx_document) (selector : jsstring) : list fx_element :=
  match assoc selector doc with
  | Some els => els
  | None => []
  end.

Definition fx_attr (sel : list fx_element) (name : jsstring) : jsval :=
  match sel with
  | e :: _ =>
    match assoc name (fx_attrs e) with
    | Some v => v
    | None => Undefined
    end
  | [] => Undefined
  end.

Definition fx_inner_html (sel : list fx_element) : jsval :=
  match sel with
  | e :: _ => fx_html e
  | [] => Null
  end.

Definition fx_fetch (url : jsstring) : outcome jsstring :=
  match List.find (fun p => jsstring_eqb url (page_url p)) pages with
  | Some p => Ok (page_html p)
  | None => Throw (u "Failed to fetch HTML after 3 attempts: Unknown error")
  end.

Definition fx_parse (text : jsstring) : outcome jsval :=
  match assoc text json_texts with
  | Some v => Ok v
  | None => Throw (u "SyntaxError")
  end.

#[export] Instance host : Host := {|
  element := fx_element;
  document := fx_document;
  load := fx_load;
  select := fx_select;
  find := fun _ _ _ => [];
  siblings := fun _ _ _ => [];
  parent := fun _ _ => [];
  text := fun _ sel => List.concat (map fx_text sel);
  attr := fun _ sel name => fx_attr sel name;
  inner_html := fun _ sel => fx_inner_html sel;
  JSON_parse := fx_parse;
  fetchHtml := fun url _ => fx_fetch url;
  now := u "2024-01-15T10:30:00.000Z"
|}.

End Fixture.

(** ** A host with numeric prices *)

(** A page with two JSON-LD blocks, [{"price": 29.99}] and
    [{"price": "19.99"}], and an embedded [buyingPrice] block with the
    amount 29.99 as a number. *)
Module NumericPrices.

Definition first_block : jsstring :=
  u "{" ++ Fixture.quoted "price" ++ u ": 29.99}".
Definition second_block : jsstring :=
  u "{" ++ Fixture.quoted "price" ++ u ": " ++ Fixture.quoted "19.99" ++ u "}".
Definition amount_block : jsstring :=
  u "{" ++ Fixture.quoted "amount" ++ u ": 29.99}".

Definition html : jsstring :=
  u "<script>var d = {" ++ Fixture.quoted "buyingPrice" ++ u ": " ++ amount_block
    ++ u "};</script>".

Definition parse (s : jsstring) : outcome jsval :=
  if jsstring_eqb s first_block then Ok (Obj [(u "price", Num (dbl 29.99))])
  else if jsstring_eqb s second_block then Ok (Obj [(u "price", Str (u "19.99"))])
  else if jsstring_eqb s amount_block then Ok (Obj [(u "amount", Num (dbl 29.99))])
  else Throw (u "SyntaxError").

#[export] Instance host : Host := {
  element := nat;
  document := unit;
  load := fun _ => tt;
  select := fun _ sel =>
    if jsstring_eqb sel JSON_LD_SCRIPTS then [0%nat; 1%nat] else [];
  find := fun _ _ _ => [];
  siblings := fun _ _ _ => [];
  parent := fun _ _ => [];
  text := fun _ _ => [];
  attr := fun _ _ _ => Undefined;
  inner_html := fun _ els =>
    match els with
    | [O] => Str first_block
    | [S O] => Str second_block
    | _ => Null
    end;
  JSON_parse := parse;
  fetchHtml := fun _ _ => Ok html;
  now := u "2024-01-01T00:00:00.000Z"
}.

End NumericPrices.

(* ================================================================== *)
(** * Properties *)

(** ** Structural induction on values *)

Section jsval_induction.
Variable P : jsval -> Prop.
Hypothesis P_undefined : P Undefined.
Hypothesis P_null : P Null.
Hypothesis P_bool : forall b, P (Bool b).
Hypothesis P_num : forall x, P (Num x).
Hypothesis P_str : forall s, P (Str s).
Hypothesis P_obj : forall props, Forall (fun kv => P (snd kv)) props -> P (Obj props).
Hypothesis P_arr : forall xs, Forall P xs -> P (Arr xs).

Fixpoint jsval_ind (v : jsval) : P v :=
  match v with
  | Undefined => P_undefined
  | Null => P_null
  | Bool b => P_bool b
  | Num x => P_num x
  | Str s => P_str s
  | Obj props =>
    P_obj props
      ((fix all (l : list (jsstring * jsval)) : Forall (fun kv => P (snd kv)) l :=
          match l with
          | [] => Forall_nil _
          | kv :: r => Forall_cons kv (jsval_ind (snd kv)) (all r)
          end) props)
  | Arr xs =>
    P_arr xs
      ((fix all (l : list jsval) : Forall P l :=
          match l with
          | [] => Forall_nil _
          | x :: r => Forall_cons x (jsval_ind x) (all r)
          end) xs)
  end.
End jsval_induction.

(** Induction over the values [for ... in] reaches. *)
Lemma jsval_children_ind (P : jsval -> Prop) :
  (forall v, Forall P (children v) -> P v) -> forall v, P v.
Proof.
  intros step. induction v using jsval_ind; apply step; cbn; auto.
  apply Forall_map. assumption.
Qed.

(** ** The normalizer *)

(** The five fields of a record of [normalizePrice]. *)
Definition price_record (price originalPrice salePrice currency : jsval)
  (isOnSale : bool) : jsval :=
  Obj [ (u "price", price); (u "originalPrice", originalPrice);
        (u "salePrice", salePrice); (u "currency", currency);
        (u "isOnSale", Bool isOnSale) ].

Lemma parsePrice_cases (v : jsval) :
  parsePrice v = Null \/ exists x, parsePrice v = Num x.
Proof.
  unfold parsePrice. destruct v; auto.
  repeat match goal with |- context [if ?c then _ else _] => destruct c end;
    eauto.
Qed.

Lemma normalizePrice_shape (priceData : jsval) :
  normalizePrice priceData = Null \/
  exists x o s c b,
    normalizePrice priceData = price_record (Num x) o s c b /\
    parsePrice (prop priceData (u "salePrice") ||| prop priceData (u "price")
                  ||| prop priceData (u "listPrice")) = Num x /\
    truthy (Num x) = true.
Proof.
  unfold normalizePrice.
  destruct (truthy priceData); [|now left]. cbn [negb].
  set (w := prop priceData (u "salePrice") ||| _ ||| _).
  destruct (parsePrice_cases w) as [E | [x E]]; rewrite E.
  - now left.
  - destruct (truthy (Num x)) eqn:T; [|now left]. right.
    cbn [negb]. do 5 eexists. split; [reflexivity|]. split; [reflexivity|exact T].
Qed.

(** A candidate without [salePrice] is never on sale: what comes back is
    [null] or a record with [salePrice: null] and [isOnSale: false]. *)
Definition no_sale (r : jsval) : Prop :=
  r = Null \/
  exists x o c, r = price_record (Num x) o Null c false /\ truthy (Num x) = true.

Lemma normalizePrice_no_sale (priceData : jsval) :
  prop priceData (u "salePrice") = Undefined ->
  no_sale (normalizePrice priceData).
Proof.
  intros Hs. unfold no_sale.
  destruct (normalizePrice_shape priceData) as [E | (x & o & s & c & b & E & _ & T)];
    [now left|right].
  exists x, o, c. split; [|exact T].
  rewrite E. unfold normalizePrice in E. rewrite Hs in E.
  destruct (negb (truthy priceData)); [discriminate|].
  match type of E with context [if ?c then _ else _] => destruct c end;
    [discriminate|].
  unfold price_record in *. cbn [truthy andb] in E. congruence.
Qed.

Lemma no_sale_null : no_sale Null.
Proof. now left. Qed.

(** ** The recursive searches *)

Lemma first_in_props_elems (rec : jsval -> jsval) (props : list (jsstring * jsval)) :
  first_in_props rec props = first_in_elems rec (map snd props).
Proof.
  induction props as [|[k v] r IH]; cbn; [reflexivity|].
  rewrite IH. reflexivity.
Qed.

Lemma search_props_elems (rec : jsval -> outcome jsval)
  (props : list (jsstring * jsval)) :
  search_props rec props = search_elems rec (map snd props).
Proof.
  induction props as [|[k v] r IH]; cbn; [reflexivity|].
  rewrite IH. reflexivity.
Qed.

(** A node that is searched: an object or an array. *)
Definition is_node (v : jsval) : bool :=
  match v with Obj _ | Arr _ => true | _ => false end.

Lemma not_node_skipped (v : jsval) :
  is_node v = false -> negb (truthy v) || negb (is_object v) = true.
Proof.
  destruct v; cbn [is_node is_object negb]; intros; try discriminate;
    try apply orb_true_r; reflexivity.
Qed.

Lemma node_searched (v : jsval) :
  is_node v = true -> negb (truthy v) || negb (is_object v) = false.
Proof. destruct v; cbn; intros; try reflexivity; discriminate. Qed.

Lemma findPriceInJsonLd_unfold (obj : jsval) :
  GenericExtractor.findPriceInJsonLd obj =
  if negb (truthy obj) || negb (is_object obj) then Null
  else if GenericExtractor.has_price obj then GenericExtractor.price_here obj
  else first_in_elems GenericExtractor.findPriceInJsonLd (children obj).
Proof.
  destruct obj; try reflexivity; cbn [GenericExtractor.findPriceInJsonLd children].
  rewrite first_in_props_elems. reflexivity.
Qed.

Lemma findPriceInState_unfold `{H : Host} (obj : jsval) :
  WalmartExtractor.findPriceInState obj =
  if negb (truthy obj) || negb (is_object obj) then Ok Null
  else
    here <- WalmartExtractor.price_property obj ;;
    match here with
    | Some v => Ok v
    | None =>
      match WalmartExtractor.pricing_property obj with
      | Some v => Ok v
      | None => search_elems WalmartExtractor.findPriceInState (children obj)
      end
    end.
Proof.
  destruct obj; try reflexivity; cbn [WalmartExtractor.findPriceInState children].
  rewrite search_props_elems. reflexivity.
Qed.

(** ** What the extractors return

    Every [return] of an extraction method hands over the result of
    [normalizePrice] on a candidate that has no [salePrice] property.  The
    lemmas below follow the control structure of the methods: loops, [try]
    blocks, sequences of statements that may throw. *)

Definition no_sale_opt (r : option jsval) : Prop :=
  forall v, r = Some v -> no_sale v.

Definition no_sale_out (m : outcome (option jsval)) : Prop :=
  forall v, m = Ok (Some v) -> no_sale v.

Lemma no_sale_opt_none : no_sale_opt None.
Proof. intros v E; discriminate. Qed.

Lemma no_sale_opt_some (v : jsval) : no_sale v -> no_sale_opt (Some v).
Proof. intros N w E; injection E as <-; exact N. Qed.

Lemma no_sale_out_ok (r : option jsval) : no_sale_opt r -> no_sale_out (Ok r).
Proof. intros N v E; injection E as ->; now apply N. Qed.

Lemma no_sale_out_throw (msg : jsstring) : no_sale_out (Throw msg).
Proof. intros v E; discriminate. Qed.

Lemma no_sale_out_bind {A} (m : outcome A) (f : A -> outcome (option jsval)) :
  (forall a, no_sale_out (f a)) -> no_sale_out (bind m f).
Proof. intros N v E. destruct m; cbn in E; [now apply (N a)|discriminate]. Qed.

Lemma no_sale_try (m : outcome (option jsval)) :
  no_sale_out m -> no_sale_opt (try_catch m None).
Proof. intros N v E. destruct m; cbn in E; [subst; now apply N|discriminate]. Qed.

Lemma no_sale_for_each {A} (body : A -> option jsval) (l : list A) :
  (forall x, no_sale_opt (body x)) -> no_sale_opt (for_each body l).
Proof.
  intros N. induction l as [|x r IH]; cbn; [apply no_sale_opt_none|].
  destruct (body x) eqn:E; [|exact IH].
  apply no_sale_opt_some. now apply (N x).
Qed.

Lemma no_sale_returned (r : option jsval) (otherwise : jsval) :
  no_sale_opt r -> no_sale otherwise -> no_sale (returned r otherwise).
Proof. intros N1 N2. destruct r; cbn; [now apply N1|exact N2]. Qed.

Lemma no_sale_or_else (v next : jsval) :
  no_sale v -> no_sale next -> no_sale (or_else v next).
Proof. intros N1 N2. unfold or_else. now destruct (truthy v). Qed.

(** One step along the structure of a method. *)
Ltac no_sale_step :=
  match goal with
  | |- no_sale Null => apply no_sale_null
  | |- no_sale (normalizePrice _) => apply normalizePrice_no_sale; reflexivity
  | |- no_sale (returned _ _) => apply no_sale_returned
  | |- no_sale (or_else _ _) => apply no_sale_or_else
  | |- no_sale_opt None => apply no_sale_opt_none
  | |- no_sale_opt (Some _) => apply no_sale_opt_some
  | |- no_sale_opt (try_catch _ None) => apply no_sale_try
  | |- no_sale_opt (for_each _ _) => apply no_sale_for_each; intros
  | |- no_sale_out (Ok _) => apply no_sale_out_ok
  | |- no_sale_out (Throw _) => apply no_sale_out_throw
  | |- no_sale_out (bind _ _) => apply no_sale_out_bind; intros
  | |- context [if ?c then _ else _] => destruct c
  | |- context [match ?x with _ => _ end] => destruct x
  end.

Ltac no_sale_auto := repeat no_sale_step.

Section ExtractorResults.
Context `{H : Host}.

Lemma amazon_no_sale (html : jsstring) : no_sale (AmazonExtractor.extract html).
Proof.
  unfold AmazonExtractor.extract.
  destruct (negb (truthy (Str html))); [apply no_sale_null|].
  repeat apply no_sale_or_else; try apply no_sale_null.
  - unfold AmazonExtractor.extractFromJsonData.
    apply no_sale_returned.
    + apply no_sale_for_each; intros. no_sale_auto.
    + apply no_sale_returned; [|apply no_sale_null].
      apply no_sale_for_each; intros. apply no_sale_try.
      destruct (inner_html (load html) [x]); try apply no_sale_out_ok;
        try apply no_sale_opt_none.
      destruct (truthy (Str s)); [|apply no_sale_out_ok; apply no_sale_opt_none].
      unfold AmazonExtractor.from_product_schema. no_sale_auto.
  - unfold AmazonExtractor.extractFromPriceToPay. no_sale_auto.
  - unfold AmazonExtractor.extractFromOffers. no_sale_auto.
  - unfold AmazonExtractor.extractFromCorePrice. no_sale_auto.
Qed.

Lemma search_elems_no_sale (rec : jsval -> outcome jsval) (xs : list jsval) :
  Forall (fun v => forall r, rec v = Ok r -> no_sale r) xs ->
  forall r, search_elems rec xs = Ok r -> no_sale r.
Proof.
  induction 1 as [|v l Hv _ IH]; cbn; intros r E.
  - injection E as <-. apply no_sale_null.
  - destruct (is_object v); [|now apply IH].
    destruct (rec v) as [a|] eqn:R; cbn in E; [|discriminate].
    destruct (truthy a); [|now apply IH].
    injection E as <-. now apply Hv.
Qed.

Lemma price_property_no_sale (obj : jsval) :
  no_sale_out (WalmartExtractor.price_property obj).
Proof. unfold WalmartExtractor.price_property. no_sale_auto. Qed.

Lemma pricing_property_no_sale (obj : jsval) :
  no_sale_opt (WalmartExtractor.pricing_property obj).
Proof. unfold WalmartExtractor.pricing_property. no_sale_auto. Qed.

Lemma findPriceInState_no_sale (obj r : jsval) :
  WalmartExtractor.findPriceInState obj = Ok r -> no_sale r.
Proof.
  revert r. induction obj as [obj IH] using jsval_children_ind. intros r.
  rewrite findPriceInState_unfold.
  destruct (negb (truthy obj) || negb (is_object obj)).
  { intros E; injection E as <-; apply no_sale_null. }
  destruct (WalmartExtractor.price_property obj) as [[v|]|] eqn:E1; cbn;
    try discriminate.
  { intros E; injection E as <-. now apply (price_property_no_sale obj). }
  destruct (WalmartExtractor.pricing_property obj) as [v|] eqn:E2.
  { intros E; injection E as <-. now apply (pricing_property_no_sale obj). }
  now apply search_elems_no_sale.
Qed.

Lemma from_patterns_no_sale (source : jsstring) :
  no_sale_opt (WalmartExtractor.from_patterns source).
Proof.
  unfold WalmartExtractor.from_patterns.
  apply no_sale_for_each; intros pattern.
  destruct (pattern source); [|apply no_sale_opt_none].
  apply no_sale_try, no_sale_out_bind; intros stateData.
  intros v E.
  destruct (WalmartExtractor.findPriceInState stateData) as [a|] eqn:F;
    cbn in E; [|discriminate].
  destruct (truthy a); [|discriminate].
  injection E as <-. now apply (findPriceInState_no_sale stateData).
Qed.

Lemma walmart_no_sale (html : jsstring) : no_sale (WalmartExtractor.extract html).
Proof.
  unfold WalmartExtractor.extract.
  destruct (negb (truthy (Str html))); [apply no_sale_null|].
  repeat apply no_sale_or_else; try apply no_sale_null.
  - unfold WalmartExtractor.extractFromJsonState.
    apply no_sale_returned; [apply from_patterns_no_sale|].
    apply no_sale_returned; [|apply no_sale_null].
    apply no_sale_for_each; intros script.
    destruct (inner_html (load html) [script]); try apply no_sale_opt_none.
    destruct (truthy (Str s)); [apply from_patterns_no_sale|apply no_sale_opt_none].
  - unfold WalmartExtractor.extractFromPriceDisplay. no_sale_auto.
  - unfold WalmartExtractor.extractFromMetaTags. no_sale_auto.
Qed.

(** [findPriceInJsonLd] returns [null] or a fresh object with the two
    properties [price] and [currency]. *)
Lemma first_in_elems_cases (P : jsval -> Prop) (rec : jsval -> jsval)
  (xs : list jsval) :
  P Null -> Forall (fun v => P (rec v)) xs -> P (first_in_elems rec xs).
Proof.
  intros P0. induction 1 as [|v l Hv _ IH]; cbn; [exact P0|].
  destruct (is_object v); [|exact IH].
  destruct (truthy (rec v)); [exact Hv|exact IH].
Qed.

Lemma findPriceInJsonLd_result (obj : jsval) :
  GenericExtractor.findPriceInJsonLd obj = Null \/
  exists node,
    GenericExtractor.findPriceInJsonLd obj = GenericExtractor.price_here node.
Proof.
  induction obj as [obj IH] using jsval_children_ind.
  rewrite findPriceInJsonLd_unfold.
  destruct (negb (truthy obj) || negb (is_object obj)); [now left|].
  destruct (GenericExtractor.has_price obj); [right; now exists obj|].
  apply first_in_elems_cases; [now left|exact IH].
Qed.

Lemma generic_no_sale (html : jsstring) : no_sale (GenericExtractor.extract html).
Proof.
  unfold GenericExtractor.extract.
  destruct (negb (truthy (Str html))); [apply no_sale_null|].
  repeat apply no_sale_or_else; try apply no_sale_null.
  - unfold GenericExtractor.extractFromJsonLd.
    apply no_sale_returned; [|apply no_sale_null].
    apply no_sale_for_each; intros script. apply no_sale_try.
    destruct (inner_html (load html) [script]); try apply no_sale_out_ok;
      try apply no_sale_opt_none.
    destruct (truthy (Str s)); [|apply no_sale_out_ok, no_sale_opt_none].
    apply no_sale_out_bind; intros data.
    destruct (truthy (GenericExtractor.findPriceInJsonLd data));
      [|apply no_sale_out_ok, no_sale_opt_none].
    apply no_sale_out_ok, no_sale_opt_some.
    destruct (findPriceInJsonLd_result data) as [-> | [node ->]].
    + apply no_sale_null.
    + apply normalizePrice_no_sale. reflexivity.
  - unfold GenericExtractor.extractFromOpenGraph. no_sale_auto.
  - unfold GenericExtractor.extractFromCommonSelectors. no_sale_auto.
Qed.

Lemma run_strategy_no_sale (s : strategy) (html : jsstring) :
  no_sale (PriceScraper.run_strategy s html).
Proof.
  destruct s; [apply amazon_no_sale|apply walmart_no_sale|apply generic_no_sale].
Qed.

End ExtractorResults.

(** ** Strings *)

Lemma jsstring_eqb_eq (a b : jsstring) : jsstring_eqb a b = true <-> a = b.
Proof.
  revert b. induction a as [|x a IH]; destruct b as [|y b]; cbn;
    try (split; [discriminate|congruence]); try tauto.
  rewrite andb_true_iff, Z.eqb_eq, IH. split; [intros [-> ->]|intros [= -> ->]]; auto.
Qed.

Lemma jsstring_eqb_neq (a b : jsstring) : a <> b -> jsstring_eqb a b = false.
Proof.
  intros N. destruct (jsstring_eqb a b) eqn:E; [|reflexivity].
  apply jsstring_eqb_eq in E. contradiction.
Qed.

(** The same text up to the case of ASCII letters. *)
Definition same_ignoring_case (a b : jsstring) : Prop :=
  Forall2 (fun x y => to_lower x = to_lower y) a b.

Lemma to_lower_canonicalize (x y : Z) :
  to_lower x = to_lower y -> canonicalize y = canonicalize x.
Proof.
  unfold to_lower, canonicalize.
  repeat match goal with |- context [if ?c then _ else _] => destruct c eqn:? end;
    lia.
Qed.

Lemma starts_with_ci_found (pattern found rest : jsstring) :
  same_ignoring_case found pattern -> starts_with_ci pattern (found ++ rest) = true.
Proof.
  induction 1 as [|x y found pattern Hxy _ IH]; cbn; [reflexivity|].
  rewrite IH, (to_lower_canonicalize _ _ Hxy), Z.eqb_refl. reflexivity.
Qed.

Lemma test_ci_found (pattern before found rest : jsstring) :
  same_ignoring_case found pattern ->
  test_ci pattern (before ++ found ++ rest) = true.
Proof.
  intros S. induction before as [|c before IH]; cbn [app].
  - destruct (found ++ rest) eqn:E; cbn; rewrite <- ?E, starts_with_ci_found;
      auto.
  - cbn. rewrite IH. apply orb_true_r.
Qed.

Lemma indicators_nonempty : ~ In [] outOfStockIndicators.
Proof.
  intros Hin.
  assert (A : forallb (fun p => negb (jsstring_eqb p [])) outOfStockIndicators = true)
    by (vm_compute; reflexivity).
  rewrite forallb_forall in A. specialize (A _ Hin). discriminate.
Qed.

Lemma isOutOfStock_phrase (html phrase before found rest : jsstring) :
  In phrase outOfStockIndicators ->
  html = before ++ found ++ rest ->
  same_ignoring_case found phrase ->
  isOutOfStock (Str html) = true /\ html <> [].
Proof.
  intros Hin -> S.
  assert (N : before ++ found ++ rest <> []).
  { destruct S as [|x y found phrase].
    - exfalso. revert Hin. now apply indicators_nonempty.
    - destruct before; discriminate. }
  split; [|exact N]. unfold isOutOfStock.
  destruct (before ++ found ++ rest) eqn:E; [contradiction|].
  cbn [truthy negb]. apply existsb_exists. exists phrase. split; [exact Hin|].
  rewrite <- E. now apply test_ci_found.
Qed.

(** ** The dispatcher *)

Section Dispatcher.
Context `{H : Host}.
Import PriceScraper.

(** A page on which no method of the Amazon strategy finds its marker:
    none of the three embedded-JSON patterns matches the text, and none
    of the selectors selects an element. *)
Definition no_amazon_markers (html : jsstring) : Prop :=
  (forall p, In p AmazonExtractor.jsonPatterns -> match_key_object p html = None)
  /\ select (load html) JSON_LD_SCRIPTS = []
  /\ (forall sel, In sel AmazonExtractor.priceToPaySelectors ->
        select (load html) sel = [])
  /\ (forall sel, In sel AmazonExtractor.offerSelectors ->
        select (load html) sel = [])
  /\ select (load html) (attr_has "class" "a-price-whole") = [].

Lemma for_each_none {A} (body : A -> option jsval) (l : list A) :
  (forall x, In x l -> body x = None) -> for_each body l = None.
Proof.
  induction l as [|x r IH]; cbn; intros N; [reflexivity|].
  rewrite (N x) by now left. apply IH. intros; apply N; now right.
Qed.

Lemma amazon_without_markers (html : jsstring) :
  no_amazon_markers html -> AmazonExtractor.extract html = Null.
Proof.
  intros (Hp & Hld & Hpay & Hoff & Hcore).
  unfold AmazonExtractor.extract.
  destruct (negb (truthy (Str html))); [reflexivity|].
  unfold AmazonExtractor.extractFromJsonData, AmazonExtractor.extractFromPriceToPay,
    AmazonExtractor.extractFromOffers, AmazonExtractor.extractFromCorePrice.
  rewrite Hld, Hcore. cbn [for_each returned first firstn nonempty].
  rewrite !for_each_none; [reflexivity| | |].
  - intros sel Hin. now rewrite (Hoff sel Hin).
  - intros sel Hin. now rewrite (Hpay sel Hin).
  - intros p Hin. now rewrite (Hp p Hin).
Qed.

Lemma dispatch_amazon (html : jsstring) :
  dispatch AMAZON html = ([AmazonStrategy], AmazonExtractor.extract html).
Proof. reflexivity. Qed.

Lemma dispatch_walmart (html : jsstring) :
  dispatch WALMART html = ([WalmartStrategy], WalmartExtractor.extract html).
Proof. reflexivity. Qed.

Lemma dispatch_other (vendor html : jsstring) :
  vendor <> AMAZON -> vendor <> WALMART ->
  dispatch vendor html =
  let generic := GenericExtractor.extract html in
  let amazon := AmazonExtractor.extract html in
  if truthy generic then ([GenericStrategy], generic)
  else if truthy amazon then ([GenericStrategy; AmazonStrategy], amazon)
  else ([GenericStrategy; AmazonStrategy; WalmartStrategy],
        WalmartExtractor.extract html).
Proof.
  intros NA NW. unfold dispatch.
  rewrite (jsstring_eqb_neq _ _ NA), (jsstring_eqb_neq _ _ NW).
  cbn [run_strategy]. destruct (truthy (GenericExtractor.extract html)); reflexivity.
Qed.

(** [getPrice] once the page is fetched and the out-of-stock gate is
    passed. *)
Lemma getPrice_dispatches (url : jsstring) (options : jsval) (html : jsstring) :
  url <> [] -> html <> [] ->
  fetchHtml url (default_options options) = Ok html ->
  out_of_stock_gate html (default_options options) = Ok false ->
  getPrice (Str url) options =
  Ok {| invoked := fst (dispatch (detectVendor url) html);
        record := assemble url (detectVendor url)
                    (snd (dispatch (detectVendor url) html)) |}.
Proof.
  intros Nu Nh F G. unfold getPrice.
  destruct url as [|c url]; [contradiction|]. cbn [truthy negb].
  rewrite F. cbn [bind]. destruct html as [|d html]; [contradiction|].
  cbn [truthy negb]. rewrite G. cbn [bind].
  destruct (dispatch _ _); reflexivity.
Qed.

Lemma assemble_without_price (url vendor : jsstring) (priceData : jsval) :
  truthy priceData = false ->
  assemble url vendor priceData = unavailable url vendor NO_PRICE_ERROR.
Proof. intros T. unfold assemble. now rewrite T. Qed.

End Dispatcher.

(** ** Rounding

    [SFmul] and [SFdiv] round a product or quotient to the nearest double,
    ties to even.  The lemmas below state that in terms of integers: the
    result of rounding [A / D * 2 ^ ex] has the mantissa [rne A' D'], the
    nearest integer to the ratio at the exponent of the result. *)


(** The position of [A / D] between two integers, as the round and sticky
    bits of a shift record. *)
Definition represents (A D : Z) (mrs : shr_record) : Prop :=
  0 < D /\ 0 <= A /\
  shr_m mrs = A / D /\
  shr_r mrs = (D <=? 2 * (A mod D)) /\
  shr_s mrs = negb (A mod D =? 0) && negb (2 * (A mod D) =? D).

Lemma shr_1_div2 (m : Z) (r s : bool) :
  0 <= m ->
  shr_1 (Build_shr_record m r s) = Build_shr_record (m / 2) (Z.odd m) (r || s).
Proof.
  intros Hm. destruct m as [|p|p]; [reflexivity| |lia].
  destruct p as [p|p|]; cbn [shr_1 Z.odd].
  - replace (Z.pos p~1 / 2) with (Z.pos p); [reflexivity|].
    apply Z.div_unique with 1; lia.
  - replace (Z.pos p~0 / 2) with (Z.pos p); [reflexivity|].
    apply Z.div_unique with 0; lia.
  - reflexivity.
Qed.

Lemma represents_shr_1 (A D : Z) (mrs : shr_record) :
  represents A D mrs -> represents A (2 * D) (shr_1 mrs).
Proof.
  intros (HD & HA & Hm & Hr & Hs). destruct mrs as [m r s].
  cbn [shr_m shr_r shr_s] in *.
  assert (0 <= m) by (subst m; apply Z.div_pos; lia).
  rewrite shr_1_div2 by assumption.
  pose proof (Z.div_mod A D ltac:(lia)) as E1.
  pose proof (Z.mod_pos_bound A D HD) as B1.
  pose proof (Z.div_mod m 2 ltac:(lia)) as E2.
  pose proof (Z.mod_pos_bound m 2 ltac:(lia)) as B2.
  assert (Q : A / (2 * D) = m / 2).
  { symmetry. apply Z.div_unique with ((m mod 2) * D + A mod D); [nia|nia]. }
  assert (R : A mod (2 * D) = (m mod 2) * D + A mod D).
  { symmetry. apply Z.mod_unique with (m / 2); [nia|nia]. }
  unfold represents. cbn [shr_m shr_r shr_s]. rewrite Q, R.
  clear Q R E1 E2. rewrite Zodd_mod.
  assert (C : m mod 2 = 0 \/ m mod 2 = 1) by lia.
  set (t := A mod D) in *. clearbody t.
  repeat split; try lia; subst r s; destruct C as [C|C]; rewrite C;
    destruct (Z.leb_spec D (2 * t));
    destruct (Z.eqb_spec t 0);
    destruct (Z.eqb_spec (2 * t) D);
    try match goal with |- context [?a <=? ?b] => destruct (Z.leb_spec a b) end;
    repeat match goal with |- context [?a =? ?b] => destruct (Z.eqb_spec a b) end;
    cbn; try reflexivity; lia.
Qed.

Lemma pow2_xO (p : positive) : 2 ^ Z.pos p~0 = 2 ^ Z.pos p * 2 ^ Z.pos p.
Proof.
  replace (Z.pos p~0) with (Z.pos p + Z.pos p) by lia.
  apply Z.pow_add_r; lia.
Qed.

Lemma pow2_xI (p : positive) : 2 ^ Z.pos p~1 = 2 * (2 ^ Z.pos p * 2 ^ Z.pos p).
Proof.
  replace (Z.pos p~1) with (1 + (Z.pos p + Z.pos p)) by lia.
  rewrite Z.pow_add_r, Z.pow_add_r by lia. reflexivity.
Qed.

Lemma represents_iter (p : positive) : forall A D mrs,
  represents A D mrs -> represents A (D * 2 ^ Z.pos p) (iter_pos shr_1 p mrs).
Proof.
  induction p as [p IH|p IH|]; intros A D mrs R; cbn [iter_pos].
  - apply represents_shr_1 in R. apply IH in R. apply IH in R.
    replace (D * 2 ^ Z.pos p~1) with (2 * D * 2 ^ Z.pos p * 2 ^ Z.pos p); [exact R|].
    rewrite pow2_xI. ring.
  - apply IH in R. apply IH in R.
    replace (D * 2 ^ Z.pos p~0) with (D * 2 ^ Z.pos p * 2 ^ Z.pos p); [exact R|].
    rewrite pow2_xO. ring.
  - apply represents_shr_1 in R. now rewrite Z.pow_1_r, Z.mul_comm.
Qed.

Lemma represents_shr (A D : Z) (mrs : shr_record) (e n : Z) :
  represents A D mrs -> 0 <= n ->
  represents A (D * 2 ^ n) (fst (shr mrs e n)) /\ snd (shr mrs e n) = e + n.
Proof.
  intros R Hn. destruct n as [|p|p]; [|split; [now apply represents_iter|reflexivity]|lia].
  cbn. rewrite Z.mul_1_r, Z.add_0_r. now split.
Qed.

(** Round to nearest, ties to even, of [A / D]. *)
Definition rne (A D : Z) : Z :=
  let q := A / D in
  match 2 * (A mod D) ?= D with
  | Lt => q
  | Eq => if Z.even q then q else q + 1
  | Gt => q + 1
  end.

Lemma round_nearest_even_represents (A D : Z) (mrs : shr_record) :
  represents A D mrs ->
  round_nearest_even (shr_m mrs) (loc_of_shr_record mrs) = rne A D.
Proof.
  intros (HD & HA & Hm & Hr & Hs). destruct mrs as [m r s].
  cbn [shr_m shr_r shr_s] in *. unfold rne. rewrite <- Hm.
  pose proof (Z.mod_pos_bound A D HD) as B. set (t := A mod D) in *. clearbody t.
  subst r s.
  destruct (Z.compare_spec (2 * t) D);
    destruct (Z.leb_spec D (2 * t)); destruct (Z.eqb_spec t 0);
    destruct (Z.eqb_spec (2 * t) D); try lia; reflexivity.
Qed.

Lemma rne_bounds (A D : Z) :
  0 < D -> 0 <= A -> A / D <= rne A D <= A / D + 1.
Proof. intros. unfold rne. destruct (_ ?= _); [destruct (Z.even _)| |]; lia. Qed.

(** [rne A D] is within one half of [A / D]. *)
Lemma rne_nearest (A D : Z) :
  0 < D -> 0 <= A -> 2 * Z.abs (rne A D * D - A) <= D.
Proof.
  intros HD HA. unfold rne.
  pose proof (Z.div_mod A D ltac:(lia)) as E.
  pose proof (Z.mod_pos_bound A D HD) as B.
  destruct (Z.compare_spec (2 * (A mod D)) D); [destruct (Z.even _)| |]; nia.
Qed.

Lemma rne_exact (A D k : Z) : 0 < D -> A = k * D -> rne A D = k.
Proof.
  intros HD ->. unfold rne. rewrite Z.div_mul, Z.mod_mul by lia.
  cbn. destruct D; try lia; reflexivity.
Qed.

Lemma digits2_pos_size (p : positive) : digits2_pos p = Pos.size p.
Proof. induction p; cbn; congruence. Qed.

Lemma Zdigits2_bounds (m : Z) :
  0 < m -> 2 ^ (Zdigits2 m - 1) <= m < 2 ^ Zdigits2 m.
Proof.
  intros Hm. destruct m as [|p|p]; try lia. cbn [Zdigits2].
  rewrite digits2_pos_size.
  pose proof (Pos.size_gt p) as G. pose proof (Pos.size_le p) as L.
  assert (E : Z.pos (2 ^ Pos.size p) = 2 ^ Z.pos (Pos.size p)).
  { rewrite Pos2Z.inj_pow. reflexivity. }
  split.
  - assert (2 ^ Z.pos (Pos.size p) = 2 * 2 ^ (Z.pos (Pos.size p) - 1)).
    { rewrite <- Z.pow_succ_r by lia. f_equal. lia. }
    lia.
  - lia.
Qed.

Lemma Zdigits2_nonneg (m : Z) : 0 <= Zdigits2 m.
Proof. destruct m; cbn; lia. Qed.

Lemma Zdigits2_unique (m d : Z) :
  2 ^ (d - 1) <= m < 2 ^ d -> 0 < m -> Zdigits2 m = d.
Proof.
  intros B Hm. pose proof (Zdigits2_bounds m Hm) as B'.
  pose proof (Zdigits2_nonneg m).
  assert (0 <= d).
  { destruct (Z.leb_spec 0 d); [assumption|]. rewrite (Z.pow_neg_r 2 d) in B; lia. }
  destruct (Z.lt_trichotomy (Zdigits2 m) d) as [L|[E|G]]; [|exact E|].
  - assert (2 ^ Zdigits2 m <= 2 ^ (d - 1)) by (apply Z.pow_le_mono_r; lia). lia.
  - assert (2 ^ d <= 2 ^ (Zdigits2 m - 1)) by (apply Z.pow_le_mono_r; lia). lia.
Qed.

(** What [binary_round_aux] computes for the value [(A / D) * 2^ex]: the
    mantissa is rounded at the exponent of the format, and a mantissa that
    reaches [2^53] moves up one exponent. *)
Definition round_spec (s : bool) (A D ex : Z) : number :=
  let e1 := fexp prec emax (Zdigits2 (A / D) + ex) in
  let m2 := rne A (D * 2 ^ (e1 - ex)) in
  let '(m3, e3) := if m2 =? 2 ^ 53 then (2 ^ 52, e1 + 1) else (m2, e1) in
  match m3 with
  | Z.pos p => if e3 <=? 971 then S754_finite s p e3 else S754_infinity s
  | _ => S754_zero s
  end.

Lemma fexp_eq (e : Z) : fexp prec emax e = Z.max (e - 53) (-1074).
Proof. reflexivity. Qed.

Lemma div_pow2_bounds (m d n : Z) :
  0 <= n -> 0 < m -> 2 ^ (d - 1) <= m < 2 ^ d -> n < d ->
  2 ^ (d - n - 1) <= m / 2 ^ n < 2 ^ (d - n).
Proof.
  intros Hn Hm B L.
  assert (P : 0 < 2 ^ n) by (apply Z.pow_pos_nonneg; lia).
  assert (E1 : 2 ^ d = 2 ^ (d - n) * 2 ^ n).
  { rewrite <- Z.pow_add_r by lia. f_equal. lia. }
  assert (E2 : 2 ^ (d - 1) = 2 ^ (d - n - 1) * 2 ^ n).
  { rewrite <- Z.pow_add_r by lia. f_equal. lia. }
  split.
  - apply Z.div_le_lower_bound; lia.
  - apply Z.div_lt_upper_bound; lia.
Qed.

Lemma Zdigits2_le (m k : Z) : 0 <= m <= 2 ^ k -> 0 <= k -> Zdigits2 m <= k + 1.
Proof.
  intros B Hk. destruct (Z.eq_dec m 0) as [->|N]; [cbn; lia|].
  pose proof (Zdigits2_bounds m ltac:(lia)) as B'.
  destruct (Z.le_gt_cases (Zdigits2 m) (k + 1)) as [L|G]; [exact L|].
  assert (2 ^ (k + 1) <= 2 ^ (Zdigits2 m - 1)) by (apply Z.pow_le_mono_r; lia).
  assert (2 ^ k < 2 ^ (k + 1)) by (apply Z.pow_lt_mono_r; lia).
  lia.
Qed.

Lemma binary_round_aux_spec (s : bool) (A D ex : Z) (lx : location) :
  represents A D (shr_record_of_loc (A / D) lx) ->
  ex <= fexp prec emax (Zdigits2 (A / D) + ex) ->
  binary_round_aux prec emax s (A / D) ex lx = round_spec s A D ex.
Proof.
  intros R He.
  assert (HD : 0 < D) by apply R. assert (HA : 0 <= A) by apply R.
  assert (Hm : 0 <= A / D) by (apply Z.div_pos; lia).
  unfold binary_round_aux, round_spec, shr_fexp.
  set (mx := A / D) in *. set (e1 := fexp prec emax (Zdigits2 mx + ex)) in *.
  destruct (represents_shr A D _ ex (e1 - ex) R ltac:(lia)) as [R1 E1].
  destruct (shr (shr_record_of_loc mx lx) ex (e1 - ex)) as [mrs' e'].
  cbn [fst snd] in R1, E1. replace e' with e1 by lia. clear E1 e'.
  rewrite (round_nearest_even_represents _ _ _ R1).
  set (n1 := e1 - ex) in *. set (m2 := rne A (D * 2 ^ n1)).
  assert (Pn : 0 < 2 ^ n1) by (apply Z.pow_pos_nonneg; lia).
  assert (M1 : A / (D * 2 ^ n1) = mx / 2 ^ n1).
  { unfold mx. rewrite Z.div_div; lia. }
  pose proof (rne_bounds A (D * 2 ^ n1) ltac:(nia) HA) as B2. fold m2 in B2.
  rewrite M1 in B2.
  pose proof (Zdigits2_nonneg mx) as Dn0. set (d := Zdigits2 mx) in *.
  assert (Ee : e1 = Z.max (d + ex - 53) (-1074)) by reflexivity.
  assert (M0 : 0 <= mx / 2 ^ n1) by (apply Z.div_pos; lia).
  cbn [shr_record_of_loc].
  destruct (Z.le_gt_cases (-1074) (d + ex - 53)) as [Cn|Cs].
  - (* normal range *)
    assert (Hm' : 0 < mx).
    { destruct (Z.eq_dec mx 0) as [Z0|]; [|lia]. unfold d in *. rewrite Z0 in *.
      cbn in Cn, Ee. lia. }
    pose proof (Zdigits2_bounds mx Hm') as Bd. fold d in Bd.
    assert (N1 : n1 = d - 53) by lia.
    pose proof (div_pow2_bounds mx d n1 ltac:(lia) Hm' Bd ltac:(lia)) as B1.
    replace (d - n1 - 1) with 52 in B1 by lia. replace (d - n1) with 53 in B1 by lia.
    destruct (Z.eqb_spec m2 (2 ^ 53)) as [C|C].
    + rewrite C. replace (fexp prec emax (Zdigits2 (2 ^ 53) + e1) - e1) with 1
        by (change (Zdigits2 (2 ^ 53)) with 54; rewrite fexp_eq; lia).
      cbn [shr iter_pos shr_1 Z.pow Z.pow_pos Pos.iter Z.mul Pos.mul shr_m].
      replace (e1 + 1 <=? emax - prec) with (e1 + 1 <=? 971) by reflexivity.
      reflexivity.
    + assert (Dm : Zdigits2 m2 = 53).
      { apply Zdigits2_unique; [|lia]. replace (53 - 1) with 52 by lia. lia. }
      rewrite Dm. replace (fexp prec emax (53 + e1) - e1) with 0
        by (rewrite fexp_eq; lia).
      cbn [shr shr_m]. destruct m2; try lia; reflexivity.
  - (* subnormal range *)
    assert (N1 : n1 = -1074 - ex) by lia.
    assert (B1 : mx / 2 ^ n1 < 2 ^ 52).
    { destruct (Z.eq_dec mx 0) as [Z0|NZ].
      { rewrite Z0, Z.div_0_l by lia. reflexivity. }
      pose proof (Zdigits2_bounds mx ltac:(lia)) as Bd. fold d in Bd.
      destruct (Z.lt_ge_cases n1 d) as [L|G].
      - pose proof (div_pow2_bounds mx d n1 ltac:(lia) ltac:(lia) Bd L) as B1.
        assert (2 ^ (d - n1) <= 2 ^ 52) by (apply Z.pow_le_mono_r; lia). lia.
      - assert (2 ^ d <= 2 ^ n1) by (apply Z.pow_le_mono_r; lia).
        rewrite Z.div_small by lia. reflexivity. }
    assert (C : m2 <> 2 ^ 53).
    { assert (2 ^ 52 < 2 ^ 53) by reflexivity. lia. }
    destruct (Z.eqb_spec m2 (2 ^ 53)) as [C'|_]; [contradiction|].
    pose proof (Zdigits2_le m2 52 ltac:(lia) ltac:(lia)) as Dl.
    pose proof (Zdigits2_nonneg m2) as Dn.
    replace (fexp prec emax (Zdigits2 m2 + e1) - e1) with 0
      by (rewrite fexp_eq; lia).
    cbn [shr shr_m]. destruct m2; try lia; reflexivity.
Qed.

(** ** Multiplication and the rounding of a ratio *)

Lemma represents_exact (m : Z) : 0 <= m -> represents m 1 (shr_record_of_loc m loc_Exact).
Proof.
  intros Hm. unfold represents. cbn [shr_record_of_loc shr_m shr_r shr_s].
  rewrite Z.div_1_r, Z.mod_1_r. repeat split; try lia; reflexivity.
Qed.

Lemma represents_new_location (a b : Z) :
  0 <= a -> 0 < b ->
  represents a b (shr_record_of_loc (a / b) (new_location b (a mod b))).
Proof.
  intros Ha Hb. pose proof (Z.mod_pos_bound a b Hb) as B.
  set (r := a mod b) in *.
  assert (L : shr_record_of_loc (a / b) (new_location b r) =
              Build_shr_record (a / b) (b <=? 2 * r)
                (negb (r =? 0) && negb (2 * r =? b))).
  { unfold new_location, new_location_even, new_location_odd.
    destruct (Z.even b) eqn:Ev; destruct (Z.eqb_spec r 0) as [Z0|NZ];
      cbn [shr_record_of_loc negb andb].
    - subst r. rewrite Z0. destruct (Z.leb_spec b (2 * 0)); [lia|reflexivity].
    - destruct (Z.compare_spec (2 * r) b); destruct (Z.leb_spec b (2 * r));
        destruct (Z.eqb_spec (2 * r) b); try lia; reflexivity.
    - subst r. rewrite Z0. destruct (Z.leb_spec b (2 * 0)); [lia|reflexivity].
    - assert (2 * r <> b).
      { intros E. rewrite <- E, Z.even_mul in Ev. discriminate. }
      destruct (Z.compare_spec (2 * r + 1) b); destruct (Z.leb_spec b (2 * r));
        destruct (Z.eqb_spec (2 * r) b); try lia; reflexivity. }
  rewrite L. unfold represents. cbn [shr_m shr_r shr_s]. fold r.
  repeat split; try lia; reflexivity.
Qed.

Lemma fexp_mono (a b : Z) : a <= b -> fexp prec emax a <= fexp prec emax b.
Proof. rewrite !fexp_eq. lia. Qed.

Lemma Zdigits2_ge (q k : Z) : 0 <= k -> 2 ^ k <= q -> k + 1 <= Zdigits2 q.
Proof.
  intros Hk L. assert (0 < 2 ^ k) by (apply Z.pow_pos_nonneg; lia).
  pose proof (Zdigits2_bounds q ltac:(lia)) as B.
  destruct (Z.le_gt_cases (k + 1) (Zdigits2 q)) as [G|G]; [exact G|].
  assert (2 ^ Zdigits2 q <= 2 ^ k) by (apply Z.pow_le_mono_r; lia). lia.
Qed.

Lemma Zdigits2_pos (m : Z) : 0 < m -> 0 < Zdigits2 m.
Proof. destruct m; cbn; lia. Qed.

Lemma fmul_finite (sx sy : bool) (mx my : positive) (ex ey : Z) :
  2 ^ 52 <= Z.pos my ->
  fmul (S754_finite sx mx ex) (S754_finite sy my ey) =
  round_spec (xorb sx sy) (Z.pos mx * Z.pos my) 1 (ex + ey).
Proof.
  intros Hy. unfold fmul. cbn [SFmul].
  change (Z.pos (mx * my)) with (Z.pos mx * Z.pos my).
  set (A := Z.pos mx * Z.pos my).
  pose proof (binary_round_aux_spec (xorb sx sy) A 1 (ex + ey) loc_Exact) as S.
  rewrite Z.div_1_r in S. apply S.
  - apply represents_exact. lia.
  - assert (2 ^ 52 <= A) by (unfold A; nia).
    pose proof (Zdigits2_ge A 52 ltac:(lia) ltac:(lia)).
    rewrite fexp_eq. lia.
Qed.

(** The exponent [SFdiv_core_binary] chooses for the quotient of
    [m1 * 2^e1] by [m2 * 2^e2]. *)
Definition quotient_exponent (m1 e1 m2 e2 : Z) : Z :=
  Z.min (fexp prec emax (Zdigits2 m1 + e1 - (Zdigits2 m2 + e2))) (e1 - e2).

Lemma div_eucl_div_mod (a b : Z) : Z.div_eucl a b = (a / b, a mod b).
Proof. unfold Z.div, Z.modulo. destruct (Z.div_eucl a b); reflexivity. Qed.

Lemma quotient_exponent_rounded (m1 e1 m2 e2 : Z) :
  0 < m1 -> 0 < m2 ->
  quotient_exponent m1 e1 m2 e2 <=
  fexp prec emax
    (Zdigits2 (m1 * 2 ^ (e1 - e2 - quotient_exponent m1 e1 m2 e2) / m2) +
     quotient_exponent m1 e1 m2 e2).
Proof.
  intros Ha Hb.
  set (e' := quotient_exponent m1 e1 m2 e2).
  assert (Ee : e' <= e1 - e2) by (unfold e', quotient_exponent; lia).
  remember (e1 - e2 - e') as sh eqn:Es.
  assert (Hs : 0 <= sh) by lia.
  set (A := m1 * 2 ^ sh).
  assert (P : 0 < 2 ^ sh) by (apply Z.pow_pos_nonneg; lia).
  pose proof (Zdigits2_bounds m1 Ha) as Ba. pose proof (Zdigits2_bounds m2 Hb) as Bb.
  pose proof (Zdigits2_pos m1 Ha) as Pa. pose proof (Zdigits2_pos m2 Hb) as Pb.
  set (d1 := Zdigits2 m1) in *. set (d2 := Zdigits2 m2) in *.
  assert (Ed : e' = Z.min (Z.max (d1 + e1 - (d2 + e2) - 53) (-1074)) (e1 - e2))
    by reflexivity.
  assert (LA : 2 ^ (d1 - 1 + sh) <= A).
  { unfold A. rewrite Z.pow_add_r by lia. nia. }
  destruct (Z.le_gt_cases d2 (d1 - 1 + sh)) as [Big|Small].
  + assert (Q : 2 ^ (d1 - 1 + sh - d2) <= A / m2).
    { apply Z.div_le_lower_bound; [lia|].
      assert (E : 2 ^ (d1 - 1 + sh) = 2 ^ d2 * 2 ^ (d1 - 1 + sh - d2)).
      { rewrite <- Z.pow_add_r by lia. f_equal. lia. }
      assert (0 < 2 ^ (d1 - 1 + sh - d2)) by (apply Z.pow_pos_nonneg; lia).
      nia. }
    pose proof (Zdigits2_ge (A / m2) (d1 - 1 + sh - d2) ltac:(lia) Q).
    rewrite fexp_eq. lia.
  + pose proof (Zdigits2_nonneg (A / m2)).
    rewrite fexp_eq. lia.
Qed.

Lemma div_core_round (neg : bool) (m1 e1 m2 e2 : Z) :
  0 < m1 -> 0 < m2 ->
  (let '(q, e, l) := SFdiv_core_binary prec emax m1 e1 m2 e2 in
   binary_round_aux prec emax neg q e l) =
  round_spec neg (m1 * 2 ^ (e1 - e2 - quotient_exponent m1 e1 m2 e2)) m2
    (quotient_exponent m1 e1 m2 e2).
Proof.
  intros Ha Hb. unfold SFdiv_core_binary. fold (quotient_exponent m1 e1 m2 e2).
  set (e' := quotient_exponent m1 e1 m2 e2).
  assert (Ee : e' <= e1 - e2) by (unfold e', quotient_exponent; lia).
  remember (e1 - e2 - e') as sh eqn:Es.
  assert (Hs : 0 <= sh) by lia.
  set (A := m1 * 2 ^ sh).
  assert (P : 0 < 2 ^ sh) by (apply Z.pow_pos_nonneg; lia).
  assert (EA : match sh with
               | Z.pos _ => Z.shiftl m1 sh
               | 0 => m1
               | Z.neg _ => 0
               end = A).
  { unfold A. clear Es P A. destruct sh as [|p|p].
    - rewrite Z.pow_0_r. lia.
    - rewrite Z.shiftl_mul_pow2 by lia. reflexivity.
    - lia. }
  rewrite EA, div_eucl_div_mod.
  apply binary_round_aux_spec.
  - apply represents_new_location; [unfold A; nia|exact Hb].
  - unfold A. rewrite Es. exact (quotient_exponent_rounded m1 e1 m2 e2 Ha Hb).
Qed.

Lemma round_ratio_spec (neg : bool) (a b : Z) :
  0 < a -> 0 < b ->
  round_ratio neg a b =
  round_spec neg (a * 2 ^ (- quotient_exponent a 0 b 0)) b (quotient_exponent a 0 b 0).
Proof.
  intros Ha Hb. unfold round_ratio.
  destruct (Z.eqb_spec a 0); [lia|].
  exact (div_core_round neg a 0 b 0 Ha Hb).
Qed.

Lemma fdiv_finite (sx sy : bool) (mx my : positive) (ex ey : Z) :
  fdiv (S754_finite sx mx ex) (S754_finite sy my ey) =
  round_spec (xorb sx sy)
    (Z.pos mx * 2 ^ (ex - ey - quotient_exponent (Z.pos mx) ex (Z.pos my) ey))
    (Z.pos my) (quotient_exponent (Z.pos mx) ex (Z.pos my) ey).
Proof.
  unfold fdiv. cbn [SFdiv].
  apply (div_core_round (xorb sx sy) (Z.pos mx) ex (Z.pos my) ey); lia.
Qed.

(** ** What a rounding returns *)

Lemma bounded_iff (p : positive) (e : Z) :
  bounded prec emax p e = true <->
  fexp prec emax (Zdigits2 (Z.pos p) + e) = e /\ e <= 971.
Proof.
  unfold bounded, canonical_mantissa. cbn [Zdigits2].
  rewrite andb_true_iff, Z.eqb_eq, Z.leb_le. reflexivity.
Qed.

(** The mantissa before the carry: [rne] at the exponent of the format. *)
Definition rounded_exponent (A D ex : Z) : Z :=
  fexp prec emax (Zdigits2 (A / D) + ex).
Definition rounded_mantissa (A D ex : Z) : Z :=
  rne A (D * 2 ^ (rounded_exponent A D ex - ex)).

Lemma rounded_mantissa_range (A D ex : Z) :
  0 <= A -> 0 < D -> ex <= rounded_exponent A D ex ->
  0 <= rounded_mantissa A D ex <= 2 ^ 53 /\
  (rounded_mantissa A D ex < 2 ^ 52 -> rounded_exponent A D ex = -1074) /\
  (-1074 <= Zdigits2 (A / D) + ex - 53 -> 2 ^ 52 <= rounded_mantissa A D ex).
Proof.
  intros HA HD He. unfold rounded_mantissa, rounded_exponent in *.
  set (mx := A / D) in *. set (e1 := fexp prec emax (Zdigits2 mx + ex)) in *.
  set (n1 := e1 - ex). set (m2 := rne A (D * 2 ^ n1)).
  assert (Hm : 0 <= mx) by (apply Z.div_pos; lia).
  assert (Pn : 0 < 2 ^ n1) by (apply Z.pow_pos_nonneg; lia).
  assert (M1 : A / (D * 2 ^ n1) = mx / 2 ^ n1).
  { unfold mx. rewrite Z.div_div; lia. }
  pose proof (rne_bounds A (D * 2 ^ n1) ltac:(nia) HA) as B2. fold m2 in B2.
  rewrite M1 in B2.
  pose proof (Zdigits2_nonneg mx) as Dn0. set (d := Zdigits2 mx) in *.
  assert (Ee : e1 = Z.max (d + ex - 53) (-1074)) by reflexivity.
  assert (M0 : 0 <= mx / 2 ^ n1) by (apply Z.div_pos; lia).
  assert (P52 : 2 ^ 52 < 2 ^ 53) by reflexivity.
  destruct (Z.le_gt_cases (-1074) (d + ex - 53)) as [Cn|Cs].
  - assert (Hm' : 0 < mx).
    { destruct (Z.eq_dec mx 0) as [Z0|]; [|lia]. unfold d in *. rewrite Z0 in *.
      cbn in Cn, Ee. lia. }
    pose proof (Zdigits2_bounds mx Hm') as Bd. fold d in Bd.
    pose proof (div_pow2_bounds mx d n1 ltac:(lia) Hm' Bd ltac:(lia)) as B1.
    replace (d - n1 - 1) with 52 in B1 by lia. replace (d - n1) with 53 in B1 by lia.
    repeat split; lia.
  - assert (B1 : mx / 2 ^ n1 < 2 ^ 52).
    { destruct (Z.eq_dec mx 0) as [Z0|NZ].
      { rewrite Z0, Z.div_0_l by lia. reflexivity. }
      pose proof (Zdigits2_bounds mx ltac:(lia)) as Bd. fold d in Bd.
      destruct (Z.lt_ge_cases n1 d) as [L|G].
      - pose proof (div_pow2_bounds mx d n1 ltac:(lia) ltac:(lia) Bd L) as B1.
        assert (2 ^ (d - n1) <= 2 ^ 52) by (apply Z.pow_le_mono_r; lia). lia.
      - assert (2 ^ d <= 2 ^ n1) by (apply Z.pow_le_mono_r; lia).
        rewrite Z.div_small by lia. reflexivity. }
    repeat split; lia.
Qed.

Lemma round_spec_unfold (s : bool) (A D ex : Z) :
  round_spec s A D ex =
  let e1 := rounded_exponent A D ex in
  let m2 := rounded_mantissa A D ex in
  let '(m3, e3) := if m2 =? 2 ^ 53 then (2 ^ 52, e1 + 1) else (m2, e1) in
  match m3 with
  | Z.pos p => if e3 <=? 971 then S754_finite s p e3 else S754_infinity s
  | _ => S754_zero s
  end.
Proof. reflexivity. Qed.

(** A finite result is a double: its mantissa is the rounded one up to the
    carry, and it is canonical. *)
Lemma round_spec_finite (s s' : bool) (A D ex : Z) (p : positive) (e : Z) :
  0 <= A -> 0 < D -> ex <= rounded_exponent A D ex ->
  round_spec s A D ex = S754_finite s' p e ->
  s' = s /\
  bounded prec emax p e = true /\
  rounded_exponent A D ex <= e /\
  Z.pos p * 2 ^ (e - rounded_exponent A D ex) = rounded_mantissa A D ex.
Proof.
  intros HA HD He. rewrite round_spec_unfold. cbv zeta.
  destruct (rounded_mantissa_range A D ex HA HD He) as (B & Sub & _).
  set (e1 := rounded_exponent A D ex) in *.
  set (m2 := rounded_mantissa A D ex) in *.
  assert (E1 : -1074 <= e1) by (unfold e1, rounded_exponent; rewrite fexp_eq; lia).
  assert (P52 : 2 ^ 52 < 2 ^ 53) by reflexivity.
  destruct (Z.eqb_spec m2 (2 ^ 53)) as [C|C].
  - change (2 ^ 52) with (Z.pos (2 ^ 52)%positive) at 1. cbv iota.
    destruct (Z.leb_spec (e1 + 1) 971); [|discriminate].
    intros [= <- <- <-]. repeat split; try lia.
    + apply bounded_iff. change (Zdigits2 (Z.pos (2 ^ 52))) with 53.
      rewrite fexp_eq. lia.
    + replace (e1 + 1 - e1) with 1 by lia. rewrite C. reflexivity.
  - destruct m2 as [|q|q] eqn:M; try discriminate.
    destruct (Z.leb_spec e1 971); [|discriminate].
    intros [= <- <- <-]. repeat split; try lia.
    + apply bounded_iff. split; [|lia].
      destruct (Z.lt_ge_cases (Z.pos q) (2 ^ 52)) as [Lt|Ge].
      * rewrite (Sub Lt) in *.
        pose proof (Zdigits2_le (Z.pos q) 52 ltac:(lia) ltac:(lia)).
        pose proof (Zdigits2_nonneg (Z.pos q)).
        rewrite fexp_eq. lia.
      * rewrite (Zdigits2_unique (Z.pos q) 53) by (change (2 ^ (53 - 1)) with (2 ^ 52); lia).
        rewrite fexp_eq. lia.
    + rewrite Z.sub_diag, Z.pow_0_r. lia.
Qed.

(** The sign of a rounding is the sign asked for, and it is no NaN. *)
Lemma round_spec_sign (s : bool) (A D ex : Z) :
  round_spec s A D ex = S754_zero s \/
  round_spec s A D ex = S754_infinity s \/
  exists p e, round_spec s A D ex = S754_finite s p e.
Proof.
  rewrite round_spec_unfold. cbv zeta.
  destruct (if _ =? _ then _ else _) as [m3 e3].
  destruct m3; auto. destruct (e3 <=? 971); eauto.
Qed.

Lemma Zdigits2_shift (m k : Z) : 0 < m -> 0 <= k -> Zdigits2 (m * 2 ^ k) = Zdigits2 m + k.
Proof.
  intros Hm Hk. pose proof (Zdigits2_bounds m Hm) as B.
  pose proof (Zdigits2_pos m Hm) as P.
  assert (0 < 2 ^ k) by (apply Z.pow_pos_nonneg; lia).
  apply Zdigits2_unique; [|nia].
  replace (Zdigits2 m + k - 1) with ((Zdigits2 m - 1) + k) by lia.
  rewrite !Z.pow_add_r by lia. nia.
Qed.

(** A value that is a double rounds to itself. *)
Lemma round_spec_exact (s : bool) (A D ex : Z) (M : positive) (E : Z) :
  0 < D -> ex <= E ->
  A = Z.pos M * 2 ^ (E - ex) * D ->
  bounded prec emax M E = true ->
  round_spec s A D ex = S754_finite s M E.
Proof.
  intros HD He EA Bd. apply bounded_iff in Bd. destruct Bd as [Can Max].
  assert (P : 0 < 2 ^ (E - ex)) by (apply Z.pow_pos_nonneg; lia).
  assert (Q : A / D = Z.pos M * 2 ^ (E - ex)).
  { rewrite EA. apply Z.div_mul. lia. }
  assert (Re : rounded_exponent A D ex = E).
  { unfold rounded_exponent. rewrite Q, Zdigits2_shift by lia.
    replace (Zdigits2 (Z.pos M) + (E - ex) + ex) with (Zdigits2 (Z.pos M) + E) by lia.
    exact Can. }
  assert (Rm : rounded_mantissa A D ex = Z.pos M).
  { unfold rounded_mantissa. rewrite Re. apply rne_exact; [nia|]. rewrite EA. ring. }
  rewrite round_spec_unfold. cbv zeta. rewrite Re, Rm.
  assert (Z.pos M < 2 ^ 53).
  { pose proof (Zdigits2_bounds (Z.pos M) ltac:(lia)) as B.
    rewrite fexp_eq in Can.
    assert (2 ^ Zdigits2 (Z.pos M) <= 2 ^ 53).
    { apply Z.pow_le_mono_r; lia. }
    lia. }
  destruct (Z.eqb_spec (Z.pos M) (2 ^ 53)); [lia|].
  destruct (Z.leb_spec E 971); [reflexivity|lia].
Qed.

Lemma quotient_exponent_le (m1 e1 m2 e2 : Z) :
  quotient_exponent m1 e1 m2 e2 <= e1 - e2.
Proof. unfold quotient_exponent. lia. Qed.

(** The Number value of an integer that is a double is that double. *)
Lemma of_int_exact (m : positive) (e : Z) :
  0 <= e -> bounded prec emax m e = true ->
  of_int (Z.pos m * 2 ^ e) = S754_finite false m e.
Proof.
  intros He Bd. assert (P : 0 < 2 ^ e) by (apply Z.pow_pos_nonneg; lia).
  unfold of_int. destruct (Z.ltb_spec (Z.pos m * 2 ^ e) 0); [nia|].
  rewrite round_ratio_spec by nia.
  pose proof (quotient_exponent_le (Z.pos m * 2 ^ e) 0 1 0) as Q.
  set (q := quotient_exponent _ _ _ _) in *.
  apply round_spec_exact; [lia|lia| |exact Bd].
  replace (e - q) with (e + - q) by lia. rewrite Z.pow_add_r by lia. ring.
Qed.

Lemma hundred_eq : hundred = S754_finite false 7036874417766400 (-46).
Proof. vm_compute. reflexivity. Qed.

(** [n] is the integer nearest to the double [y], not negative; of two
    integers at the same distance it is the larger. *)
Definition nearest_integer (y : number) (n : Z) : Prop :=
  match y with
  | S754_zero _ => n = 0
  | S754_finite false m e =>
    if 0 <=? e then n = Z.pos m * 2 ^ e
    else (2 * n - 1) * 2 ^ (- e) <= 2 * Z.pos m < (2 * n + 1) * 2 ^ (- e)
  | _ => False
  end.

Lemma Math_round_nearest (m : positive) (e : Z) :
  bounded prec emax m e = true ->
  exists n, 0 <= n /\
    nearest_integer (S754_finite false m e) n /\
    Math_round (S754_finite false m e) = of_int n.
Proof.
  intros Bd. unfold Math_round, nearest_integer.
  destruct (Z.leb_spec 0 e) as [He|He].
  - exists (Z.pos m * 2 ^ e).
    assert (0 < 2 ^ e) by (apply Z.pow_pos_nonneg; lia).
    split; [nia|]. split; [reflexivity|]. symmetry. now apply of_int_exact.
  - set (T := 2 ^ (- e)).
    assert (PT : 0 < T) by (apply Z.pow_pos_nonneg; lia).
    assert (ET : 2 ^ (1 - e) = 2 * T).
    { unfold T. replace (1 - e) with (1 + - e) by lia. rewrite Z.pow_add_r by lia.
      reflexivity. }
    rewrite ET. set (n := (2 * Z.pos m + T) / (2 * T)).
    pose proof (Z.div_mod (2 * Z.pos m + T) (2 * T) ltac:(lia)) as E.
    pose proof (Z.mod_pos_bound (2 * Z.pos m + T) (2 * T) ltac:(lia)) as B.
    fold n in E.
    assert (0 <= n) by (apply Z.div_pos; lia).
    exists n. split; [assumption|]. split; [nia|].
    destruct (Z.eqb_spec n 0) as [->|]; reflexivity.
Qed.

Lemma positive_cases (p : number) :
  isNaN p || fle p pos_zero = false ->
  p = pos_inf \/ exists m e, p = S754_finite false m e.
Proof.
  destruct p as [s|[]| |[] m e]; cbn; try discriminate; eauto.
Qed.

Lemma parsePrice_success (s : jsstring) (r : number) :
  parsePrice (Str s) = Num r ->
  isNaN (parseFloat (clean s)) || fle (parseFloat (clean s)) pos_zero = false /\
  r = fdiv (Math_round (fmul (parseFloat (clean s)) hundred)) hundred.
Proof.
  unfold parsePrice. destruct (negb (truthy (Str s))); [discriminate|].
  destruct (isNaN _ || fle _ _); [discriminate|].
  intros [= <-]. split; reflexivity.
Qed.

Lemma times_hundred (m : positive) (e : Z) :
  fmul (S754_finite false m e) hundred =
  round_spec false (Z.pos m * 7036874417766400) 1 (e + -46).
Proof. rewrite hundred_eq. apply (fmul_finite false false); lia. Qed.

Lemma times_hundred_exponent (m : positive) (e : Z) :
  e + -46 <= rounded_exponent (Z.pos m * 7036874417766400) 1 (e + -46).
Proof.
  unfold rounded_exponent. rewrite Z.div_1_r.
  assert (2 ^ 52 <= Z.pos m * 7036874417766400) by lia.
  pose proof (Zdigits2_ge _ 52 ltac:(lia) H). rewrite fexp_eq. lia.
Qed.

Lemma parsePrice_rounds (s : jsstring) (r : number) :
  parsePrice (Str s) = Num r ->
  let y := fmul (parseFloat (clean s)) hundred in
  (y = pos_inf /\ r = pos_inf) \/
  exists n, 0 <= n /\ nearest_integer y n /\ r = fdiv (of_int n) hundred.
Proof.
  intros E. destruct (parsePrice_success s r E) as [Pos ->]. cbv zeta.
  destruct (positive_cases _ Pos) as [-> | (m & e & ->)].
  { left. split; vm_compute; reflexivity. }
  rewrite times_hundred.
  pose proof (times_hundred_exponent m e) as He.
  destruct (round_spec_sign false (Z.pos m * 7036874417766400) 1 (e + -46))
    as [Z0 | [Inf | (q & e' & F)]].
  - right. rewrite Z0. exists 0. split; [lia|]. split; reflexivity.
  - left. rewrite Inf. split; [reflexivity|]. rewrite hundred_eq. reflexivity.
  - right. rewrite F.
    assert (HA : 0 <= Z.pos m * 7036874417766400) by lia.
    destruct (round_spec_finite _ _ _ _ _ q e' HA Z.lt_0_1 He F) as (_ & Bd & _).
    destruct (Math_round_nearest q e' Bd) as (n & Hn & Near & ->).
    exists n. repeat split; assumption.
Qed.


(** ** The real value of a double *)

Definition pow2 (e : Z) : R := powerRZ 2 e.

Lemma pow2_pos (e : Z) : (0 < pow2 e)%R.
Proof. apply powerRZ_lt. lra. Qed.

Lemma pow2_add (a b : Z) : pow2 (a + b) = (pow2 a * pow2 b)%R.
Proof. apply powerRZ_add. lra. Qed.

Lemma pow2_IZR (n : Z) : 0 <= n -> IZR (2 ^ n) = pow2 n.
Proof.
  intros Hn. unfold pow2. rewrite <- (Z2Nat.id n Hn) at 1 2.
  rewrite <- pow_powerRZ, <- pow_IZR. reflexivity.
Qed.

Lemma pow2_sub (a b : Z) : pow2 (a - b) = (pow2 a / pow2 b)%R.
Proof.
  pose proof (pow2_pos b). replace a with ((a - b) + b) at 2 by lia.
  rewrite pow2_add. field. lra.
Qed.

(** The value of a finite double; 0 for the others. *)
Definition F2R (x : number) : R :=
  match x with
  | S754_finite s m e => ((if s then -1 else 1) * IZR (Z.pos m) * pow2 e)%R
  | _ => 0%R
  end.

(** The value [(A / D) * 2^ex] that [round_spec] rounds. *)
Definition exact_value (A D ex : Z) : R := (IZR A / IZR D * pow2 ex)%R.

Lemma round_spec_error (A D ex : Z) (m : positive) (e : Z) :
  0 <= A -> 0 < D -> ex <= rounded_exponent A D ex ->
  round_spec false A D ex = S754_finite false m e ->
  let t := pow2 (rounded_exponent A D ex) in
  let res := (IZR (Z.pos m) * pow2 e)%R in
  (res = IZR (rounded_mantissa A D ex) * t /\
   - (t / 2) <= res - exact_value A D ex <= t / 2)%R.
Proof.
  intros HA HD He F.
  destruct (round_spec_finite _ _ _ _ _ _ _ HA HD He F) as (_ & _ & Le & EM).
  set (e1 := rounded_exponent A D ex) in *. set (M := rounded_mantissa A D ex) in *.
  cbv zeta.
  assert (R1 : (IZR (Z.pos m) * pow2 e = IZR M * pow2 e1)%R).
  { rewrite <- EM, mult_IZR. rewrite (pow2_IZR (e - e1)) by lia.
    replace (pow2 e) with (pow2 ((e - e1) + e1)) by (apply (f_equal pow2); lia).
    rewrite pow2_add. ring. }
  split; [exact R1|]. rewrite R1.
  set (P := D * 2 ^ (e1 - ex)).
  assert (PP : 0 < 2 ^ (e1 - ex)) by (apply Z.pow_pos_nonneg; lia).
  assert (HP : 0 < P) by (unfold P; nia).
  pose proof (rne_nearest A P HP HA) as N.
  assert (EMP : rne A P = M) by reflexivity. rewrite EMP in N.
  assert (N1 : - P <= 2 * (M * P - A) <= P) by lia.
  assert (V : (exact_value A D ex = IZR A / IZR P * pow2 e1)%R).
  { unfold exact_value, P. rewrite mult_IZR, pow2_IZR by lia.
    rewrite pow2_sub. pose proof (pow2_pos e1). pose proof (pow2_pos ex).
    assert (0 < IZR D)%R by (apply IZR_lt; lia). field. lra. }
  rewrite V.
  pose proof (pow2_pos e1) as Tp. set (t := pow2 e1) in *.
  assert (Pp : (0 < IZR P)%R) by (apply IZR_lt; lia).
  destruct N1 as [N1 N2]. apply IZR_le in N1, N2.
  repeat (rewrite mult_IZR in N1 || rewrite minus_IZR in N1 || rewrite opp_IZR in N1).
  repeat (rewrite mult_IZR in N2 || rewrite minus_IZR in N2 || rewrite opp_IZR in N2).
  set (a := IZR A) in *. set (p := IZR P) in *. set (Mq := IZR M) in *.
  assert (Q : (a = a / p * p)%R) by (field; lra).
  set (q := (a / p)%R) in *.
  assert (B : (- (1/2) <= Mq - q <= 1/2)%R).
  { rewrite Q in N1, N2.
    split; apply (Rmult_le_reg_r p); try exact Pp; nra. }
  destruct B as [B1 B2].
  split.
  - apply (Rmult_le_compat_r t) in B1; nra.
  - apply (Rmult_le_compat_r t) in B2; nra.
Qed.

Lemma pow2_le_mono (a b : Z) : a <= b -> (pow2 a <= pow2 b)%R.
Proof.
  intros L. replace b with (a + (b - a)) by lia. rewrite pow2_add.
  rewrite <- (pow2_IZR (b - a)) by lia.
  assert (0 < 2 ^ (b - a)) by (apply Z.pow_pos_nonneg; lia).
  assert (1 <= IZR (2 ^ (b - a)))%R by (apply IZR_le; lia).
  pose proof (pow2_pos a). nra.
Qed.

Lemma pow2_opp (a : Z) : pow2 (- a) = (/ pow2 a)%R.
Proof.
  pose proof (pow2_pos a). replace (- a) with (0 - a) by lia. rewrite pow2_sub.
  change (pow2 0) with 1%R. field. lra.
Qed.

(** The rounded mantissa is within one half of the value in units of the
    last place. *)
Lemma rounded_error (A D ex : Z) :
  0 <= A -> 0 < D -> ex <= rounded_exponent A D ex ->
  let t := pow2 (rounded_exponent A D ex) in
  (- (t / 2) <= IZR (rounded_mantissa A D ex) * t - exact_value A D ex <= t / 2)%R.
Proof.
  intros HA HD He.
  set (e1 := rounded_exponent A D ex) in *. set (M := rounded_mantissa A D ex) in *.
  cbv zeta.
  set (P := D * 2 ^ (e1 - ex)).
  assert (PP : 0 < 2 ^ (e1 - ex)) by (apply Z.pow_pos_nonneg; lia).
  assert (HP : 0 < P) by (unfold P; nia).
  pose proof (rne_nearest A P HP HA) as N.
  assert (EMP : rne A P = M) by reflexivity. rewrite EMP in N.
  assert (N1 : - P <= 2 * (M * P - A) <= P) by lia.
  assert (V : (exact_value A D ex = IZR A / IZR P * pow2 e1)%R).
  { unfold exact_value, P. rewrite mult_IZR, pow2_IZR by lia.
    rewrite pow2_sub. pose proof (pow2_pos e1). pose proof (pow2_pos ex).
    assert (0 < IZR D)%R by (apply IZR_lt; lia). field. lra. }
  rewrite V.
  pose proof (pow2_pos e1) as Tp. set (t := pow2 e1) in *.
  assert (Pp : (0 < IZR P)%R) by (apply IZR_lt; lia).
  destruct N1 as [N1 N2]. apply IZR_le in N1, N2.
  repeat (rewrite mult_IZR in N1 || rewrite minus_IZR in N1 || rewrite opp_IZR in N1).
  repeat (rewrite mult_IZR in N2 || rewrite minus_IZR in N2 || rewrite opp_IZR in N2).
  set (a := IZR A) in *. set (p := IZR P) in *. set (Mq := IZR M) in *.
  assert (Q : (a = a / p * p)%R) by (field; lra).
  set (q := (a / p)%R) in *.
  assert (B : (- (1/2) <= Mq - q <= 1/2)%R).
  { rewrite Q in N1, N2.
    split; apply (Rmult_le_reg_r p); try exact Pp; nra. }
  destruct B as [B1 B2].
  split.
  - apply (Rmult_le_compat_r t) in B1; nra.
  - apply (Rmult_le_compat_r t) in B2; nra.
Qed.

Lemma pow2_m1022 : pow2 (-1022) = (pow2 (-1074) * IZR (2 ^ 52))%R.
Proof. rewrite pow2_IZR by lia. rewrite <- pow2_add. reflexivity. Qed.

(** A value in the normal range is rounded with a relative error of at
    most [2^-53], unless the result overflows. *)
Lemma round_spec_near (A D ex : Z) :
  0 <= A -> 0 < D -> ex <= rounded_exponent A D ex ->
  (pow2 (-1022) <= exact_value A D ex)%R ->
  round_spec false A D ex = S754_infinity false \/
  exists m e,
    round_spec false A D ex = S754_finite false m e /\
    SpecFloat.bounded prec emax m e = true /\
    (- (F2R (S754_finite false m e) / IZR (2 ^ 53))
       <= F2R (S754_finite false m e) - exact_value A D ex
       <= F2R (S754_finite false m e) / IZR (2 ^ 53))%R.
Proof.
  intros HA HD He Hv.
  pose proof (rounded_error A D ex HA HD He) as Er. cbv zeta in Er.
  destruct (rounded_mantissa_range A D ex HA HD He) as (B & Sub & _).
  set (e1 := rounded_exponent A D ex) in *. set (M := rounded_mantissa A D ex) in *.
  pose proof (pow2_pos e1) as Tp.
  assert (Normal : 2 ^ 52 <= M).
  { destruct (Z.le_gt_cases (2 ^ 52) M) as [L|G]; [exact L|exfalso].
    rewrite (Sub G) in *. rewrite pow2_m1022 in Hv.
    assert (IZR M <= IZR (2 ^ 52) - 1)%R.
    { rewrite <- minus_IZR. apply IZR_le. lia. }
    nra. }
  destruct (round_spec_sign false A D ex) as [Z0 | [Inf | (m & e & F)]].
  - exfalso. rewrite round_spec_unfold in Z0. cbv zeta in Z0.
    fold e1 M in Z0. destruct (Z.eqb_spec M (2 ^ 53)) as [C|C].
    + change (2 ^ 52) with (Z.pos (2 ^ 52)%positive) in Z0.
      destruct (e1 + 1 <=? 971); discriminate.
    + destruct M; try lia. destruct (e1 <=? 971); discriminate.
  - now left.
  - right. exists m, e. split; [exact F|].
    destruct (round_spec_finite _ _ _ _ _ _ _ HA HD He F) as (_ & Bd & _ & _).
    split; [exact Bd|].
    destruct (round_spec_error A D ex m e HA HD He F) as [R1 _].
    fold e1 M in R1. unfold F2R. rewrite Rmult_1_l, R1.
    assert (IZR (2 ^ 52) <= IZR M)%R by (apply IZR_le; lia).
    change (IZR (2 ^ 53)) with (2 * IZR (2 ^ 52))%R.
    assert (0 < IZR (2 ^ 52))%R by (apply IZR_lt; lia).
    assert (Hq : (pow2 e1 / 2 <= IZR M * pow2 e1 / (2 * IZR (2 ^ 52)))%R).
    { apply (Rmult_le_reg_r (2 * IZR (2 ^ 52))); [lra|].
      replace (IZR M * pow2 e1 / (2 * IZR (2 ^ 52)) * (2 * IZR (2 ^ 52)))%R
        with (IZR M * pow2 e1)%R by (field; lra).
      nra. }
    lra.
Qed.

(** ** Correct rounding *)

(** [x] is the double nearest to the real [v >= 0]. *)
Definition rounds_to (v : R) (x : number) : Prop :=
  exists A D ex,
    0 <= A /\ 0 < D /\ ex <= rounded_exponent A D ex /\
    exact_value A D ex = v /\ x = round_spec false A D ex.

Lemma rounds_to_cases (v : R) (x : number) :
  rounds_to v x ->
  x = S754_zero false \/ x = pos_inf \/
  exists m e, x = S754_finite false m e /\ SpecFloat.bounded prec emax m e = true.
Proof.
  intros (A & D & ex & HA & HD & He & _ & ->).
  destruct (round_spec_sign false A D ex) as [Z0 | [Inf | (m & e & F)]]; auto.
  right. right. exists m, e. split; [exact F|].
  now destruct (round_spec_finite _ _ _ _ _ _ _ HA HD He F) as (_ & Bd & _).
Qed.

Lemma rounds_to_rel (v : R) (m : positive) (e : Z) :
  rounds_to v (S754_finite false m e) ->
  let r := F2R (S754_finite false m e) in
  (r < pow2 (-1022) \/ - (r / IZR (2 ^ 53)) <= r - v <= r / IZR (2 ^ 53))%R.
Proof.
  intros (A & D & ex & HA & HD & He & <- & F). symmetry in F. cbv zeta.
  destruct (round_spec_error A D ex m e HA HD He F) as [R1 R2].
  destruct (rounded_mantissa_range A D ex HA HD He) as (B & Sub & _).
  set (e1 := rounded_exponent A D ex) in *. set (M := rounded_mantissa A D ex) in *.
  pose proof (pow2_pos e1) as Tp.
  unfold F2R. rewrite Rmult_1_l.
  set (res := (IZR (Z.pos m) * pow2 e)%R) in *.
  destruct (Z.le_gt_cases (2 ^ 52) M) as [L|G].
  - right.
    assert (IZR (2 ^ 52) <= IZR M)%R by (apply IZR_le; lia).
    change (IZR (2 ^ 53)) with (2 * IZR (2 ^ 52))%R.
    assert (0 < IZR (2 ^ 52))%R by (apply IZR_lt; lia).
    assert (Hq : (pow2 e1 / 2 <= res / (2 * IZR (2 ^ 52)))%R).
    { rewrite R1. apply (Rmult_le_reg_r (2 * IZR (2 ^ 52))); [lra|].
      replace (IZR M * pow2 e1 / (2 * IZR (2 ^ 52)) * (2 * IZR (2 ^ 52)))%R
        with (IZR M * pow2 e1)%R by (field; lra).
      nra. }
    lra.
  - left. rewrite R1, (Sub G), pow2_m1022.
    assert (IZR M < IZR (2 ^ 52))%R by (apply IZR_lt; lia).
    pose proof (pow2_pos (-1074)). nra.
Qed.

Lemma rounds_to_near (v : R) (x : number) :
  rounds_to v x -> (pow2 (-1022) <= v)%R ->
  x = pos_inf \/
  exists m e,
    x = S754_finite false m e /\ SpecFloat.bounded prec emax m e = true /\
    (- (F2R x / IZR (2 ^ 53)) <= F2R x - v <= F2R x / IZR (2 ^ 53))%R.
Proof.
  intros (A & D & ex & HA & HD & He & <- & ->) Hv.
  destruct (round_spec_near A D ex HA HD He Hv) as [Inf | (m & e & F & Bd & E)].
  - now left.
  - right. exists m, e. rewrite F. auto.
Qed.

Lemma rounds_to_no_overflow (v : R) (x : number) :
  rounds_to v x -> (v <= pow2 1023)%R -> x <> pos_inf.
Proof.
  intros (A & D & ex & HA & HD & He & <- & ->) Hv Inf.
  pose proof (rounded_error A D ex HA HD He) as Er. cbv zeta in Er.
  destruct (rounded_mantissa_range A D ex HA HD He) as (B & _ & Nrm).
  rewrite round_spec_unfold in Inf. cbv zeta in Inf.
  assert (Ee : rounded_exponent A D ex = Z.max (Zdigits2 (A / D) + ex - 53) (-1074)).
  { unfold rounded_exponent. apply fexp_eq. }
  set (e1 := rounded_exponent A D ex) in *. set (M := rounded_mantissa A D ex) in *.
  assert (Big : 971 <= e1 /\ 2 ^ 52 <= M /\ (e1 = 971 -> M = 2 ^ 53)).
  { destruct (Z.eqb_spec M (2 ^ 53)) as [C|C].
    - change (2 ^ 52) with (Z.pos (2 ^ 52)%positive) in Inf.
      destruct (Z.leb_spec (e1 + 1) 971); [discriminate|].
      split; [lia|]. split; [lia|]. intros _. exact C.
    - destruct M as [|p|p]; try discriminate.
      destruct (Z.leb_spec e1 971); [discriminate|].
      split; [lia|]. split; [apply Nrm; lia|]. lia. }
  destruct Big as (B1 & B2 & B3).
  assert (T : (pow2 971 <= pow2 e1)%R) by (apply pow2_le_mono; lia).
  assert (IZR (2 ^ 52) <= IZR M)%R by (apply IZR_le; lia).
  pose proof (pow2_pos 971).
  assert (P : pow2 1023 = (pow2 971 * IZR (2 ^ 52))%R).
  { rewrite pow2_IZR by lia. rewrite <- pow2_add. reflexivity. }
  rewrite P in Hv.
  destruct (Z.eq_dec e1 971) as [E|E].
  - rewrite (B3 E) in *. rewrite E in *.
    change (IZR (2 ^ 53)) with (2 * IZR (2 ^ 52))%R in Er.
    assert (0 < IZR (2 ^ 52))%R by (apply IZR_lt; lia). nra.
  - assert (T2 : (pow2 972 <= pow2 e1)%R) by (apply pow2_le_mono; lia).
    assert (P2 : pow2 972 = (2 * pow2 971)%R).
    { replace 972 with (971 + 1) by lia. rewrite pow2_add. unfold pow2 at 2. simpl. lra. }
    assert (1 <= IZR (2 ^ 52))%R by (apply IZR_le; lia).
    nra.
Qed.

Lemma exact_value_quotient (m1 e1 m2 e2 q : Z) :
  0 < m2 -> q <= e1 - e2 ->
  exact_value (m1 * 2 ^ (e1 - e2 - q)) m2 q =
  ((IZR m1 * pow2 e1) / (IZR m2 * pow2 e2))%R.
Proof.
  intros Hb Hq. unfold exact_value.
  rewrite mult_IZR, pow2_IZR by lia.
  replace (e1 - e2 - q) with (e1 - (e2 + q)) by lia.
  rewrite pow2_sub, pow2_add.
  pose proof (pow2_pos e2). pose proof (pow2_pos q).
  assert (0 < IZR m2)%R by (apply IZR_lt; lia).
  field. repeat split; lra.
Qed.

Lemma rounds_to_ratio (a b : Z) :
  0 < a -> 0 < b -> rounds_to (IZR a / IZR b) (round_ratio false a b).
Proof.
  intros Ha Hb. rewrite (round_ratio_spec false a b Ha Hb).
  pose proof (quotient_exponent_rounded a 0 b 0 Ha Hb) as Q.
  pose proof (quotient_exponent_le a 0 b 0) as L.
  replace (0 - 0 - quotient_exponent a 0 b 0) with (- quotient_exponent a 0 b 0) in Q by lia.
  eexists _, _, _. split; [|split; [|split; [exact Q|split; [|reflexivity]]]].
  - assert (0 < 2 ^ (- quotient_exponent a 0 b 0)) by (apply Z.pow_pos_nonneg; lia). nia.
  - exact Hb.
  - replace (- quotient_exponent a 0 b 0) with (0 - 0 - quotient_exponent a 0 b 0) by lia.
    rewrite exact_value_quotient by lia.
    change (pow2 0) with 1%R. rewrite !Rmult_1_r. reflexivity.
Qed.

Lemma rounds_to_fdiv (mx my : positive) (ex ey : Z) :
  rounds_to (F2R (S754_finite false mx ex) / F2R (S754_finite false my ey))
    (fdiv (S754_finite false mx ex) (S754_finite false my ey)).
Proof.
  rewrite fdiv_finite. cbn [xorb].
  pose proof (quotient_exponent_rounded (Z.pos mx) ex (Z.pos my) ey ltac:(lia) ltac:(lia)) as Q.
  pose proof (quotient_exponent_le (Z.pos mx) ex (Z.pos my) ey) as L.
  eexists _, _, _. split; [|split; [|split; [exact Q|split; [|reflexivity]]]].
  - assert (0 < 2 ^ (ex - ey - quotient_exponent (Z.pos mx) ex (Z.pos my) ey))
      by (apply Z.pow_pos_nonneg; lia). nia.
  - lia.
  - rewrite exact_value_quotient by lia. unfold F2R. rewrite !Rmult_1_l. reflexivity.
Qed.

Lemma F2R_hundred : F2R hundred = 100%R.
Proof.
  rewrite hundred_eq. unfold F2R. rewrite Rmult_1_l.
  change 7036874417766400 with (100 * 2 ^ 46). rewrite mult_IZR, pow2_IZR by lia.
  rewrite Rmult_assoc, <- pow2_add. change (pow2 (46 + -46)) with 1%R. lra.
Qed.

Lemma rounds_to_times_hundred (m : positive) (e : Z) :
  rounds_to (F2R (S754_finite false m e) * 100)
    (fmul (S754_finite false m e) hundred).
Proof.
  rewrite times_hundred.
  eexists _, _, _.
  split; [|split; [|split; [exact (times_hundred_exponent m e)|split; [|reflexivity]]]].
  - lia.
  - lia.
  - unfold exact_value, F2R. rewrite mult_IZR, Rmult_1_l.
    change 7036874417766400 with (100 * 2 ^ 46). rewrite mult_IZR, pow2_IZR by lia.
    rewrite pow2_add. 
    assert (E : (pow2 46 * pow2 (-46) = 1)%R).
    { rewrite <- pow2_add. reflexivity. }
    replace (IZR (Z.pos m) * (100 * pow2 46) / 1 * (pow2 e * pow2 (-46)))%R
      with (IZR (Z.pos m) * pow2 e * 100 * (pow2 46 * pow2 (-46)))%R by (field).
    rewrite E. lra.
Qed.

Lemma rounds_to_of_int (n : Z) : 0 < n -> rounds_to (IZR n) (of_int n).
Proof.
  intros Hn. unfold of_int. destruct (Z.ltb_spec n 0); [lia|].
  replace (IZR n) with (IZR n / IZR 1)%R by (field).
  apply rounds_to_ratio; lia.
Qed.

Lemma nearest_integer_real (m : positive) (e n : Z) :
  nearest_integer (S754_finite false m e) n ->
  (IZR n - 1 / 2 <= F2R (S754_finite false m e) < IZR n + 1 / 2)%R.
Proof.
  unfold nearest_integer, F2R. rewrite Rmult_1_l.
  destruct (Z.leb_spec 0 e) as [He|He].
  - intros ->. rewrite mult_IZR, pow2_IZR by lia. lra.
  - intros [L U]. apply IZR_le in L. apply IZR_lt in U.
    repeat (rewrite mult_IZR in L || rewrite minus_IZR in L || rewrite plus_IZR in L).
    repeat (rewrite mult_IZR in U || rewrite minus_IZR in U || rewrite plus_IZR in U).
    rewrite pow2_IZR in L, U by lia.
    pose proof (pow2_pos e) as Q. pose proof (pow2_pos (- e)) as P.
    assert (PQ : (pow2 (- e) * pow2 e = 1)%R).
    { rewrite <- pow2_add. replace (- e + e) with 0 by lia. reflexivity. }
    set (p := pow2 (- e)) in *. set (q := pow2 e) in *.
    set (M := IZR (Z.pos m)) in *. set (N := IZR n) in *.
    assert (L' : ((2 * N - 1) * p * q <= 2 * M * q)%R)
      by (apply Rmult_le_compat_r; lra).
    assert (U' : (2 * M * q < (2 * N + 1) * p * q)%R)
      by (apply Rmult_lt_compat_r; lra).
    rewrite Rmult_assoc, PQ in L'. rewrite (Rmult_assoc _ p q), PQ in U'. lra.
Qed.

Lemma nearest_integer_unique (m : positive) (e n n' : Z) :
  nearest_integer (S754_finite false m e) n' ->
  (- (1 / 2) < F2R (S754_finite false m e) - IZR n < 1 / 2)%R ->
  n' = n.
Proof.
  intros H B. apply nearest_integer_real in H.
  assert (L : (IZR n' < IZR (n + 1))%R) by (rewrite plus_IZR; lra).
  assert (U : (IZR n < IZR (n' + 1))%R) by (rewrite plus_IZR; lra).
  apply lt_IZR in L, U. lia.
Qed.

Lemma pow2_m1022_small : (pow2 (-1022) <= / 1024)%R.
Proof.
  replace (/ 1024)%R with (pow2 (-10)).
  - apply pow2_le_mono. lia.
  - unfold pow2. simpl. lra.
Qed.

Lemma pow2_1023_large : (1152921504606846976 <= pow2 1023)%R.
Proof.
  change 1152921504606846976%R with (IZR (2 ^ 60)). rewrite pow2_IZR by lia.
  apply pow2_le_mono. lia.
Qed.

Ltac literal_2_53 := change (2 ^ 53) with 9007199254740992 in *.

(** The result [r] of dividing an integer [n] of cents by 100 gives [n]
    back when it is multiplied by 100 and rounded, up to 10^15 cents. *)
Lemma cents_round_trip (n : Z) :
  1 <= n <= 10 ^ 15 ->
  exists m e,
    fdiv (of_int n) hundred = S754_finite false m e /\
    SpecFloat.bounded prec emax m e = true /\
    Math_round (fmul (S754_finite false m e) hundred) = of_int n /\
    (IZR n / 101 <= F2R (S754_finite false m e) <= IZR n / 99)%R.
Proof.
  intros [Ln Un].
  assert (N1 : (1 <= IZR n)%R) by (apply IZR_le; lia).
  assert (N2 : (IZR n <= 1000000000000000)%R) by (apply IZR_le; lia).
  pose proof pow2_m1022_small as S. pose proof pow2_1023_large as B.
  (* the integer *)
  pose proof (rounds_to_of_int n ltac:(lia)) as Ra.
  destruct (rounds_to_near _ _ Ra ltac:(lra)) as [Inf | (ma & ea & Ea & Ba & Va)].
  { exfalso. exact (rounds_to_no_overflow _ _ Ra ltac:(lra) Inf). }
  rewrite Ea in *. clear Ra. set (a := F2R (S754_finite false ma ea)) in *.
  literal_2_53.
  (* the quotient *)
  pose proof (rounds_to_fdiv ma 7036874417766400 ea (-46)) as Rr.
  rewrite <- hundred_eq in Rr. rewrite F2R_hundred in Rr. fold a in Rr.
  destruct (rounds_to_near _ _ Rr ltac:(lra)) as [Inf | (mr & er & Er & Br & Vr)].
  { exfalso. exact (rounds_to_no_overflow _ _ Rr ltac:(lra) Inf). }
  rewrite Er in *. clear Rr. set (r := F2R (S754_finite false mr er)) in *.
  literal_2_53.
  exists mr, er. split; [reflexivity|]. split; [exact Br|].
  (* the product *)
  pose proof (rounds_to_times_hundred mr er) as Ry. fold r in Ry.
  destruct (rounds_to_near _ _ Ry ltac:(lra)) as [Inf | (my & ey & Ey & By & Vy)].
  { exfalso. exact (rounds_to_no_overflow _ _ Ry ltac:(lra) Inf). }
  rewrite Ey in *. clear Ry. set (y := F2R (S754_finite false my ey)) in *.
  literal_2_53.
  split; [|fold r; lra].
  destruct (Math_round_nearest my ey By) as (n' & _ & Hn' & ->).
  rewrite <- Ea. f_equal. apply (nearest_integer_unique my ey n n' Hn'). fold y. lra.
Qed.

(** [<=] on positive doubles is [<=] on their values. *)
Lemma fle_real (m1 m2 : positive) (e1 e2 : Z) :
  SpecFloat.bounded prec emax m1 e1 = true ->
  SpecFloat.bounded prec emax m2 e2 = true ->
  fle (S754_finite false m1 e1) (S754_finite false m2 e2) = true ->
  (F2R (S754_finite false m1 e1) <= F2R (S754_finite false m2 e2))%R.
Proof.
  intros B1 B2. apply bounded_iff in B1, B2.
  destruct B1 as [C1 _], B2 as [C2 _]. rewrite fexp_eq in C1, C2.
  pose proof (Zdigits2_bounds (Z.pos m1) ltac:(lia)) as D1.
  pose proof (Zdigits2_bounds (Z.pos m2) ltac:(lia)) as D2.
  unfold fle, SFleb, SFcompare, F2R. rewrite !Rmult_1_l.
  destruct (Z.compare_spec e1 e2) as [E|L|G]; [| |discriminate].
  - subst e2. intros H.
    assert (Z.pos m1 <= Z.pos m2).
    { change (Pos.compare_cont Eq m1 m2) with (Pos.compare m1 m2) in H.
      destruct (Pos.compare_spec m1 m2); try discriminate; lia. }
    pose proof (pow2_pos e1). assert (IZR (Z.pos m1) <= IZR (Z.pos m2))%R by (apply IZR_le; lia).
    nra.
  - intros _.
    assert (N2 : Zdigits2 (Z.pos m2) = 53) by lia.
    assert (N1 : Zdigits2 (Z.pos m1) <= 53) by lia.
    rewrite N2 in D2.
    assert (U1 : Z.pos m1 < 2 ^ 53).
    { eapply Z.lt_le_trans; [apply D1|]. apply Z.pow_le_mono_r; lia. }
    assert (P : (pow2 (e1 + 1) <= pow2 e2)%R) by (apply pow2_le_mono; lia).
    rewrite pow2_add in P. replace (pow2 1) with 2%R in P by (unfold pow2; simpl; lra).
    pose proof (pow2_pos e1).
    assert (IZR (Z.pos m1) < IZR (2 ^ 53))%R by (apply IZR_lt; lia).
    assert (IZR (2 ^ 52) <= IZR (Z.pos m2))%R by (apply IZR_le; lia).
    change (IZR (2 ^ 53)) with (2 * IZR (2 ^ 52))%R in *.
    assert (0 < IZR (2 ^ 52))%R by (apply IZR_lt; lia).
    nra.
Qed.

Definition PRICE_BOUND : number := dbl 1e13.

Lemma PRICE_BOUND_eq : PRICE_BOUND = S754_finite false 5120000000000000 (-9).
Proof. vm_compute. reflexivity. Qed.

Lemma F2R_PRICE_BOUND : F2R PRICE_BOUND = 10000000000000%R.
Proof.
  rewrite PRICE_BOUND_eq. unfold F2R. rewrite Rmult_1_l.
  change 5120000000000000 with (10000000000000 * 2 ^ 9). rewrite mult_IZR, pow2_IZR by lia.
  rewrite Rmult_assoc, <- pow2_add. change (pow2 (9 + -9)) with 1%R. lra.
Qed.

Lemma cents_bound (n : Z) :
  1 <= n ->
  fle (fdiv (of_int n) hundred) PRICE_BOUND = true ->
  n <= 10 ^ 15.
Proof.
  intros Ln H.
  assert (N1 : (1 <= IZR n)%R) by (apply IZR_le; lia).
  pose proof pow2_m1022_small as S.
  pose proof (rounds_to_of_int n ltac:(lia)) as Ra.
  destruct (rounds_to_near _ _ Ra ltac:(lra)) as [Inf | (ma & ea & Ea & Ba & Va)].
  { rewrite Inf in H. vm_compute in H. discriminate. }
  rewrite Ea in *. clear Ra. set (a := F2R (S754_finite false ma ea)) in *.
  literal_2_53.
  pose proof (rounds_to_fdiv ma 7036874417766400 ea (-46)) as Rr.
  rewrite <- hundred_eq in Rr. rewrite F2R_hundred in Rr. fold a in Rr.
  destruct (rounds_to_near _ _ Rr ltac:(lra)) as [Inf | (mr & er & Er & Br & Vr)].
  { rewrite Inf in H. vm_compute in H. discriminate. }
  rewrite Er in *. clear Rr. set (r := F2R (S754_finite false mr er)) in *.
  literal_2_53.
  rewrite PRICE_BOUND_eq in H.
  apply fle_real in H; [|exact Br|vm_compute; reflexivity].
  rewrite <- PRICE_BOUND_eq, F2R_PRICE_BOUND in H. fold r in H.
  destruct (Z.le_gt_cases n (10 ^ 15)) as [L|G]; [exact L|exfalso].
  assert (IZR (10 ^ 15 + 1) <= IZR n)%R by (apply IZR_le; lia).
  change (IZR (10 ^ 15 + 1)) with 1000000000000001%R in *.
  lra.
Qed.

(** ** Numerals without exponent *)

(** A digit or the dot. *)
Definition plain (c : Z) : bool := is_digit c || (c =? DOT).

Lemma plain_cases (c : Z) :
  plain c = true ->
  c = 46 \/ c = 48 \/ c = 49 \/ c = 50 \/ c = 51 \/ c = 52 \/ c = 53 \/
  c = 54 \/ c = 55 \/ c = 56 \/ c = 57.
Proof.
  unfold plain, is_digit, DOT. intros H.
  apply orb_true_iff in H. destruct H as [H|H].
  - apply andb_true_iff in H. destruct H as [L U].
    apply Z.leb_le in L, U. lia.
  - apply Z.eqb_eq in H. lia.
Qed.

Ltac plain_char H :=
  apply plain_cases in H;
  repeat (destruct H as [H|H]; [subst; reflexivity|]); subst; reflexivity.

Lemma plain_not_space (c : Z) : plain c = true -> is_space c = false.
Proof. intros H. plain_char H. Qed.

Lemma plain_not_glyph (c : Z) : plain c = true -> is_currency_glyph c = false.
Proof. intros H. plain_char H. Qed.

Lemma plain_not_comma (c : Z) : plain c = true -> (COMMA =? c) = false.
Proof. intros H. plain_char H. Qed.

Lemma digit_plain (c : Z) : is_digit c = true -> plain c = true.
Proof. unfold plain. intros ->. reflexivity. Qed.

Lemma filter_all (f : Z -> bool) (l : jsstring) :
  Forall (fun c => f c = true) l -> filter f l = l.
Proof.
  induction 1 as [|c l Hc _ IH]; [reflexivity|].
  cbn [filter]. rewrite Hc, IH. reflexivity.
Qed.

Lemma remove_first_none (p : Z -> bool) (l : jsstring) :
  Forall (fun c => p c = false) l -> remove_first p l = l.
Proof.
  induction 1 as [|c l Hc _ IH]; [reflexivity|].
  cbn [remove_first]. rewrite Hc, IH. reflexivity.
Qed.

Lemma trim_start_none (l : jsstring) :
  Forall (fun c => is_space c = false) l -> trim_start l = l.
Proof. destruct 1 as [|c l Hc _]; [reflexivity|]. cbn [trim_start]. now rewrite Hc. Qed.

Lemma trim_none (l : jsstring) :
  Forall (fun c => is_space c = false) l -> trim l = l.
Proof.
  intros H. unfold trim. rewrite (trim_start_none l H).
  rewrite trim_start_none; [apply rev_involutive|].
  apply Forall_rev. exact H.
Qed.

(** The four replacements and the trim of [parsePrice] leave a string of
    digits and dots as it is. *)
Lemma clean_plain (l : jsstring) :
  Forall (fun c => plain c = true) l -> clean l = l.
Proof.
  intros H. unfold clean, remove_all.
  rewrite remove_first_none
    by (eapply Forall_impl; [|exact H]; apply plain_not_glyph).
  rewrite (filter_all (fun c => negb (COMMA =? c)))
    by (eapply Forall_impl; [|exact H]; intros c Hc; cbv beta;
        now rewrite plain_not_comma).
  rewrite (filter_all (fun c => negb (is_space c)))
    by (eapply Forall_impl; [|exact H]; intros c Hc; cbv beta;
        now rewrite plain_not_space).
  rewrite trim_none
    by (eapply Forall_impl; [|exact H]; apply plain_not_space).
  apply filter_all. eapply Forall_impl; [|exact H].
  intros c Hc. cbv beta. fold (plain c). now rewrite Hc.
Qed.

(** ** The digits of an integer *)

Lemma digits_value_app (a : Z) (l1 l2 : jsstring) :
  digits_value a (l1 ++ l2) = digits_value (digits_value a l1) l2.
Proof. revert a. induction l1 as [|c l1 IH]; intros a; [reflexivity|]. cbn. apply IH. Qed.

Lemma digits_of_acc (fuel : nat) : forall n acc,
  digits_of fuel n acc = digits_of fuel n [] ++ acc.
Proof.
  induction fuel as [|fuel IH]; intros n acc; [reflexivity|].
  cbn [digits_of]. destruct (n <? 10); [reflexivity|].
  rewrite IH, (IH _ [_]), <- app_assoc. reflexivity.
Qed.

Lemma digits_of_step (fuel : nat) (n : Z) :
  10 <= n ->
  digits_of (S fuel) n [] = digits_of fuel (n / 10) [] ++ [48 + n mod 10].
Proof.
  intros Hn. cbn [digits_of]. destruct (Z.ltb_spec n 10); [lia|].
  apply digits_of_acc.
Qed.

Lemma digits_of_small (fuel : nat) (n : Z) :
  n < 10 -> digits_of (S fuel) n [] = [48 + n].
Proof. intros Hn. cbn [digits_of]. destruct (Z.ltb_spec n 10); [reflexivity|lia]. Qed.

Lemma digits_of_spec (fuel : nat) : forall n,
  0 <= n < 10 ^ Z.of_nat fuel ->
  let ds := digits_of fuel n [] in
  Forall (fun c => is_digit c = true) ds /\
  digits_value 0 ds = n /\
  (0 < n -> 10 ^ (Z.of_nat (List.length ds) - 1) <= n < 10 ^ Z.of_nat (List.length ds)).
Proof.
  induction fuel as [|fuel IH]; intros n Hn; cbv zeta.
  - change (10 ^ Z.of_nat 0) with 1 in Hn.
    assert (n = 0) by lia. subst n. cbn. split; [constructor|]. split; [reflexivity|lia].
  - destruct (Z.lt_ge_cases n 10) as [S|B].
    + rewrite digits_of_small by exact S. split; [|split].
      * constructor; [|constructor]. unfold is_digit.
        apply andb_true_iff. split; apply Z.leb_le; lia.
      * cbn [digits_value]. unfold digit_val. lia.
      * intros P. change (Z.of_nat (List.length [48 + n])) with 1.
        change (10 ^ (1 - 1)) with 1. change (10 ^ 1) with 10. lia.
    + rewrite digits_of_step by lia.
      assert (Hq : 0 <= n / 10 < 10 ^ Z.of_nat fuel).
      { split; [apply Z.div_pos; lia|].
        apply Z.div_lt_upper_bound; [lia|].
        rewrite Nat2Z.inj_succ, Z.pow_succ_r in Hn by lia. lia. }
      destruct (IH (n / 10) Hq) as (F & V & L). cbv zeta in *.
      pose proof (Z.mod_pos_bound n 10 ltac:(lia)) as M.
      pose proof (Z.div_mod n 10 ltac:(lia)) as DM.
      split; [|split].
      * apply Forall_app. split; [exact F|].
        constructor; [|constructor]. unfold is_digit.
        apply andb_true_iff. split; apply Z.leb_le; lia.
      * rewrite digits_value_app, V. cbn [digits_value]. unfold digit_val. lia.
      * intros _. rewrite length_app. cbn [List.length].
        assert (Q : 0 < n / 10) by (apply Z.div_str_pos; lia).
        specialize (L Q).
        set (len := Z.of_nat (List.length (digits_of fuel (n / 10) []))) in *.
        assert (Hlen : 1 <= len).
        { destruct (Z.le_gt_cases 1 len); [assumption|].
          assert (len = 0) by lia. replace len with 0 in L. cbn in L. lia. }
        replace (Z.of_nat (List.length (digits_of fuel (n / 10) []) + 1)) with (len + 1) by lia.
        replace (len + 1 - 1) with ((len - 1) + 1) by lia.
        rewrite !Z.pow_add_r by lia. change (10 ^ 1) with 10. lia.
Qed.

Lemma log2_fuel (n : Z) : 0 < n -> n < 10 ^ Z.of_nat (S (Z.to_nat (Z.log2 n))).
Proof.
  intros Hn. pose proof (Z.log2_nonneg n) as L.
  rewrite Nat2Z.inj_succ, Z2Nat.id by lia.
  pose proof (Z.log2_spec n Hn) as [_ U].
  eapply Z.lt_le_trans; [exact U|].
  apply Z.pow_le_mono_l. lia.
Qed.

Lemma decimal_digits_spec (n : Z) :
  0 < n ->
  Forall (fun c => is_digit c = true) (decimal_digits n) /\
  digits_value 0 (decimal_digits n) = n /\
  10 ^ (num_digits n - 1) <= n < 10 ^ num_digits n.
Proof.
  intros Hn. unfold num_digits, decimal_digits.
  destruct (digits_of_spec _ n (conj (Z.lt_le_incl _ _ Hn) (log2_fuel n Hn)))
    as (F & V & L).
  auto.
Qed.

Lemma pow10_unique (n k1 k2 : Z) :
  10 ^ (k1 - 1) <= n < 10 ^ k1 -> 10 ^ (k2 - 1) <= n < 10 ^ k2 ->
  0 < n -> k1 = k2.
Proof.
  intros [L1 U1] [L2 U2] Hn.
  assert (P1 : 0 < k1).
  { destruct (Z.lt_ge_cases 0 k1); [assumption|].
    assert (10 ^ k1 <= 10 ^ 0) by (destruct (Z.eq_dec k1 0) as [->|]; [lia|rewrite Z.pow_neg_r by lia; cbn; lia]).
    cbn in *. lia. }
  assert (P2 : 0 < k2).
  { destruct (Z.lt_ge_cases 0 k2); [assumption|].
    assert (10 ^ k2 <= 10 ^ 0) by (destruct (Z.eq_dec k2 0) as [->|]; [lia|rewrite Z.pow_neg_r by lia; cbn; lia]).
    cbn in *. lia. }
  destruct (Z.lt_trichotomy k1 k2) as [C|[C|C]]; [|exact C|].
  - assert (10 ^ k1 <= 10 ^ (k2 - 1)) by (apply Z.pow_le_mono_r; lia). lia.
  - assert (10 ^ k2 <= 10 ^ (k1 - 1)) by (apply Z.pow_le_mono_r; lia). lia.
Qed.

Lemma num_digits_unique (n k : Z) :
  10 ^ (k - 1) <= n < 10 ^ k -> 0 < n -> num_digits n = k.
Proof.
  intros B Hn. destruct (decimal_digits_spec n Hn) as (_ & _ & L).
  exact (pow10_unique n _ _ L B Hn).
Qed.

(** ** Reading a numeral without exponent *)

Definition all_digits (ds : jsstring) : Prop := Forall (fun c => is_digit c = true) ds.

Lemma span_digits_all (ds : jsstring) :
  all_digits ds -> span_digits ds = (ds, []).
Proof.
  induction 1 as [|c l Hc _ IH]; [reflexivity|].
  cbn [span_digits]. rewrite Hc, IH. reflexivity.
Qed.

Lemma span_digits_dot (ds rest : jsstring) :
  all_digits ds -> span_digits (ds ++ DOT :: rest) = (ds, DOT :: rest).
Proof.
  induction 1 as [|c l Hc _ IH]; [reflexivity|].
  cbn [span_digits app]. rewrite Hc, IH. reflexivity.
Qed.

Lemma unsigned_decimal_integer (ds : jsstring) :
  all_digits ds -> ds <> [] ->
  unsigned_decimal ds = Some (digits_value 0 ds, 0).
Proof.
  intros H N. unfold unsigned_decimal. rewrite (span_digits_all ds H).
  destruct ds; [contradiction|reflexivity].
Qed.

Lemma unsigned_decimal_fraction (ip fp : jsstring) :
  all_digits ip -> all_digits fp -> ip <> [] ->
  unsigned_decimal (ip ++ DOT :: fp) =
  Some (digits_value 0 (ip ++ fp), - Z.of_nat (List.length fp)).
Proof.
  intros Hi Hf N. unfold unsigned_decimal.
  rewrite (span_digits_dot ip fp Hi). rewrite Z.eqb_refl.
  rewrite (span_digits_all fp Hf).
  destruct ip; [contradiction|]. reflexivity.
Qed.

Lemma INFINITY_WORD_eq : INFINITY_WORD = [73; 110; 102; 105; 110; 105; 116; 121].
Proof. vm_compute. reflexivity. Qed.

Lemma digit_range (c : Z) : is_digit c = true -> 48 <= c <= 57.
Proof.
  unfold is_digit. intros H. apply andb_true_iff in H. destruct H as [L U].
  apply Z.leb_le in L, U. lia.
Qed.

(** A string that starts with a digit is read as an unsigned numeral. *)
Lemma parseFloat_digit (c : Z) (r : jsstring) :
  is_digit c = true ->
  parseFloat (c :: r) =
  match unsigned_decimal (c :: r) with
  | Some (m, x) => of_decimal false m x
  | None => NaN_
  end.
Proof.
  intros H. pose proof (digit_range c H) as R.
  unfold parseFloat. cbn [trim_start].
  rewrite (plain_not_space c (digit_plain c H)).
  destruct (Z.eqb_spec c 45); [lia|]. destruct (Z.eqb_spec c 43); [lia|].
  unfold unsigned_literal. rewrite INFINITY_WORD_eq. cbn [starts_with].
  destruct (Z.eqb_spec 73 c); [lia|]. reflexivity.
Qed.

Lemma digits_value_zeros (z : nat) (a : Z) :
  digits_value a (repeat 48 z) = a * 10 ^ Z.of_nat z.
Proof.
  revert a. induction z as [|z IH]; intros a.
  - cbn [repeat digits_value]. change (10 ^ Z.of_nat 0) with 1. lia.
  - cbn [repeat digits_value]. rewrite IH. unfold digit_val.
    rewrite Nat2Z.inj_succ, Z.pow_succ_r by lia. lia.
Qed.

Lemma zeros_digits (z : Z) : all_digits (zeros z).
Proof.
  unfold zeros, all_digits. apply Forall_forall. intros c Hc.
  apply repeat_spec in Hc. subst c. reflexivity.
Qed.

Lemma all_digits_plain (ds : jsstring) :
  all_digits ds -> Forall (fun c => plain c = true) ds.
Proof. intros H. eapply Forall_impl; [|exact H]. apply digit_plain. Qed.

(** The layouts of [Number::toString] without exponent are read back by
    [parseFloat] as the numeral they show. *)
Lemma layout_parse (s n k : Z) :
  0 < s -> 10 ^ (k - 1) <= s < 10 ^ k -> -6 < n <= 21 ->
  parseFloat (layout s n k) = of_decimal false s (n - k) /\
  Forall (fun c => plain c = true) (layout s n k) /\
  layout s n k <> [].
Proof.
  intros Hs Hk Hn.
  destruct (decimal_digits_spec s Hs) as (D & V & L).
  pose proof (num_digits_unique s k Hk Hs) as Len. unfold num_digits in Len.
  clear L.
  assert (K : 1 <= k).
  { destruct (decimal_digits s); [cbn in V; lia|]. cbn [List.length] in Len. lia. }
  unfold layout. set (ds := decimal_digits s) in *.
  destruct (Z.leb_spec k n) as [C1|C1]; [destruct (Z.leb_spec n 21); [|lia]|];
    cbn [andb].
  - (* digits and zeros *)
    assert (A : all_digits (ds ++ zeros (n - k))).
    { apply Forall_app. split; [exact D|apply zeros_digits]. }
    assert (N : ds ++ zeros (n - k) <> []).
    { destruct ds; [cbn in Len; lia|discriminate]. }
    split; [|split; [apply all_digits_plain; exact A|exact N]].
    destruct (ds ++ zeros (n - k)) as [|c r] eqn:E; [contradiction|].
    rewrite parseFloat_digit by (inversion A; assumption).
    rewrite unsigned_decimal_integer by assumption.
    rewrite <- E, digits_value_app, V. unfold zeros. rewrite digits_value_zeros.
    rewrite Z2Nat.id by lia.
    unfold of_decimal. cbn [Z.leb Z.compare].
    destruct (Z.leb_spec 0 (n - k)); [|lia].
    change (10 ^ 0) with 1. rewrite Z.mul_1_r. reflexivity.
  - destruct (Z.ltb_spec 0 n) as [C2|C2]; [destruct (Z.leb_spec n 21); [|lia]|];
      cbn [andb].
    + (* a dot inside the digits *)
      set (ip := firstn (Z.to_nat n) ds). set (fp := skipn (Z.to_nat n) ds).
      assert (Eds : ip ++ fp = ds) by apply firstn_skipn.
      assert (Hi : all_digits ip /\ all_digits fp).
      { apply Forall_app. rewrite Eds. exact D. }
      destruct Hi as [Hi Hf].
      assert (Li : List.length ip = Z.to_nat n).
      { unfold ip. rewrite length_firstn. lia. }
      assert (Lf : Z.of_nat (List.length fp) = k - n).
      { unfold fp. rewrite length_skipn. lia. }
      assert (Ni : ip <> []).
      { intros E. rewrite E in Li. cbn in Li. lia. }
      split; [|split].
      * cbn [app]. destruct ip as [|c r] eqn:E; [contradiction|].
        cbn [app]. rewrite parseFloat_digit by (inversion Hi; assumption).
        change (c :: r ++ DOT :: fp) with ((c :: r) ++ DOT :: fp).
        rewrite unsigned_decimal_fraction by assumption.
        rewrite Eds, V, Lf. f_equal. lia.
      * apply Forall_app. split; [apply all_digits_plain; exact Hi|].
        cbn [app]. constructor; [reflexivity|apply all_digits_plain; exact Hf].
      * destruct ip; [contradiction|discriminate].
    + (* zeros after the dot *)
      destruct (Z.ltb_spec (-6) n); [|lia]. destruct (Z.leb_spec n 0); [|lia].
      cbn [andb app].
      assert (A : all_digits (zeros (- n) ++ ds)).
      { apply Forall_app. split; [apply zeros_digits|exact D]. }
      split; [|split; [|discriminate]].
      * rewrite parseFloat_digit by reflexivity.
        change (48 :: DOT :: zeros (- n) ++ ds) with ([48] ++ DOT :: (zeros (- n) ++ ds)).
        rewrite unsigned_decimal_fraction; [|repeat constructor|exact A|discriminate].
        cbn [app]. cbn [digits_value]. rewrite digits_value_app.
        unfold zeros at 1. rewrite digits_value_zeros.
        change (10 * 0 + digit_val 48) with 0. rewrite Z.mul_0_l, V.
        rewrite length_app. unfold zeros. rewrite repeat_length.
        f_equal. lia.
      * constructor; [reflexivity|]. constructor; [reflexivity|].
        apply all_digits_plain. exact A.
Qed.

(** ** The digits of [Number::toString] *)

(** The value of the numeral [s * 10^x]. *)
Definition decimal_value (s x : Z) : R :=
  if 0 <=? x then IZR (s * 10 ^ x) else (IZR s / IZR (10 ^ (- x)))%R.

Lemma of_decimal_rounds (s x : Z) :
  0 < s -> rounds_to (decimal_value s x) (of_decimal false s x).
Proof.
  intros Hs. unfold decimal_value, of_decimal.
  destruct (Z.leb_spec 0 x) as [Hx|Hx].
  - assert (0 < 10 ^ x) by (apply Z.pow_pos_nonneg; lia).
    replace (IZR (s * 10 ^ x)) with (IZR (s * 10 ^ x) / IZR 1)%R by field.
    apply rounds_to_ratio; nia.
  - assert (0 < 10 ^ (- x)) by (apply Z.pow_pos_nonneg; lia).
    apply rounds_to_ratio; lia.
Qed.

Lemma candidate_ok_spec (sg : bool) (m : positive) (e s n k : Z) :
  candidate_ok (S754_finite sg m e) s n k = true ->
  0 < s /\ 10 ^ (k - 1) <= s < 10 ^ k /\
  of_decimal false s (n - k) = S754_finite false m e.
Proof.
  unfold candidate_ok. intros H.
  apply andb_true_iff in H. destruct H as [H O].
  apply andb_true_iff in H. destruct H as [L U].
  apply Z.leb_le in L. apply Z.ltb_lt in U.
  assert (P : 0 <= 10 ^ (k - 1)) by (apply Z.pow_nonneg; lia).
  assert (Hs : 0 < s).
  { destruct (Z.eq_dec s 0) as [->|]; [|lia].
    unfold of_decimal, round_ratio in O. rewrite Z.mul_0_l in O.
    destruct (0 <=? n - k); cbn in O; discriminate. }
  split; [exact Hs|]. split; [lia|].
  destruct (rounds_to_cases _ _ (of_decimal_rounds s (n - k) Hs))
    as [Z0 | [Inf | (m' & e' & F & _)]].
  - rewrite Z0 in O. discriminate.
  - rewrite Inf in O. discriminate.
  - rewrite F in *. apply andb_true_iff in O. destruct O as [Em Ee].
    apply Z.eqb_eq in Em, Ee. congruence.
Qed.

Lemma shortest_at_ok (x : number) (a b n0 k s n : Z) :
  shortest_at x a b n0 k = Some (s, n) -> candidate_ok x s n k = true.
Proof.
  unfold shortest_at. destruct (scale10 a b (k - n0)) as [p q].
  cbv zeta. destruct (p / q + 1 =? 10 ^ k).
  - destruct (candidate_ok x (p / q) n0 k) eqn:Lo;
      destruct (candidate_ok x (10 ^ (k - 1)) (n0 + 1) k) eqn:Hi; cbn [andb].
    + destruct (2 * (p mod q) <=? q); intros [= <- <-]; assumption.
    + intros [= <- <-]; assumption.
    + intros [= <- <-]; assumption.
    + discriminate.
  - destruct (candidate_ok x (p / q) n0 k) eqn:Lo;
      destruct (candidate_ok x (p / q + 1) n0 k) eqn:Hi; cbn [andb].
    + destruct (2 * (p mod q) <=? q); intros [= <- <-]; assumption.
    + intros [= <- <-]; assumption.
    + intros [= <- <-]; assumption.
    + discriminate.
Qed.

Lemma shortest_from_ok (fuel : nat) (x : number) (a b n0 : Z) : forall k s n k',
  shortest_from fuel x a b n0 k = Some (s, n, k') -> candidate_ok x s n k' = true.
Proof.
  induction fuel as [|fuel IH]; intros k s n k'; [discriminate|].
  cbn [shortest_from]. destruct (shortest_at x a b n0 k) as [[s' n']|] eqn:E.
  - intros [= <- <- <-]. exact (shortest_at_ok _ _ _ _ _ _ _ E).
  - apply IH.
Qed.

Lemma Zdigits2_mul_le (a b : Z) :
  0 < a -> 0 < b -> Zdigits2 (a * b) <= Zdigits2 a + Zdigits2 b.
Proof.
  intros Ha Hb.
  pose proof (Zdigits2_bounds a Ha) as [_ Ua]. pose proof (Zdigits2_bounds b Hb) as [_ Ub].
  pose proof (Zdigits2_bounds (a * b) ltac:(nia)) as [L _].
  pose proof (Zdigits2_pos a Ha). pose proof (Zdigits2_pos b Hb).
  assert (U : a * b < 2 ^ (Zdigits2 a + Zdigits2 b)).
  { rewrite Z.pow_add_r by lia. nia. }
  destruct (Z.le_gt_cases (Zdigits2 (a * b)) (Zdigits2 a + Zdigits2 b)) as [|G]; [assumption|].
  assert (2 ^ (Zdigits2 a + Zdigits2 b) <= 2 ^ (Zdigits2 (a * b) - 1))
    by (apply Z.pow_le_mono_r; lia).
  lia.
Qed.

Lemma bounded_digits (m : positive) (e : Z) :
  SpecFloat.bounded prec emax m e = true ->
  Zdigits2 (Z.pos m) <= 53 /\ -1074 <= e.
Proof.
  intros B. apply bounded_iff in B. destruct B as [C _]. rewrite fexp_eq in C. lia.
Qed.

(** A double is the Number value of its own exact decimal expansion. *)
Lemma of_decimal_exact (m : positive) (e : Z) :
  SpecFloat.bounded prec emax m e = true ->
  of_decimal false (fst (fst (exact_decimal m e)))
    (snd (fst (exact_decimal m e)) - snd (exact_decimal m e))
  = S754_finite false m e.
Proof.
  intros B. unfold exact_decimal.
  destruct (Z.leb_spec 0 e) as [He|He]; cbn [fst snd].
  - replace (num_digits (Z.pos m * 2 ^ e) + 0 - num_digits (Z.pos m * 2 ^ e)) with 0 by lia.
    unfold of_decimal. cbn [Z.leb Z.compare]. change (10 ^ 0) with 1. rewrite Z.mul_1_r.
    rewrite <- (of_int_exact m e He B). unfold of_int.
    assert (0 < 2 ^ e) by (apply Z.pow_pos_nonneg; lia).
    destruct (Z.ltb_spec (Z.pos m * 2 ^ e) 0); [nia|reflexivity].
  - set (k := - e). assert (Hk : 0 < k) by (unfold k; lia).
    replace (num_digits (Z.pos m * 5 ^ k) + e - num_digits (Z.pos m * 5 ^ k)) with e by lia.
    unfold of_decimal. destruct (Z.leb_spec 0 e); [lia|]. fold k.
    assert (P5 : 0 < 5 ^ k) by (apply Z.pow_pos_nonneg; lia).
    assert (P2 : 0 < 2 ^ k) by (apply Z.pow_pos_nonneg; lia).
    assert (E10 : 10 ^ k = 5 ^ k * 2 ^ k).
    { change 10 with (5 * 2). apply Z.pow_mul_l. }
    rewrite round_ratio_spec by nia.
    set (qe := quotient_exponent (Z.pos m * 5 ^ k) 0 (10 ^ k) 0).
    destruct (bounded_digits m e B) as [Dm Le].
    assert (Q : qe <= e).
    { unfold qe, quotient_exponent. rewrite fexp_eq.
      pose proof (Zdigits2_mul_le (Z.pos m) (5 ^ k) ltac:(lia) P5).
      rewrite E10, (Zdigits2_shift (5 ^ k) k P5) by lia. lia. }
    apply round_spec_exact; [lia|exact Q| |exact B].
    rewrite E10. replace (- qe) with ((e - qe) + k) by (unfold k; lia).
    rewrite Z.pow_add_r by lia. ring.
Qed.

Lemma exact_decimal_ok (m : positive) (e s n k : Z) :
  SpecFloat.bounded prec emax m e = true ->
  exact_decimal m e = (s, n, k) ->
  0 < s /\ 10 ^ (k - 1) <= s < 10 ^ k /\
  of_decimal false s (n - k) = S754_finite false m e.
Proof.
  intros B E. pose proof (of_decimal_exact m e B) as O. rewrite E in O. cbn [fst snd] in O.
  assert (Hs : 0 < s /\ k = num_digits s).
  { unfold exact_decimal in E.
    destruct (Z.leb_spec 0 e).
    - pose proof (f_equal (fun t => fst (fst t)) E) as E1.
      pose proof (f_equal snd E) as E3. cbv beta in E1. cbn [fst snd] in E1, E3.
      rewrite <- E3, <- E1.
      assert (0 < 2 ^ e) by (apply Z.pow_pos_nonneg; lia).
      split; [apply Z.mul_pos_pos; lia|reflexivity].
    - pose proof (f_equal (fun t => fst (fst t)) E) as E1.
      pose proof (f_equal snd E) as E3. cbv beta in E1. cbn [fst snd] in E1, E3.
      rewrite <- E3, <- E1.
      assert (0 < 5 ^ (- e)) by (apply Z.pow_pos_nonneg; lia).
      split; [apply Z.mul_pos_pos; lia|reflexivity]. }
  destruct Hs as [Hs ->]. split; [exact Hs|]. split; [|exact O].
  now destruct (decimal_digits_spec s Hs) as (_ & _ & L).
Qed.

Lemma shortest_digits_ok (m : positive) (e s n k : Z) :
  SpecFloat.bounded prec emax m e = true ->
  shortest_digits m e = (s, n, k) ->
  0 < s /\ 10 ^ (k - 1) <= s < 10 ^ k /\
  of_decimal false s (n - k) = S754_finite false m e.
Proof.
  intros B. unfold shortest_digits.
  destruct (if 0 <=? e then _ else _) as [a b].
  destruct (shortest_from 17 _ a b (magnitude a b) 1) as [[[s' n'] k']|] eqn:E.
  - intros [= -> -> ->]. apply shortest_from_ok in E.
    exact (candidate_ok_spec _ _ _ _ _ _ E).
  - apply exact_decimal_ok. exact B.
Qed.

Lemma pow10_le (a b : Z) : 0 <= a <= b -> 10 ^ a <= 10 ^ b.
Proof. intros H. apply Z.pow_le_mono_r; lia. Qed.

(** A numeral of a double between 1/200 and 2 * 10^13 has its decimal
    point at a position that [Number::toString] prints without exponent. *)
Lemma numeral_position (s n k : Z) (m : positive) (e : Z) :
  0 < s -> 10 ^ (k - 1) <= s < 10 ^ k ->
  of_decimal false s (n - k) = S754_finite false m e ->
  (/ 200 <= F2R (S754_finite false m e) <= 20000000000000)%R ->
  -6 < n <= 21.
Proof.
  intros Hs [Lk Uk] O [Lr Ur].
  pose proof (of_decimal_rounds s (n - k) Hs) as R. rewrite O in R.
  pose proof (rounds_to_rel _ _ _ R) as E. cbv zeta in E.
  set (r := F2R (S754_finite false m e)) in *.
  pose proof pow2_m1022_small as Sm.
  destruct E as [E|E]; [lra|]. literal_2_53.
  assert (K : 1 <= k).
  { destruct (Z.le_gt_cases 1 k); [assumption|].
    assert (10 ^ k <= 10 ^ 0).
    { destruct (Z.eq_dec k 0) as [->|]; [lia|]. rewrite Z.pow_neg_r by lia. cbn. lia. }
    cbn in *. lia. }
  unfold decimal_value in E.
  destruct (Z.leb_spec 0 (n - k)) as [Hx|Hx].
  - (* an integer numeral *)
    split; [lia|].
    destruct (Z.le_gt_cases n 21) as [|G]; [assumption|exfalso].
    assert (P : 10 ^ 21 <= s * 10 ^ (n - k)).
    { assert (10 ^ 21 <= 10 ^ (n - 1)) by (apply pow10_le; lia).
      replace (n - 1) with ((k - 1) + (n - k)) in H by lia.
      rewrite Z.pow_add_r in H by lia.
      assert (0 < 10 ^ (n - k)) by (apply Z.pow_pos_nonneg; lia). nia. }
    apply IZR_le in P. change (IZR (10 ^ 21)) with 1000000000000000000000%R in P.
    lra.
  - assert (Px : 0 < 10 ^ (- (n - k))) by (apply Z.pow_pos_nonneg; lia).
    assert (Pr : (0 < IZR (10 ^ (- (n - k))))%R) by (apply IZR_lt; lia).
    set (d := IZR (10 ^ (- (n - k)))) in *.
    set (v := (IZR s / d)%R) in *.
    assert (V : (v * d = IZR s)%R) by (unfold v; field; lra).
    split.
    + destruct (Z.lt_ge_cases (-6) n) as [|G]; [assumption|exfalso].
      assert (P : s * 10 ^ 6 < 10 ^ (- (n - k))).
      { assert (10 ^ (k + 6) <= 10 ^ (- (n - k))) by (apply pow10_le; lia).
        rewrite Z.pow_add_r in H by lia. lia. }
      apply IZR_lt in P. rewrite mult_IZR in P. fold d in P.
      change (IZR (10 ^ 6)) with 1000000%R in P. nra.
    + destruct (Z.le_gt_cases n 21) as [|G]; [assumption|exfalso].
      assert (P : 10 ^ 21 * 10 ^ (- (n - k)) <= s).
      { assert (10 ^ (21 + - (n - k)) <= 10 ^ (k - 1)) by (apply pow10_le; lia).
        rewrite Z.pow_add_r in H by lia. lia. }
      apply IZR_le in P. rewrite mult_IZR in P. fold d in P.
      change (IZR (10 ^ 21)) with 1000000000000000000000%R in P. nra.
Qed.

(** ** The double of a real number *)

(** [rne] depends on the ratio only. *)
Lemma rne_ratio (A P A' P' : Z) :
  0 < P -> 0 < P' -> 0 <= A -> 0 <= A' -> A * P' = A' * P ->
  rne A P = rne A' P'.
Proof.
  intros HP HP' HA HA' E.
  pose proof (Z.div_mod A P ltac:(lia)) as DA.
  pose proof (Z.mod_pos_bound A P HP) as BA.
  pose proof (Z.div_mod A' P' ltac:(lia)) as DA'.
  pose proof (Z.mod_pos_bound A' P' HP') as BA'.
  assert (Q : A' / P' = A / P).
  { symmetry. apply (Z.div_unique_pos A' P' (A / P) (A' - P' * (A / P))); [|lia].
    set (q := A / P) in *. set (r := A mod P) in *.
    assert (R : (A' - P' * q) * P = r * P') by nia.
    split; nia. }
  assert (R : (A' mod P') * P = (A mod P) * P') by (rewrite Q in DA'; nia).
  unfold rne. rewrite Q.
  set (r := A mod P) in *. set (r' := A' mod P') in *.
  destruct (Z.compare_spec (2 * r) P) as [C|C|C];
    destruct (Z.compare_spec (2 * r') P') as [C'|C'|C']; try reflexivity;
    exfalso; nia.
Qed.

(** The exponent of the result, read off the value. *)
Lemma rounded_exponent_value (A D ex : Z) :
  0 <= A -> 0 < D -> ex <= rounded_exponent A D ex ->
  -1074 <= rounded_exponent A D ex /\
  ((rounded_exponent A D ex = -1074 /\ (exact_value A D ex < pow2 (-1021))%R) \/
   (pow2 (rounded_exponent A D ex + 52) <= exact_value A D ex
      < pow2 (rounded_exponent A D ex + 53))%R).
Proof.
  intros HA HD He.
  assert (Ee : rounded_exponent A D ex = Z.max (Zdigits2 (A / D) + ex - 53) (-1074)).
  { unfold rounded_exponent. apply fexp_eq. }
  split; [lia|].
  assert (PD : (0 < IZR D)%R) by (apply IZR_lt; lia).
  pose proof (pow2_pos ex) as Pe.
  pose proof (Z.div_mod A D ltac:(lia)) as DM.
  pose proof (Z.mod_pos_bound A D HD) as BM.
  set (q := A / D) in *.
  assert (Lq : (IZR q <= IZR A / IZR D)%R).
  { apply (Rmult_le_reg_r (IZR D)); [exact PD|].
    replace (IZR A / IZR D * IZR D)%R with (IZR A) by (field; lra).
    rewrite <- mult_IZR. apply IZR_le. nia. }
  assert (Uq : (IZR A / IZR D < IZR (q + 1))%R).
  { apply (Rmult_lt_reg_r (IZR D)); [exact PD|].
    replace (IZR A / IZR D * IZR D)%R with (IZR A) by (field; lra).
    rewrite <- mult_IZR. apply IZR_lt. nia. }
  unfold exact_value.
  destruct (Z.eq_dec q 0) as [Z0|NZ].
  - left. rewrite Z0 in *. change (Zdigits2 0) with 0 in Ee.
    split; [lia|].
    assert (X : ex <= -1074) by lia.
    assert (P : (pow2 ex <= pow2 (-1021))%R) by (apply pow2_le_mono; lia).
    change (IZR (0 + 1)) with 1%R in Uq. nra.
  - assert (Pq : 0 < q) by (assert (0 <= q) by (apply Z.div_pos; lia); lia).
    pose proof (Zdigits2_bounds q Pq) as [L U].
    pose proof (Zdigits2_pos q Pq) as Dp.
    set (d := Zdigits2 q) in *.
    assert (Lv : (pow2 (d - 1 + ex) <= IZR A / IZR D * pow2 ex)%R).
    { rewrite pow2_add, <- (pow2_IZR (d - 1)) by lia. apply IZR_le in L.
      apply Rmult_le_compat_r; [exact (Rlt_le _ _ Pe)|]. exact (Rle_trans _ _ _ L Lq). }
    assert (Uv : (IZR A / IZR D * pow2 ex < pow2 (d + ex))%R).
    { rewrite pow2_add, <- (pow2_IZR d) by lia.
      assert (q + 1 <= 2 ^ d) by lia. apply IZR_le in H.
      apply Rmult_lt_compat_r; [exact Pe|]. exact (Rlt_le_trans _ _ _ Uq H). }
    destruct (Z.le_gt_cases (-1074) (d + ex - 53)) as [N|S].
    + right. replace (rounded_exponent A D ex) with (d + ex - 53) by lia.
      replace (d + ex - 53 + 52) with (d - 1 + ex) by lia.
      replace (d + ex - 53 + 53) with (d + ex) by lia. lra.
    + left. split; [lia|].
      assert (P : (pow2 (d + ex) <= pow2 (-1021))%R) by (apply pow2_le_mono; lia).
      lra.
Qed.

Lemma pow2_lt_inv (a b : Z) (v : R) : (pow2 a <= v < pow2 b)%R -> a < b.
Proof.
  intros [L U]. destruct (Z.lt_ge_cases a b) as [|G]; [assumption|exfalso].
  pose proof (pow2_le_mono b a ltac:(lia)). lra.
Qed.

Lemma exact_value_scaled (A D ex e1 : Z) :
  0 < D -> ex <= e1 ->
  (exact_value A D ex = IZR A / IZR (D * 2 ^ (e1 - ex)) * pow2 e1)%R.
Proof.
  intros HD He. unfold exact_value. rewrite mult_IZR, pow2_IZR by lia.
  rewrite pow2_sub. pose proof (pow2_pos e1). pose proof (pow2_pos ex).
  assert (0 < IZR D)%R by (apply IZR_lt; lia). field. lra.
Qed.

(** Two roundings of the same value agree. *)
Lemma rounds_to_unique (v : R) (x y : number) :
  rounds_to v x -> rounds_to v y -> x = y.
Proof.
  intros (A & D & ex & HA & HD & He & V & ->) (A' & D' & ex' & HA' & HD' & He' & V' & ->).
  destruct (rounded_exponent_value A D ex HA HD He) as [B C].
  destruct (rounded_exponent_value A' D' ex' HA' HD' He') as [B' C'].
  rewrite V in C. rewrite V' in C'.
  assert (E : rounded_exponent A' D' ex' = rounded_exponent A D ex).
  { set (e1 := rounded_exponent A D ex) in *.
    set (e1' := rounded_exponent A' D' ex') in *.
    destruct C as [[C1 C2]|C]; destruct C' as [[C1' C2']|C'].
    - lia.
    - assert (e1' + 52 < -1021) by (apply (pow2_lt_inv _ _ v); lra). lia.
    - assert (e1 + 52 < -1021) by (apply (pow2_lt_inv _ _ v); lra). lia.
    - assert (e1 + 52 < e1' + 53) by (apply (pow2_lt_inv _ _ v); lra).
      assert (e1' + 52 < e1 + 53) by (apply (pow2_lt_inv _ _ v); lra). lia. }
  assert (M : rounded_mantissa A' D' ex' = rounded_mantissa A D ex).
  { unfold rounded_mantissa. rewrite E.
    set (e1 := rounded_exponent A D ex) in *.
    assert (P : 0 < D * 2 ^ (e1 - ex)).
    { assert (0 < 2 ^ (e1 - ex)) by (apply Z.pow_pos_nonneg; lia). nia. }
    assert (P' : 0 < D' * 2 ^ (e1 - ex')).
    { assert (0 < 2 ^ (e1 - ex')) by (apply Z.pow_pos_nonneg; lia). nia. }
    apply rne_ratio; try assumption.
    rewrite (exact_value_scaled A D ex e1 HD He) in V.
    rewrite (exact_value_scaled A' D' ex' e1 HD' ltac:(lia)) in V'.
    apply eq_IZR. rewrite (mult_IZR A), (mult_IZR A').
    pose proof (pow2_pos e1) as T.
    assert (Pr : (0 < IZR (D * 2 ^ (e1 - ex)))%R) by (apply IZR_lt; lia).
    assert (Pr' : (0 < IZR (D' * 2 ^ (e1 - ex')))%R) by (apply IZR_lt; lia).
    set (p := IZR (D * 2 ^ (e1 - ex))) in *.
    set (p' := IZR (D' * 2 ^ (e1 - ex'))) in *.
    assert (Q : (IZR A / p = IZR A' / p')%R).
    { apply (Rmult_eq_reg_r (pow2 e1)); [lra|lra]. }
    replace (IZR A) with (IZR A / p * p)%R by (field; lra).
    rewrite Q. field. lra. }
  rewrite !round_spec_unfold. cbv zeta. rewrite E, M. reflexivity.
Qed.

(** A double rounds to itself. *)
Lemma rounds_to_exact (m : positive) (e : Z) :
  SpecFloat.bounded prec emax m e = true ->
  rounds_to (F2R (S754_finite false m e)) (S754_finite false m e).
Proof.
  intros B. pose proof (proj1 (bounded_iff m e) B) as [C _].
  exists (Z.pos m), 1, e.
  assert (R : rounded_exponent (Z.pos m) 1 e = e).
  { unfold rounded_exponent. rewrite Z.div_1_r. exact C. }
  split; [lia|]. split; [lia|]. split; [lia|]. split.
  - unfold exact_value, F2R. change (IZR 1) with 1%R. field.
  - symmetry. apply round_spec_exact; [lia|lia| |exact B].
    rewrite Z.sub_diag. change (2 ^ 0) with 1. lia.
Qed.

(** An integer below 2^53 is a double. *)
Lemma of_int_small (n : Z) :
  1 <= n < 2 ^ 53 ->
  exists m e, of_int n = S754_finite false m e /\
              F2R (S754_finite false m e) = IZR n.
Proof.
  intros [L U].
  set (d := Zdigits2 n).
  pose proof (Zdigits2_bounds n ltac:(lia)) as [Ld Ud]. fold d in Ld, Ud.
  pose proof (Zdigits2_pos n ltac:(lia)) as Pd. fold d in Pd.
  assert (D53 : d <= 53).
  { destruct (Z.le_gt_cases d 53) as [|G]; [assumption|].
    assert (2 ^ 53 <= 2 ^ (d - 1)) by (apply Z.pow_le_mono_r; lia). lia. }
  set (X := n * 2 ^ (53 - d)).
  assert (PX : 0 < X).
  { unfold X. assert (0 < 2 ^ (53 - d)) by (apply Z.pow_pos_nonneg; lia). nia. }
  set (m := Z.to_pos X).
  assert (Em : Z.pos m = X) by (unfold m; apply Z2Pos.id; exact PX).
  assert (B : SpecFloat.bounded prec emax m (d - 53) = true).
  { apply bounded_iff. rewrite Em. unfold X.
    rewrite Zdigits2_shift by lia. rewrite fexp_eq. lia. }
  assert (V : F2R (S754_finite false m (d - 53)) = IZR n).
  { unfold F2R. rewrite Em. unfold X. rewrite mult_IZR, pow2_IZR by lia.
    rewrite Rmult_1_l, Rmult_assoc, <- pow2_add.
    replace (53 - d + (d - 53)) with 0 by lia. change (pow2 0) with 1%R. lra. }
  exists m, (d - 53). split; [|exact V].
  apply (rounds_to_unique (IZR n)); [apply rounds_to_of_int; lia|].
  rewrite <- V. apply rounds_to_exact. exact B.
Qed.

(** ** Printing a price and parsing it again *)

(** A result of [parsePrice] that is not zero and at most 10^13 is a
    number of cents, between 1 and 10^15, divided by 100. *)
Lemma parsePrice_cents (s : jsstring) (r : number) :
  parsePrice (Str s) = Num r ->
  truthy (Num r) = true ->
  fle r (dbl 1e13) = true ->
  exists n, 1 <= n <= 10 ^ 15 /\ r = fdiv (of_int n) hundred.
Proof.
  intros P T B.
  destruct (parsePrice_rounds s r P) as [[_ ->] | (n & Hn & _ & E)];
    [vm_compute in B; discriminate|].
  assert (Ln : 1 <= n).
  { destruct (Z.eq_dec n 0) as [->|]; [|lia].
    rewrite E in T. vm_compute in T. discriminate. }
  exists n. split; [|exact E]. split; [exact Ln|].
  rewrite E in B. exact (cents_bound n Ln B).
Qed.

(** The quotient by 100 of a whole number of cents up to 10^15 is the
    double nearest to the numeral with two decimals. *)
Lemma cents_as_numeral (n : Z) :
  0 <= n <= 10 ^ 15 -> fdiv (of_int n) hundred = of_decimal false n (-2).
Proof.
  intros [L U].
  destruct (Z.eq_dec n 0) as [->|N]; [vm_compute; reflexivity|].
  destruct (of_int_small n ltac:(lia)) as (m & e & -> & V).
  apply (rounds_to_unique (IZR n / 100)).
  - pose proof (rounds_to_fdiv m 7036874417766400 e (-46)) as R.
    rewrite <- hundred_eq, F2R_hundred, V in R. exact R.
  - pose proof (of_decimal_rounds n (-2) ltac:(lia)) as R.
    unfold decimal_value in R. cbn [Z.leb Z.compare Z.opp] in R.
    change (IZR (10 ^ 2)) with 100%R in R. exact R.
Qed.

(** A result of [parsePrice] up to 10^13 is the double nearest to
    [n / 100], for the whole number [n] nearest to the product, in
    doubles, of the parsed number and 100. *)
Lemma parsePrice_rounds_to_cents (s : jsstring) (r : number) :
  parsePrice (Str s) = Num r ->
  fle r (dbl 1e13) = true ->
  exists n, (0 <= n <= 10 ^ 15) /\
            nearest_integer (fmul (parseFloat (clean s)) hundred) n /\
            r = of_decimal false n (-2).
Proof.
  intros P B.
  destruct (parsePrice_rounds s r P) as [[_ ->] | (n & Hn & Near & E)];
    [vm_compute in B; discriminate|].
  assert (Un : n <= 10 ^ 15).
  { destruct (Z.eq_dec n 0) as [->|]; [lia|].
    rewrite E in B. apply (cents_bound n); [lia|exact B]. }
  exists n. split; [lia|]. split; [exact Near|].
  rewrite E. apply cents_as_numeral. lia.
Qed.

(** Such a number prints without exponent, and [parsePrice] reads the
    digits back as the same number. *)
Lemma rendering_parses_back (n : Z) :
  1 <= n <= 10 ^ 15 ->
  exists m e,
    fdiv (of_int n) hundred = S754_finite false m e /\
    Forall (fun c => plain c = true) (Number_toString (S754_finite false m e)) /\
    parsePrice (Str (Number_toString (S754_finite false m e))) =
    Num (S754_finite false m e).
Proof.
  intros [Ln Un].
  destruct (cents_round_trip n (conj Ln Un)) as (m & e & F & Bd & M & Lo & Hi).
  exists m, e. split; [exact F|].
  assert (N1 : (1 <= IZR n)%R) by (apply IZR_le; lia).
  assert (N2 : (IZR n <= 1000000000000000)%R) by (apply IZR_le; lia).
  cbn [Number_toString].
  destruct (shortest_digits m e) as [[s' n'] k'] eqn:S.
  destruct (shortest_digits_ok _ _ _ _ _ Bd S) as (Hs & Hk & O).
  assert (Pos : -6 < n' <= 21).
  { apply (numeral_position s' n' k' m e Hs Hk O). lra. }
  destruct (layout_parse s' n' k' Hs Hk Pos) as (Pf & Pl & Ne).
  split; [exact Pl|].
  unfold parsePrice.
  assert (Tr : truthy (Str (layout s' n' k')) = true).
  { destruct (layout s' n' k'); [contradiction|reflexivity]. }
  rewrite Tr. cbn [negb].
  rewrite (clean_plain _ Pl), Pf, O. cbn [isNaN orb].
  change (fle (S754_finite false m e) pos_zero) with false. cbv iota.
  rewrite M, F. reflexivity.
Qed.

(* ================================================================== *)
(** * The claims *)

(** ** The normalizer on examples *)

Definition sale_candidate : jsval :=
  Obj [ (u "price", Str (u "39.99")); (u "salePrice", Str (u "29.99")) ].

(** C1, as amended: for the candidate [{price: "39.99", salePrice: "29.99"}],
    with no [listPrice], [normalizePrice] returns a record with
    [isOnSale = true], [price = 29.99] and [originalPrice = 29.99], the
    resolved price: [originalPrice] is read from [listPrice] alone. *)
Theorem C1_sale_without_list_price :
  prop (normalizePrice sale_candidate) (u "isOnSale") = Bool true /\
  prop (normalizePrice sale_candidate) (u "price") = Num (dbl 29.99) /\
  prop (normalizePrice sale_candidate) (u "originalPrice") = Num (dbl 29.99).
Proof. vm_compute. repeat split. Qed.

(** C1, as stated, fails: [originalPrice] is not 39.99. *)
Lemma C1_original_price_is_not_the_regular_price :
  ~ (prop (normalizePrice sale_candidate) (u "isOnSale") = Bool true /\
     prop (normalizePrice sale_candidate) (u "price") = Num (dbl 29.99) /\
     prop (normalizePrice sale_candidate) (u "originalPrice") = Num (dbl 39.99)).
Proof. vm_compute. intros (_ & _ & E). discriminate E. Qed.

Definition unparseable_list_candidate : jsval :=
  Obj [ (u "price", Str (u "10")); (u "listPrice", Str (u "abc")) ].

(** C2 at a candidate whose [listPrice] is present and does not parse:
    the record is returned, with [price = 10], and its [originalPrice] is
    [null], not a number. *)
Theorem C2_unparseable_list_price_gives_null_original :
  normalizePrice unparseable_list_candidate =
  price_record (Num (dbl 10)) Null Null (Str USD) false.
Proof. vm_compute. reflexivity. Qed.

(** C6: when the field that wins [salePrice || price || listPrice] is not
    a string, [normalizePrice] returns [null]. *)
Theorem C6_non_string_price_is_rejected (priceData : jsval) :
  is_string (prop priceData (u "salePrice") ||| prop priceData (u "price")
               ||| prop priceData (u "listPrice")) = false ->
  normalizePrice priceData = Null.
Proof.
  intros Hw. unfold normalizePrice.
  destruct (negb (truthy priceData)); [reflexivity|].
  set (w := _ ||| _ ||| _) in *.
  replace (parsePrice w) with Null; [reflexivity|].
  destruct w; try reflexivity. discriminate Hw.
Qed.

(** [normalizePrice({price: 29.99})], with the number 29.99, is [null]. *)
Lemma C6_numeric_price_example :
  is_string (prop (Obj [(u "price", Num (dbl 29.99))]) (u "salePrice")
               ||| prop (Obj [(u "price", Num (dbl 29.99))]) (u "price")
               ||| prop (Obj [(u "price", Num (dbl 29.99))]) (u "listPrice")) = false
  /\ normalizePrice (Obj [(u "price", Num (dbl 29.99))]) = Null.
Proof.
  split; [vm_compute; reflexivity|].
  apply (C6_non_string_price_is_rejected (Obj [(u "price", Num (dbl 29.99))])).
  vm_compute; reflexivity.
Defined.

(** ** The parser *)

(** The cents of a double, as the specification words the rounding: the
    whole number nearest to 100 times the number, the larger one of two
    at the same distance, computed exactly. *)
Definition exact_cents (x : number) : option Z :=
  match x with
  | S754_zero _ => Some 0
  | S754_finite false m e =>
    Some (if 0 <=? e then 100 * Z.pos m * 2 ^ e
          else (200 * Z.pos m + 2 ^ (- e)) / 2 ^ (1 - e))
  | _ => None
  end.

(** [r] is [x] rounded to two decimals: the double nearest to the numeral
    with two decimals that the cents of [x] make. *)
Definition rounded_to_two_decimals (x r : number) : Prop :=
  exists n, exact_cents x = Some n /\ r = of_decimal false n (-2).

(** The cents are within half a unit of 100 times the number. *)
Lemma exact_cents_nearest (m : positive) (e n : Z) :
  e < 0 ->
  exact_cents (S754_finite false m e) = Some n ->
  2 * n * 2 ^ (- e) <= 200 * Z.pos m + 2 ^ (- e) < 2 * (n + 1) * 2 ^ (- e).
Proof.
  intros He E. cbn [exact_cents] in E.
  destruct (Z.leb_spec 0 e) as [|_]; [lia|].
  assert (N : n = (200 * Z.pos m + 2 ^ (- e)) / 2 ^ (1 - e)) by congruence.
  clear E.
  assert (P : 0 < 2 ^ (- e)) by (apply Z.pow_pos_nonneg; lia).
  assert (S : 2 ^ (1 - e) = 2 * 2 ^ (- e)).
  { replace (1 - e) with (Z.succ (- e)) by lia. apply Z.pow_succ_r. lia. }
  rewrite S in N. subst n.
  set (D := 2 * 2 ^ (- e)).
  pose proof (Z.div_mod (200 * Z.pos m + 2 ^ (- e)) D ltac:(unfold D; lia)) as DM.
  pose proof (Z.mod_pos_bound (200 * Z.pos m + 2 ^ (- e)) D ltac:(unfold D; lia)) as B.
  unfold D in *. nia.
Qed.

(** C7, as stated, fails: ["44799148603461.13"] has two decimals and its
    cents are 4479914860346113, yet the result is 44799148603461.14; the
    product by 100 is rounded to a double that lies halfway between two
    whole numbers before [Math.round] sees it. *)
Lemma C7_large_price_is_not_rounded_to_cents :
  ~ (forall s r,
        parsePrice (Str s) = Num r ->
        rounded_to_two_decimals (parseFloat (clean s)) r).
Proof.
  intros H.
  assert (P : parsePrice (Str (u "44799148603461.13")) =
              Num (of_decimal false 4479914860346114 (-2)))
    by (vm_compute; reflexivity).
  destruct (H _ _ P) as (n & E & R).
  vm_compute in E. injection E as <-.
  vm_compute in R. discriminate R.
Qed.

(** The same happens among small prices: the double of ["0.015"] lies
    below 0.015 and its cents are 1, but the product by 100 is 1.5 in
    doubles, and the result is 0.02. *)
Lemma parsePrice_rounds_the_product :
  exact_cents (parseFloat (clean (u "0.015"))) = Some 1 /\
  fmul (parseFloat (clean (u "0.015"))) hundred = dbl 1.5 /\
  parsePrice (Str (u "0.015")) = Num (dbl 0.02).
Proof. repeat split; vm_compute; reflexivity. Qed.

(** A numeral of 310 nines parses to a double whose product by 100
    overflows: the result is [Infinity]. *)
Lemma parsePrice_overflows :
  parsePrice (Str (repeat 57 310)) = Num pos_inf.
Proof. vm_compute. reflexivity. Qed.

(** C7 for the rounding the code does: [parsePrice] returns [null] for
    every value that is not a string, for the empty string, and for every
    string whose cleaned numeral parses to NaN, to zero or to a negative
    number.  Every other result is rounded in doubles: with [y] the
    product, in doubles, of the parsed number and 100, the result is the
    quotient by 100 of the whole number [n] nearest to [y], a tie going up
    and not down (or [y] has overflowed and the result is [Infinity]); and
    a result up to 10^13 is the double nearest to [n / 100], a numeral
    with two decimals.  On the four examples: ["$29.99"] gives 29.99, a
    pound sign before ["15.00"] gives 15, ["invalid"] and the empty string
    give [null]. *)
Theorem C7_parsePrice_rejects_and_rounds_the_product :
  (forall v, is_string v = false -> parsePrice v = Null) /\
  parsePrice (Str []) = Null /\
  (forall s,
      isNaN (parseFloat (clean s)) = true \/
      fle (parseFloat (clean s)) pos_zero = true ->
      parsePrice (Str s) = Null) /\
  (forall s r,
      parsePrice (Str s) = Num r ->
      let y := fmul (parseFloat (clean s)) hundred in
      (y = pos_inf /\ r = pos_inf) \/
      exists n, 0 <= n /\ nearest_integer y n /\ r = fdiv (of_int n) hundred) /\
  (forall s r,
      parsePrice (Str s) = Num r ->
      fle r (dbl 1e13) = true ->
      exists n, (0 <= n <= 10 ^ 15) /\
                nearest_integer (fmul (parseFloat (clean s)) hundred) n /\
                r = of_decimal false n (-2)) /\
  parsePrice (Str (u "$29.99")) = Num (dbl 29.99) /\
  parsePrice (Str (u "£15.00")) = Num (dbl 15) /\
  parsePrice (Str (u "invalid")) = Null /\
  parsePrice (Str (u "")) = Null.
Proof.
  split; [|split; [|split; [|split; [|split]]]].
  - intros v Hv. destruct v; try reflexivity. discriminate Hv.
  - reflexivity.
  - intros s Hs. unfold parsePrice.
    destruct (negb (truthy (Str s))); [reflexivity|].
    destruct Hs as [-> | ->]; [reflexivity|].
    rewrite orb_true_r. reflexivity.
  - intros s r. apply parsePrice_rounds.
  - intros s r. apply parsePrice_rounds_to_cents.
  - repeat split; vm_compute; reflexivity.
Qed.

(** ["2.999"] is rounded up to 3 and ["2.994"] down to 2.99. *)
Lemma parsePrice_rounds_to_nearest :
  parsePrice (Str (u "2.999")) = Num (dbl 3) /\
  parsePrice (Str (u "2.994")) = Num (dbl 2.99).
Proof. split; vm_compute; reflexivity. Qed.

(** C8, as stated, fails: ["44799148603461.125"] parses to
    44799148603461.13, whose rendering parses to 44799148603461.14; the
    product by 100 is no longer an integer within half a unit. *)
Lemma C8_large_price_is_not_reparsed :
  ~ (forall s r,
        parsePrice (Str s) = Num r ->
        parsePrice (Str (Number_toString r)) = Num r).
Proof.
  intros H.
  assert (P : parsePrice (Str (u "44799148603461.125")) =
              Num (S754_finite false 5734291021243025 (-7)))
    by (vm_compute; reflexivity).
  apply H in P. vm_compute in P. discriminate P.
Qed.

(** C8 for the prices up to 10^13: when [parsePrice] succeeds on [s] with
    a result [r] that is not zero and is at most 10^13, the rendering of
    [r] parses to [r] again. *)
Theorem C8_parsePrice_reparses_its_rendering (s : jsstring) (r : number) :
  parsePrice (Str s) = Num r ->
  truthy (Num r) = true ->
  fle r (dbl 1e13) = true ->
  parsePrice (Str (Number_toString r)) = Num r.
Proof.
  intros P T B.
  destruct (parsePrice_cents s r P T B) as (n & Hn & E).
  destruct (rendering_parses_back n Hn) as (m & e & F & _ & R).
  rewrite F in E. subst r. exact R.
Qed.

(** ["$1,234.56"] parses to 1234.56, which prints as ["1234.56"] and parses
    to 1234.56. *)
Lemma C8_thousands_example :
  parsePrice (Str (u "$1,234.56")) = Num (dbl 1234.56) /\
  truthy (Num (dbl 1234.56)) = true /\
  fle (dbl 1234.56) (dbl 1e13) = true /\
  Number_toString (dbl 1234.56) = u "1234.56" /\
  parsePrice (Str (Number_toString (dbl 1234.56))) = Num (dbl 1234.56).
Proof.
  repeat (split; [vm_compute; reflexivity|]).
  apply (C8_parsePrice_reparses_its_rendering (u "$1,234.56") (dbl 1234.56));
    vm_compute; reflexivity.
Defined.

(** ** The extractors *)

(** C5: a record returned by any of the three strategies has
    [isOnSale = false] and [salePrice = null]. *)
Theorem C5_strategies_never_report_a_sale `{H : Host}
  (s : strategy) (html : jsstring) (r : jsval) :
  PriceScraper.run_strategy s html = r ->
  r <> Null ->
  prop r (u "isOnSale") = Bool false /\ prop r (u "salePrice") = Null.
Proof.
  intros <- N.
  destruct (run_strategy_no_sale s html) as [E | (x & o & c & -> & _)];
    [contradiction|].
  split; reflexivity.
Qed.

Lemma C5_walmart_fixture :
  @PriceScraper.run_strategy Fixture.host WalmartStrategy Fixture.walmart_style_html
    = price_record (Num (dbl 12.99)) (Num (dbl 12.99)) Null (Str USD) false
  /\ prop (price_record (Num (dbl 12.99)) (Num (dbl 12.99)) Null (Str USD) false)
       (u "isOnSale") = Bool false
  /\ prop (price_record (Num (dbl 12.99)) (Num (dbl 12.99)) Null (Str USD) false)
       (u "salePrice") = Null.
Proof.
  split; [vm_compute; reflexivity|].
  apply (@C5_strategies_never_report_a_sale Fixture.host WalmartStrategy
           Fixture.walmart_style_html).
  - vm_compute; reflexivity.
  - discriminate.
Defined.

(** ** The recursive search of the Walmart strategy *)

Definition state_with_null_price : jsval :=
  Obj [ (u "a", Obj [ (u "price", Null) ]);
        (u "b", Obj [ (u "price", Str (u "5")) ]) ].

(** C10 at the state [{"a": {"price": null}, "b": {"price": "5"}}]:
    [findPriceInState] does not return the price under [b]; reading
    [obj.price.current] of the [null] under [a] throws. *)
Theorem C10_null_price_aborts_state_search :
  WalmartExtractor.findPriceInState state_with_null_price = Throw TypeError.
Proof. vm_compute. reflexivity. Qed.

(** ** The dispatcher and the out-of-stock gate *)

Section DispatcherClaims.
Context `{H : Host}.
Import PriceScraper.

(** C3: for a URL of Amazon or Walmart, once the page is fetched and the
    out-of-stock gate passed, [getPrice] calls the [extract] of that vendor
    and of no other strategy; when it finds nothing the record is the
    one with [available: false] and the no-price error, whatever the
    other strategies would find.  So it is for Amazon on a page that has
    none of the markers of the Amazon strategy. *)
Theorem C3_recognized_vendor_runs_its_strategy_only
  (url : jsstring) (options : jsval) (html : jsstring) (s : strategy) :
  url <> [] -> html <> [] ->
  fetchHtml url (default_options options) = Ok html ->
  out_of_stock_gate html (default_options options) = Ok false ->
  (detectVendor url = AMAZON /\ s = AmazonStrategy) \/
  (detectVendor url = WALMART /\ s = WalmartStrategy) ->
  dispatch (detectVendor url) html = ([s], run_strategy s html) /\
  exists a,
    getPrice (Str url) options = Ok a /\
    invoked a = [s] /\
    (truthy (run_strategy s html) = false ->
       record a = unavailable url (detectVendor url) NO_PRICE_ERROR /\
       prop (record a) (u "available") = Bool false) /\
    (s = AmazonStrategy -> no_amazon_markers html ->
       record a = unavailable url AMAZON NO_PRICE_ERROR /\
       prop (record a) (u "available") = Bool false).
Proof.
  intros Nu Nh F G V.
  assert (D : dispatch (detectVendor url) html = ([s], run_strategy s html)).
  { destruct V as [[-> ->] | [-> ->]]; reflexivity. }
  split; [exact D|].
  eexists. split; [apply (getPrice_dispatches url options html Nu Nh F G)|].
  rewrite D. cbn [invoked record fst snd].
  split; [reflexivity|]. split.
  - intros T. rewrite (assemble_without_price _ _ _ T). split; reflexivity.
  - intros -> M. destruct V as [[V _] | [_ V]]; [|discriminate V].
    rewrite V. cbn [run_strategy]. rewrite (amazon_without_markers html M).
    split; reflexivity.
Qed.

(** C4: for a vendor tag other than [amazon] and [walmart] the Generic
    strategy runs first, then, as long as nothing is found, the Amazon
    and the Walmart strategy, in this order; the first result found is
    the one kept.  A price only the Amazon strategy finds, when it passes
    validation, makes a record with [available: true] and that price. *)
Theorem C4_other_vendors_fall_back_in_order (vendor html url : jsstring) :
  vendor <> AMAZON -> vendor <> WALMART ->
  let generic := GenericExtractor.extract html in
  let amazon := AmazonExtractor.extract html in
  let walmart := WalmartExtractor.extract html in
  (truthy generic = true ->
     dispatch vendor html = ([GenericStrategy], generic)) /\
  (truthy generic = false -> truthy amazon = true ->
     dispatch vendor html = ([GenericStrategy; AmazonStrategy], amazon) /\
     (isValid (validatePriceData amazon) = true ->
        prop (assemble url vendor amazon) (u "available") = Bool true /\
        prop (assemble url vendor amazon) (u "price") = prop amazon (u "price"))) /\
  (truthy generic = false -> truthy amazon = false ->
     dispatch vendor html =
       ([GenericStrategy; AmazonStrategy; WalmartStrategy], walmart)).
Proof.
  intros NA NW generic amazon walmart.
  pose proof (dispatch_other vendor html NA NW) as D. cbv zeta in D.
  fold generic amazon walmart in D.
  repeat split.
  - intros Tg. now rewrite D, Tg.
  - now rewrite D, H0, H1.
  - unfold assemble. rewrite H1, H2. cbn [negb].
    destruct (amazon_no_sale html) as [E | (x & o & c & E & _)];
      fold amazon in E; rewrite E in *; [discriminate|].
    vm_compute. reflexivity.
  - unfold assemble. rewrite H1, H2. cbn [negb].
    destruct (amazon_no_sale html) as [E | (x & o & c & E & _)];
      fold amazon in E; rewrite E in *; [discriminate|].
    vm_compute. reflexivity.
  - intros Tg Ta. now rewrite D, Tg, Ta.
Qed.

(** C9: when the fetched page contains one of the out-of-stock phrases,
    in any case of its letters, and [options.allowOutOfStock] is not set,
    [getPrice] returns the record with [available: false] and the
    out-of-stock error and calls no strategy; that error is not the
    no-price error; and [isOutOfStock] is false on what is not a
    string. *)
Theorem C9_out_of_stock_short_circuit
  (url : jsstring) (options : jsval) (html phrase before found rest : jsstring) :
  url <> [] ->
  fetchHtml url (default_options options) = Ok html ->
  In phrase outOfStockIndicators ->
  html = before ++ found ++ rest ->
  same_ignoring_case found phrase ->
  default_options options <> Null ->
  truthy (prop (default_options options) (u "allowOutOfStock")) = false ->
  getPrice (Str url) options =
    Ok {| invoked := [];
          record := unavailable url (detectVendor url) OUT_OF_STOCK_ERROR |}
  /\ prop (unavailable url (detectVendor url) OUT_OF_STOCK_ERROR) (u "available")
       = Bool false
  /\ OUT_OF_STOCK_ERROR <> NO_PRICE_ERROR
  /\ forall v, is_string v = false -> isOutOfStock v = false.
Proof.
  intros Nu F Hin Eh S No Allow.
  destruct (isOutOfStock_phrase html phrase before found rest Hin Eh S) as [O Nh].
  repeat split.
  - unfold getPrice. destruct url as [|c url]; [contradiction|].
    cbn [truthy negb]. rewrite F. cbn [bind].
    destruct html as [|d html]; [contradiction|]. cbn [truthy negb].
    unfold out_of_stock_gate. rewrite O.
    destruct options; cbn [default_options] in *; try contradiction;
      cbn [get bind]; rewrite Allow; reflexivity.
  - vm_compute. discriminate.
  - intros v Hv. destruct v; try reflexivity. discriminate Hv.
Qed.

End DispatcherClaims.

(** The claims of the dispatcher on the pages of [Fixture]. *)

Lemma fixture_has_no_amazon_markers :
  @no_amazon_markers Fixture.host Fixture.walmart_style_html.
Proof.
  unfold no_amazon_markers. repeat split.
  - unfold AmazonExtractor.jsonPatterns. cbn [In].
    intros p [<-|[<-|[<-|[]]]]; vm_compute; reflexivity.
  - unfold AmazonExtractor.priceToPaySelectors. cbn [In].
    intros p [<-|[<-|[<-|[]]]]; vm_compute; reflexivity.
  - unfold AmazonExtractor.offerSelectors. cbn [In].
    intros p [<-|[<-|[<-|[]]]]; vm_compute; reflexivity.
Defined.

(** On a page with a Walmart-style price under an Amazon URL the Walmart
    strategy would find 12.99; it is not asked. *)
Lemma C3_walmart_page_under_amazon_url :
  truthy (@WalmartExtractor.extract Fixture.host Fixture.walmart_style_html) = true
  /\ exists a,
       @PriceScraper.getPrice Fixture.host
         (Str (Fixture.page_url Fixture.walmart_style_page)) Undefined = Ok a
       /\ PriceScraper.invoked a = [AmazonStrategy]
       /\ prop (PriceScraper.record a) (u "available") = Bool false.
Proof.
  split; [vm_compute; reflexivity|].
  destruct (@C3_recognized_vendor_runs_its_strategy_only Fixture.host
              (Fixture.page_url Fixture.walmart_style_page) Undefined
              Fixture.walmart_style_html AmazonStrategy)
    as (_ & a & G & I & _ & M).
  - vm_compute; discriminate.
  - vm_compute; discriminate.
  - vm_compute; reflexivity.
  - vm_compute; reflexivity.
  - left. split; vm_compute; reflexivity.
  - exists a. split; [exact G|]. split; [exact I|].
    apply (M eq_refl fixture_has_no_amazon_markers).
Defined.

(** On a page with an Amazon-style embedded price under a Target URL the
    Generic strategy finds nothing and the Amazon strategy is next. *)
Lemma C4_amazon_page_under_target_url :
  @PriceScraper.dispatch Fixture.host (u "target") Fixture.amazon_style_html
    = ([GenericStrategy; AmazonStrategy],
       @AmazonExtractor.extract Fixture.host Fixture.amazon_style_html)
  /\ prop (@PriceScraper.assemble Fixture.host
             (Fixture.page_url Fixture.amazon_style_page) (u "target")
             (@AmazonExtractor.extract Fixture.host Fixture.amazon_style_html))
       (u "price") = Num (dbl 19.99).
Proof.
  destruct (@C4_other_vendors_fall_back_in_order Fixture.host (u "target")
              Fixture.amazon_style_html
              (Fixture.page_url Fixture.amazon_style_page))
    as (_ & A & _).
  - vm_compute; discriminate.
  - vm_compute; discriminate.
  - destruct A as [D V].
    + vm_compute; reflexivity.
    + vm_compute; reflexivity.
    + split; [exact D|].
      destruct V as [_ P]; [vm_compute; reflexivity|].
      rewrite P. vm_compute; reflexivity.
Defined.

Lemma C9_sold_out_page :
  @PriceScraper.getPrice Fixture.host
    (Str (Fixture.page_url Fixture.sold_out_page)) Undefined
  = Ok {| PriceScraper.invoked := [];
          PriceScraper.record :=
            PriceScraper.unavailable (Fixture.page_url Fixture.sold_out_page)
              PriceScraper.WALMART PriceScraper.OUT_OF_STOCK_ERROR |}.
Proof.
  apply (@C9_out_of_stock_short_circuit Fixture.host
           (Fixture.page_url Fixture.sold_out_page) Undefined
           Fixture.sold_out_html (u "currently unavailable")
           (u "<div id=" ++ Fixture.quoted "availability" ++ u ">")
           (u "Currently Unavailable") (u ".</div>")).
  - vm_compute; discriminate.
  - vm_compute; reflexivity.
  - vm_compute. right; left; reflexivity.
  - vm_compute; reflexivity.
  - vm_compute. repeat constructor.
  - vm_compute; discriminate.
  - vm_compute; reflexivity.
Defined.

(* ================================================================== *)
(** * Further properties of the code *)

(** ** What [parsePrice] reads *)

Lemma filter_remove_first (f p : Z -> bool) (s : jsstring) :
  (forall c, p c = true -> f c = false) ->
  filter f (remove_first p s) = filter f s.
Proof.
  intros H. induction s as [|c s IH]; [reflexivity|].
  cbn [remove_first]. destruct (p c) eqn:E.
  - cbn [filter]. now rewrite (H c E).
  - cbn [filter]. now rewrite IH.
Qed.

Lemma filter_filter_sub (f g : Z -> bool) (s : jsstring) :
  (forall c, f c = true -> g c = true) ->
  filter f (filter g s) = filter f s.
Proof.
  intros H. induction s as [|c s IH]; [reflexivity|].
  cbn [filter]. destruct (g c) eqn:G.
  - cbn [filter]. now rewrite IH.
  - rewrite IH. destruct (f c) eqn:F; [|reflexivity].
    rewrite (H c F) in G. discriminate.
Qed.

Lemma filter_trim_start (f : Z -> bool) (s : jsstring) :
  (forall c, is_space c = true -> f c = false) ->
  filter f (trim_start s) = filter f s.
Proof.
  intros H. induction s as [|c s IH]; [reflexivity|].
  cbn [trim_start]. destruct (is_space c) eqn:E; [|reflexivity].
  cbn [filter]. now rewrite (H c E).
Qed.

Lemma filter_reverse (f : Z -> bool) (s : jsstring) :
  filter f (rev s) = rev (filter f s).
Proof.
  induction s as [|c s IH]; [reflexivity|].
  cbn [rev filter]. rewrite filter_app, IH. cbn [filter].
  destruct (f c); [reflexivity|]. now rewrite app_nil_r.
Qed.

Lemma filter_trim (f : Z -> bool) (s : jsstring) :
  (forall c, is_space c = true -> f c = false) ->
  filter f (trim s) = filter f s.
Proof.
  intros H. unfold trim.
  rewrite filter_reverse, (filter_trim_start f _ H), filter_reverse, rev_involutive.
  apply filter_trim_start. exact H.
Qed.

Lemma space_not_plain (c : Z) : is_space c = true -> plain c = false.
Proof.
  intros S. destruct (plain c) eqn:P; [|reflexivity].
  rewrite (plain_not_space c P) in S. discriminate.
Qed.

Lemma glyph_not_plain (c : Z) : is_currency_glyph c = true -> plain c = false.
Proof.
  intros S. destruct (plain c) eqn:P; [|reflexivity].
  rewrite (plain_not_glyph c P) in S. discriminate.
Qed.

(** The cleaned string is the digits and dots of the input, in order. *)
Lemma clean_filter (s : jsstring) : clean s = filter plain s.
Proof.
  unfold clean, remove_all.
  rewrite (filter_ext (fun c => negb (negb (is_digit c || (c =? DOT)))) plain)
    by (intros c; apply negb_involutive).
  rewrite (filter_trim plain _ space_not_plain).
  rewrite filter_filter_sub
    by (intros c P; now rewrite (plain_not_space c P)).
  rewrite filter_filter_sub
    by (intros c P; now rewrite (plain_not_comma c P)).
  apply filter_remove_first. exact glyph_not_plain.
Qed.

Lemma filter_plain_plain (s : jsstring) :
  Forall (fun c => plain c = true) (filter plain s).
Proof. apply Forall_forall. intros c Hc. apply filter_In in Hc. tauto. Qed.

Lemma parsePrice_filter (s : jsstring) :
  parsePrice (Str s) = parsePrice (Str (filter plain s)).
Proof.
  unfold parsePrice.
  rewrite (clean_plain _ (filter_plain_plain s)), clean_filter.
  destruct s as [|c s]; [reflexivity|].
  cbn [truthy negb].
  destruct (filter plain (c :: s)) as [|d l] eqn:E; [reflexivity|].
  reflexivity.
Qed.

(** X1: [parsePrice] depends only on the digits and dots of its argument,
    in their order: every other character is dropped before the number
    is read, a minus sign or a decimal comma as well as a currency sign. *)
Theorem parsePrice_reads_digits_and_dots :
  (forall s, clean s = filter plain s) /\
  (forall s, parsePrice (Str s) = parsePrice (Str (filter plain s))) /\
  parsePrice (Str (u "-29.99")) = Num (dbl 29.99) /\
  parsePrice (Str (u "€25,50")) = Num (dbl 2550) /\
  parsePrice (Str (u "1e3")) = Num (dbl 13).
Proof.
  split; [exact clean_filter|]. split; [exact parsePrice_filter|].
  repeat split; vm_compute; reflexivity.
Qed.

(** ** The range of [parsePrice] *)

(** Zero, infinity or a positive double. *)
Definition not_negative (x : number) : Prop :=
  x = pos_zero \/ x = pos_inf \/
  exists m e, x = S754_finite false m e /\ SpecFloat.bounded prec emax m e = true.

Lemma rounds_to_not_negative (v : R) (x : number) : rounds_to v x -> not_negative x.
Proof. intros H. exact (rounds_to_cases v x H). Qed.

Lemma of_int_not_negative (n : Z) : 0 <= n -> not_negative (of_int n).
Proof.
  intros Hn. destruct (Z.eq_dec n 0) as [->|].
  - left. reflexivity.
  - exact (rounds_to_not_negative _ _ (rounds_to_of_int n ltac:(lia))).
Qed.

Lemma div_hundred_not_negative (x : number) :
  not_negative x -> not_negative (fdiv x hundred).
Proof.
  intros [-> | [-> | (m & e & -> & _)]].
  - left. rewrite hundred_eq. reflexivity.
  - right. left. rewrite hundred_eq. reflexivity.
  - rewrite hundred_eq. exact (rounds_to_not_negative _ _ (rounds_to_fdiv m _ e _)).
Qed.

Lemma parsePrice_not_negative (v : jsval) (r : number) :
  parsePrice v = Num r -> not_negative r.
Proof.
  destruct v; try discriminate. intros P.
  destruct (parsePrice_rounds _ _ P) as [[_ ->] | (n & Hn & _ & ->)].
  - right. left. reflexivity.
  - apply div_hundred_not_negative, of_int_not_negative. exact Hn.
Qed.

(** X2: [parsePrice] returns [null] or a number that is not NaN and not
    negative: zero, a positive double or [Infinity]. *)
Theorem parsePrice_is_null_or_not_negative (v : jsval) :
  parsePrice v = Null \/
  exists r, parsePrice v = Num r /\ isNaN r = false /\ fle pos_zero r = true.
Proof.
  destruct (parsePrice_cases v) as [E | [r E]]; [now left|right].
  exists r. split; [exact E|].
  destruct (parsePrice_not_negative v r E) as [-> | [-> | (m & e & -> & _)]];
    split; reflexivity.
Qed.

(** ** Prices that round to zero *)

Lemma digits_value_nonneg (l : jsstring) : forall a,
  all_digits l -> 0 <= a -> 0 <= digits_value a l.
Proof.
  induction l as [|c l IH]; intros a H Ha; [exact Ha|].
  inversion H as [|? ? Hc Hl]; subst. cbn [digits_value].
  apply IH; [exact Hl|]. pose proof (digit_range c Hc). unfold digit_val. lia.
Qed.

Lemma span_digits_fst (s : jsstring) : all_digits (fst (span_digits s)).
Proof.
  induction s as [|c s IH]; [constructor|].
  cbn [span_digits]. destruct (is_digit c) eqn:E; [|constructor].
  destruct (span_digits s) as [ds rest]. cbn [fst] in *. constructor; assumption.
Qed.

Lemma unsigned_decimal_nonneg (s : jsstring) (m x : Z) :
  unsigned_decimal s = Some (m, x) -> 0 <= m.
Proof.
  unfold unsigned_decimal.
  pose proof (span_digits_fst s) as Hi.
  destruct (span_digits s) as [ip r1]. cbn [fst] in Hi.
  assert (Vi : 0 <= digits_value 0 ip) by (apply digits_value_nonneg; [exact Hi|lia]).
  destruct r1 as [|c r2].
  - destruct ip; [discriminate|]. intros E.
    match type of E with Some (?a, _) = _ => replace m with a by congruence end.
    exact Vi.
  - destruct (c =? DOT).
    + pose proof (span_digits_fst r2) as Hf.
      destruct (span_digits r2) as [fp r3]. cbn [fst] in Hf.
      assert (A : 0 <= digits_value 0 (ip ++ fp)).
      { apply digits_value_nonneg; [|lia]. apply Forall_app; split; assumption. }
      destruct ip; [destruct fp; [discriminate|]|]; intros E;
        match type of E with Some (?a, _) = _ => replace m with a by congruence end;
        exact A.
    + destruct ip; [discriminate|]. intros E.
      match type of E with Some (?a, _) = _ => replace m with a by congruence end.
      exact Vi.
Qed.

Lemma of_decimal_not_negative (m x : Z) : 0 <= m -> not_negative (of_decimal false m x).
Proof.
  intros Hm. destruct (Z.eq_dec m 0) as [->|].
  - left. unfold of_decimal, round_ratio. rewrite Z.mul_0_l.
    destruct (0 <=? x); reflexivity.
  - exact (rounds_to_not_negative _ _ (of_decimal_rounds m x ltac:(lia))).
Qed.

(** The number read from a string of digits and dots is NaN or not
    negative. *)
Lemma parseFloat_plain (l : jsstring) :
  Forall (fun c => plain c = true) l ->
  parseFloat l = NaN_ \/ not_negative (parseFloat l).
Proof.
  intros H. unfold parseFloat.
  rewrite trim_start_none
    by (eapply Forall_impl; [|exact H]; apply plain_not_space).
  destruct l as [|c r]; [now left|].
  inversion H as [|? ? Hc _]; subst.
  assert (C : c <> 45 /\ c <> 43 /\ c <> 73).
  { apply plain_cases in Hc. lia. }
  destruct (Z.eqb_spec c 45); [lia|]. destruct (Z.eqb_spec c 43); [lia|].
  unfold unsigned_literal. rewrite INFINITY_WORD_eq. cbn [starts_with].
  destruct (Z.eqb_spec 73 c); [lia|]. cbn [andb].
  destruct (unsigned_decimal (c :: r)) as [[m x]|] eqn:E; [|now left].
  right. apply of_decimal_not_negative. exact (unsigned_decimal_nonneg _ _ _ E).
Qed.

Lemma half_cent_eq : dbl 0.0049 = S754_finite false 5649315372573550 (-60).
Proof. vm_compute. reflexivity. Qed.

Lemma F2R_half_cent :
  (F2R (S754_finite false 5649315372573550 (-60)) <= 491 / 100000)%R.
Proof.
  unfold F2R. change (-60) with (Z.opp 60).
  rewrite Rmult_1_l, pow2_opp, <- pow2_IZR by lia.
  change (2 ^ 60) with 1152921504606846976. lra.
Qed.

(** The nearest integer to a double below one half is zero. *)
Lemma Math_round_below_half (m : positive) (e : Z) :
  (F2R (S754_finite false m e) < 1 / 2)%R ->
  Math_round (S754_finite false m e) = pos_zero.
Proof.
  unfold F2R. rewrite Rmult_1_l. intros Hy.
  assert (He : e < 0).
  { destruct (Z.lt_ge_cases e 0) as [|G]; [assumption|exfalso].
    rewrite <- pow2_IZR, <- mult_IZR in Hy by lia.
    assert (1 <= Z.pos m * 2 ^ e).
    { assert (0 < 2 ^ e) by (apply Z.pow_pos_nonneg; lia). nia. }
    apply IZR_le in H. lra. }
  assert (Hm : 2 * Z.pos m < 2 ^ (- e)).
  { apply lt_IZR. rewrite mult_IZR, pow2_IZR, pow2_opp by lia.
    pose proof (pow2_pos e) as P.
    apply (Rmult_lt_reg_r (pow2 e)); [exact P|].
    replace (/ pow2 e * pow2 e)%R with 1%R by (field; lra). lra. }
  unfold Math_round. destruct (Z.leb_spec 0 e); [lia|].
  replace (1 - e) with (1 + - e) by lia. rewrite Z.pow_add_r by lia.
  change (2 ^ 1) with 2.
  assert (P : 0 < 2 ^ (- e)) by (apply Z.pow_pos_nonneg; lia).
  rewrite Z.div_small by lia. reflexivity.
Qed.

(** X3: a positive amount below half a cent passes the test [price <= 0]
    and is then rounded to zero: the result is the number 0, not [null]. *)
Theorem parsePrice_rounds_small_amounts_to_zero (s : jsstring) :
  isNaN (parseFloat (clean s)) || fle (parseFloat (clean s)) pos_zero = false ->
  fle (parseFloat (clean s)) (dbl 0.0049) = true ->
  parsePrice (Str s) = Num pos_zero.
Proof.
  intros Pos Small.
  assert (Ne : truthy (Str s) = true).
  { destruct s; [|reflexivity]. vm_compute in Pos. discriminate. }
  unfold parsePrice. rewrite Ne, Pos. cbn [negb]. f_equal.
  pose proof (parseFloat_plain (clean s)) as Cases.
  rewrite clean_filter in *. specialize (Cases (filter_plain_plain s)).
  destruct (positive_cases _ Pos) as [E | (m & e & E)]; rewrite E in *.
  { vm_compute in Small. discriminate. }
  assert (Bd : SpecFloat.bounded prec emax m e = true).
  { destruct Cases as [C | [C | [C | (m' & e' & C & B)]]]; try discriminate.
    injection C as <- <-. exact B. }
  rewrite half_cent_eq in Small.
  apply fle_real in Small; [|exact Bd|vm_compute; reflexivity].
  pose proof F2R_half_cent as Hc.
  pose proof (rounds_to_times_hundred m e) as Ry.
  set (x := F2R (S754_finite false m e)) in *.
  assert (X0 : (0 <= x)%R).
  { unfold x, F2R. rewrite Rmult_1_l. pose proof (pow2_pos e).
    assert (0 < IZR (Z.pos m))%R by (apply IZR_lt; lia). nra. }
  destruct (rounds_to_cases _ _ Ry) as [Z0 | [Inf | (my & ey & Ey & _)]].
  - rewrite Z0. rewrite hundred_eq. reflexivity.
  - exfalso. apply (rounds_to_no_overflow _ _ Ry); [|exact Inf].
    pose proof pow2_1023_large. lra.
  - rewrite Ey in *.
    pose proof (rounds_to_rel _ _ _ Ry) as Rel. cbv zeta in Rel.
    set (y := F2R (S754_finite false my ey)) in *.
    pose proof pow2_m1022_small as Sm. literal_2_53.
    rewrite (Math_round_below_half my ey) by (fold y; lra).
    rewrite hundred_eq. reflexivity.
Qed.

(** ["0.001"] gives 0, which prints as ["0"], and ["0"] gives [null]. *)
Lemma parsePrice_of_a_tenth_of_a_cent :
  (isNaN (parseFloat (clean (u "0.001")))
     || fle (parseFloat (clean (u "0.001"))) pos_zero = false) /\
  fle (parseFloat (clean (u "0.001"))) (dbl 0.0049) = true /\
  parsePrice (Str (u "0.001")) = Num pos_zero /\
  parsePrice (Str (Number_toString pos_zero)) = Null.
Proof.
  split; [vm_compute; reflexivity|]. split; [vm_compute; reflexivity|].
  split; [|vm_compute; reflexivity].
  apply (parsePrice_rounds_small_amounts_to_zero (u "0.001")); vm_compute; reflexivity.
Defined.

(** ** The currency of a price text *)

(** X4: [extractCurrency] returns one of five codes; a dollar sign anywhere
    in the text decides for USD whatever else the text holds, the euro
    sign comes next and gives EUR, then the pound gives GBP, the yen JPY
    and the rupee INR; a text without any of the five signs, and a value
    that is not a string, give USD. *)
Theorem extractCurrency_precedence :
  (forall v, In (extractCurrency v) [USD; u "EUR"; u "GBP"; u "JPY"; u "INR"]) /\
  (forall s, includes s [DOLLAR] = true -> extractCurrency (Str s) = USD) /\
  (forall s, includes s [DOLLAR] = false -> includes s [EURO] = true ->
             extractCurrency (Str s) = u "EUR") /\
  (forall s, includes s [DOLLAR] = false -> includes s [EURO] = false ->
             includes s [POUND] = true -> extractCurrency (Str s) = u "GBP") /\
  (forall s, includes s [DOLLAR] = false -> includes s [EURO] = false ->
             includes s [POUND] = false -> includes s [YEN] = true ->
             extractCurrency (Str s) = u "JPY") /\
  (forall s, includes s [DOLLAR] = false -> includes s [EURO] = false ->
             includes s [POUND] = false -> includes s [YEN] = false ->
             includes s [RUPEE] = true -> extractCurrency (Str s) = u "INR") /\
  (forall s, includes s [DOLLAR] = false -> includes s [EURO] = false ->
             includes s [POUND] = false -> includes s [YEN] = false ->
             includes s [RUPEE] = false -> extractCurrency (Str s) = USD) /\
  (forall v, is_string v = false -> extractCurrency v = USD).
Proof.
  split; [|split; [|split; [|split; [|split; [|split; [|split]]]]]].
  - intros v. unfold extractCurrency. destruct v; try (left; reflexivity).
    destruct (negb (truthy (Str s))); [left; reflexivity|].
    destruct (includes s [DOLLAR]); [left; reflexivity|].
    destruct (includes s [EURO]); [right; left; reflexivity|].
    destruct (includes s [POUND]); [right; right; left; reflexivity|].
    destruct (includes s [YEN]); [right; right; right; left; reflexivity|].
    destruct (includes s [RUPEE]); [right; right; right; right; left; reflexivity|].
    left; reflexivity.
  - intros s D. unfold extractCurrency. rewrite D.
    destruct (negb (truthy (Str s))); reflexivity.
  - intros s D E. unfold extractCurrency. rewrite D, E.
    destruct s; [discriminate E|reflexivity].
  - intros s D E P. unfold extractCurrency. rewrite D, E, P.
    destruct s; [discriminate P|reflexivity].
  - intros s D E P Y. unfold extractCurrency. rewrite D, E, P, Y.
    destruct s; [discriminate Y|reflexivity].
  - intros s D E P Y R. unfold extractCurrency. rewrite D, E, P, Y, R.
    destruct s; [discriminate R|reflexivity].
  - intros s D E P Y R. unfold extractCurrency. rewrite D, E, P, Y, R.
    destruct (negb (truthy (Str s))); reflexivity.
  - intros v Hv. destruct v; try reflexivity. discriminate Hv.
Qed.

(** ** The record of [normalizePrice] *)

Lemma js_or_truthy (a b : jsval) : truthy a = true -> a ||| b = a.
Proof. unfold js_or. now intros ->. Qed.

Lemma js_or_falsy (a b : jsval) : truthy a = false -> a ||| b = b.
Proof. unfold js_or. now intros ->. Qed.

(** X5: in a record of [normalizePrice] the price is a number other than
    zero, [salePrice] is either [null] or that same number, and
    [isOnSale] is true only with a [salePrice] equal to the price. *)
Theorem normalizePrice_sale_price_is_the_price (priceData : jsval) :
  normalizePrice priceData <> Null ->
  let r := normalizePrice priceData in
  (exists x, prop r (u "price") = Num x /\ truthy (Num x) = true) /\
  (prop r (u "salePrice") = Null \/ prop r (u "salePrice") = prop r (u "price")) /\
  (prop r (u "isOnSale") = Bool true -> prop r (u "salePrice") = prop r (u "price")).
Proof.
  cbv zeta. unfold normalizePrice.
  destruct (negb (truthy priceData)); [contradiction|].
  set (sale := prop priceData (u "salePrice")).
  set (price := prop priceData (u "price")).
  set (list := prop priceData (u "listPrice")).
  set (cur := prop priceData (u "currency")).
  destruct (parsePrice_cases (sale ||| price ||| list)) as [E | [x E]]; rewrite E.
  { intros N. contradiction. }
  destruct (truthy (Num x)) eqn:T; cbn [negb]; [|contradiction]. intros _.
  fold (price_record (Num x)
          (if truthy list then parsePrice list else Num x)
          (if truthy sale then parsePrice sale else Null)
          (cur ||| Str (extractCurrency (sale ||| price ||| list)))
          (truthy sale && negb (strict_eq sale price))).
  change (prop (price_record ?p ?o ?s ?c ?b) (u "price")) with p.
  change (prop (price_record ?p ?o ?s ?c ?b) (u "salePrice")) with s.
  change (prop (price_record ?p ?o ?s ?c ?b) (u "isOnSale")) with (Bool b).
  split; [exists x; auto|].
  destruct (truthy sale) eqn:S.
  - rewrite !(js_or_truthy sale _ S) in E. rewrite E. split; [now right|reflexivity].
  - split; [now left|]. cbn [andb]. discriminate.
Qed.

Lemma normalizePrice_sale_example :
  normalizePrice (Obj [(u "price", Str (u "39.99")); (u "salePrice", Str (u "29.99"))])
    <> Null /\
  (prop (normalizePrice
           (Obj [(u "price", Str (u "39.99")); (u "salePrice", Str (u "29.99"))]))
        (u "isOnSale") = Bool true ->
   prop (normalizePrice
           (Obj [(u "price", Str (u "39.99")); (u "salePrice", Str (u "29.99"))]))
        (u "salePrice") =
   prop (normalizePrice
           (Obj [(u "price", Str (u "39.99")); (u "salePrice", Str (u "29.99"))]))
        (u "price")).
Proof.
  split; [vm_compute; discriminate|].
  apply (normalizePrice_sale_price_is_the_price
           (Obj [(u "price", Str (u "39.99")); (u "salePrice", Str (u "29.99"))])).
  vm_compute; discriminate.
Defined.

(** X6: [isOnSale] compares the texts of [salePrice] and [price], not the
    prices: two different texts give [isOnSale = true], also when they
    parse to the same number. *)
Theorem isOnSale_compares_texts (p q : jsstring) :
  jsstring_eqb q p = false ->
  truthy (parsePrice (Str q)) = true ->
  prop (normalizePrice (Obj [(u "price", Str p); (u "salePrice", Str q)]))
       (u "isOnSale") = Bool true.
Proof.
  intros D T.
  assert (Q : truthy (Str q) = true).
  { destruct q; [vm_compute in T; discriminate|reflexivity]. }
  unfold normalizePrice.
  change (prop (Obj [(u "price", Str p); (u "salePrice", Str q)]) (u "salePrice"))
    with (Str q).
  change (prop (Obj [(u "price", Str p); (u "salePrice", Str q)]) (u "price"))
    with (Str p).
  change (prop (Obj [(u "price", Str p); (u "salePrice", Str q)]) (u "listPrice"))
    with Undefined.
  change (truthy (Obj [(u "price", Str p); (u "salePrice", Str q)])) with true.
  cbn [negb]. rewrite !(js_or_truthy (Str q) _ Q), T. cbn [negb].
  match goal with
  | |- prop (Obj [(_, ?a); (_, ?b); (_, ?c); (_, ?d); (_, Bool ?e)]) _ = _ =>
    change (Bool e = Bool true)
  end.
  rewrite Q. cbn [strict_eq andb]. rewrite D. reflexivity.
Qed.

Lemma isOnSale_same_price_twice :
  jsstring_eqb (u "29.99") (u "$29.99") = false /\
  truthy (parsePrice (Str (u "29.99"))) = true /\
  parsePrice (Str (u "29.99")) = parsePrice (Str (u "$29.99")) /\
  prop (normalizePrice
          (Obj [(u "price", Str (u "$29.99")); (u "salePrice", Str (u "29.99"))]))
       (u "isOnSale") = Bool true.
Proof.
  repeat (split; [vm_compute; reflexivity|]).
  apply (isOnSale_compares_texts (u "$29.99") (u "29.99")); vm_compute; reflexivity.
Defined.

(** ** A price that is printed and normalized *)

Lemma includes_char (g : Z) (s : jsstring) :
  Forall (fun c => (g =? c) = false) s -> includes s [g] = false.
Proof.
  induction 1 as [|c s Hc _ IH]; [reflexivity|].
  cbn [includes starts_with]. rewrite Hc, IH. reflexivity.
Qed.

Lemma plain_no_glyph (g : Z) (s : jsstring) :
  is_currency_glyph g = true ->
  Forall (fun c => plain c = true) s -> includes s [g] = false.
Proof.
  intros G H. apply includes_char. eapply Forall_impl; [|exact H].
  intros c P. cbv beta. destruct (Z.eqb_spec g c) as [->|]; [|reflexivity].
  rewrite (plain_not_glyph c P) in G. discriminate.
Qed.

Lemma extractCurrency_plain (s : jsstring) :
  Forall (fun c => plain c = true) s -> extractCurrency (Str s) = USD.
Proof.
  intros H. unfold extractCurrency.
  rewrite !(plain_no_glyph _ s) by (exact H || reflexivity).
  destruct (negb (truthy (Str s))); reflexivity.
Qed.

(** The candidate [{ price: p.toString() }] of a parsed price [p]. *)
Lemma normalizePrice_printed (m : positive) (e : Z) :
  Forall (fun c => plain c = true) (Number_toString (S754_finite false m e)) ->
  parsePrice (Str (Number_toString (S754_finite false m e))) =
    Num (S754_finite false m e) ->
  normalizePrice (candidate_price (Str (toString (Num (S754_finite false m e))))) =
  price_record (Num (S754_finite false m e)) (Num (S754_finite false m e)) Null
    (Str USD) false.
Proof.
  intros Pl R. cbn [toString].
  set (str := Number_toString (S754_finite false m e)) in *.
  assert (Q : truthy (Str str) = true).
  { destruct str; [vm_compute in R; discriminate|reflexivity]. }
  unfold normalizePrice, candidate_price.
  change (prop (Obj [(u "price", Str str)]) (u "salePrice")) with Undefined.
  change (prop (Obj [(u "price", Str str)]) (u "price")) with (Str str).
  change (prop (Obj [(u "price", Str str)]) (u "listPrice")) with Undefined.
  change (prop (Obj [(u "price", Str str)]) (u "currency")) with Undefined.
  change (truthy (Obj [(u "price", Str str)])) with true.
  change (Undefined ||| Str str) with (Str str).
  rewrite (js_or_truthy (Str str) _ Q), R.
  change (truthy (Num (S754_finite false m e))) with true.
  change (truthy Undefined) with false. cbn [negb andb].
  change (Undefined ||| Str (extractCurrency (Str str)))
    with (Str (extractCurrency (Str str))).
  rewrite (extractCurrency_plain str Pl). reflexivity.
Qed.

(** X7: the strategies that read a price from the text of an element
    parse it, print the number and normalize the candidate
    [{ price: price.toString() }].  For a parsed price other than zero
    and up to 10^13 the record holds that same price, as [price] and as
    [originalPrice], in USD and not on sale. *)
Theorem printed_price_is_kept (text : jsstring) (r : number) :
  parsePrice (Str text) = Num r ->
  truthy (Num r) = true ->
  fle r (dbl 1e13) = true ->
  normalizePrice (candidate_price (Str (toString (Num r)))) =
  price_record (Num r) (Num r) Null (Str USD) false.
Proof.
  intros P T B.
  destruct (parsePrice_cents text r P T B) as (n & Hn & E).
  destruct (rendering_parses_back n Hn) as (m & e & F & Pl & R).
  rewrite F in E. subst r. exact (normalizePrice_printed m e Pl R).
Qed.

Lemma printed_price_example :
  parsePrice (Str (u "Now $1,299.00")) = Num (dbl 1299) /\
  truthy (Num (dbl 1299)) = true /\
  fle (dbl 1299) (dbl 1e13) = true /\
  normalizePrice (candidate_price (Str (toString (Num (dbl 1299))))) =
  price_record (Num (dbl 1299)) (Num (dbl 1299)) Null (Str USD) false.
Proof.
  repeat (split; [vm_compute; reflexivity|]).
  apply (printed_price_is_kept (u "Now $1,299.00") (dbl 1299)); vm_compute; reflexivity.
Defined.

(** ** The validator *)

Lemma isValid_validatePriceData (priceData : jsval) :
  isValid (validatePriceData priceData) =
  truthy priceData &&
  (truthy (prop priceData (u "price")) && is_number (prop priceData (u "price")) &&
   isValidPriceRange (prop priceData (u "price")) DEFAULT_MIN_PRICE DEFAULT_MAX_PRICE).
Proof.
  unfold validatePriceData.
  destruct (truthy priceData); [|reflexivity]. cbn [negb andb].
  set (price := prop priceData (u "price")).
  destruct (truthy (prop priceData (u "currency"))); cbn [negb];
    destruct (truthy price); cbn [negb orb andb isValid]; try reflexivity;
    destruct (is_number price); cbn [negb orb andb isValid]; try reflexivity;
    destruct (isValidPriceRange price DEFAULT_MIN_PRICE DEFAULT_MAX_PRICE);
    reflexivity.
Qed.

Lemma in_range_number (x : number) :
  fle (dbl 0.01) x = true -> isNaN x = false /\ truthy (Num x) = true.
Proof. destruct x as [s| | |s m e]; intros H; try discriminate H; split; reflexivity. Qed.

(** X8: [validatePriceData] accepts exactly the values whose [price] is a
    number between 0.01 and 1000000, both included.  A missing currency
    adds a warning to the errors of an accepted value and nothing else
    does. *)
Theorem validatePriceData_accepts_the_price_range (priceData : jsval) :
  (isValid (validatePriceData priceData) = true <->
   truthy priceData = true /\
   exists x, prop priceData (u "price") = Num x /\
             fle (dbl 0.01) x = true /\ fle x (dbl 1000000) = true) /\
  (isValid (validatePriceData priceData) = true ->
   errors (validatePriceData priceData) =
   if truthy (prop priceData (u "currency")) then []
   else [u "Currency is missing (using default: USD)"]).
Proof.
  split.
  - rewrite isValid_validatePriceData. split.
    + intros H. apply andb_true_iff in H. destruct H as [D H].
      apply andb_true_iff in H. destruct H as [H V].
      apply andb_true_iff in H. destruct H as [T N].
      split; [exact D|].
      destruct (prop priceData (u "price")) as [| | |x| | |]; try discriminate N.
      exists x. split; [reflexivity|].
      unfold isValidPriceRange in V. destruct (isNaN x); [discriminate|].
      apply andb_true_iff in V. exact V.
    + intros (D & x & -> & L & U).
      destruct (in_range_number x L) as [N T].
      rewrite D, T. unfold isValidPriceRange. rewrite N.
      unfold fge, fle, DEFAULT_MIN_PRICE, DEFAULT_MAX_PRICE in *.
      rewrite L, U. reflexivity.
  - unfold validatePriceData.
    destruct (truthy priceData); [|discriminate]. cbn [negb].
    set (price := prop priceData (u "price")).
    destruct (truthy (prop priceData (u "currency"))); cbn [negb];
      destruct (truthy price); cbn [negb orb isValid]; try discriminate;
      destruct (is_number price); cbn [negb orb isValid]; try discriminate;
      destruct (isValidPriceRange price DEFAULT_MIN_PRICE DEFAULT_MAX_PRICE);
      cbn [negb isValid errors]; try discriminate; reflexivity.
Qed.

(** ** Phrases in a page *)

Lemma test_ci_nil (p : jsstring) : p <> [] -> test_ci p [] = false.
Proof. destruct p; [contradiction|reflexivity]. Qed.

Lemma test_ci_app (p before s : jsstring) :
  test_ci p s = true -> test_ci p (before ++ s) = true.
Proof.
  intros H. induction before as [|c before IH]; [exact H|].
  cbn [app test_ci]. rewrite IH. apply orb_true_r.
Qed.

Lemma starts_with_ci_skip (a p s : jsstring) :
  starts_with_ci (a ++ p) s = true -> test_ci p s = true.
Proof.
  revert s. induction a as [|x a IH]; intros s H.
  - cbn [app] in H. destruct s; cbn [test_ci]; rewrite H; reflexivity.
  - destruct s as [|y s]; [discriminate H|].
    cbn [app starts_with_ci] in H. apply andb_true_iff in H. destruct H as [_ H].
    cbn [test_ci]. rewrite (IH s H). apply orb_true_r.
Qed.

(** A page that matches a phrase matches every end of the phrase. *)
Lemma test_ci_suffix (a p s : jsstring) :
  test_ci (a ++ p) s = true -> test_ci p s = true.
Proof.
  induction s as [|c s IH]; intros H.
  - cbn [test_ci] in H. rewrite orb_false_r in H. exact (starts_with_ci_skip a p [] H).
  - cbn [test_ci] in H. apply orb_true_iff in H. destruct H as [H|H].
    + exact (starts_with_ci_skip a p (c :: s) H).
    + cbn [test_ci]. rewrite (IH H). apply orb_true_r.
Qed.

(** X9: [isOutOfStock] holds of every page that contains one of the five
    phrases anywhere, in any mix of upper and lower case: in the text,
    in a script, or in a review. *)
Theorem isOutOfStock_any_mention (phrase before found rest : jsstring) :
  In phrase outOfStockIndicators ->
  same_ignoring_case found phrase ->
  isOutOfStock (Str (before ++ found ++ rest)) = true.
Proof.
  intros Hin S.
  exact (proj1 (isOutOfStock_phrase _ phrase before found rest Hin eq_refl S)).
Qed.

Lemma same_ignoring_case_upper :
  same_ignoring_case (u "Unavailable") (u "unavailable").
Proof. vm_compute. repeat constructor. Qed.

Lemma isOutOfStock_in_a_review :
  In (u "unavailable") outOfStockIndicators /\
  same_ignoring_case (u "Unavailable") (u "unavailable") /\
  isOutOfStock
    (Str (u "<p>$5.00</p><q>" ++ u "Unavailable" ++ u " in my town, so I ordered here</q>"))
  = true.
Proof.
  split; [vm_compute; tauto|]. split; [exact same_ignoring_case_upper|].
  apply (isOutOfStock_any_mention (u "unavailable")).
  - vm_compute; tauto.
  - exact same_ignoring_case_upper.
Defined.

Lemma three_of_five (a b c d e : bool) :
  (b = true -> d = true) -> (c = true -> a = true) ->
  a || (b || (c || (d || (e || false)))) = a || (d || (e || false)).
Proof.
  destruct a, b, c, d, e; intros H1 H2; try reflexivity;
    try (discriminate (H1 eq_refl)); discriminate (H2 eq_refl).
Qed.

(** X10: three of the five patterns of [isOutOfStock] decide: a page that
    matches [currently unavailable] matches [unavailable], and one that
    matches [temporarily out of stock] matches [out of stock]. *)
Theorem isOutOfStock_three_patterns (html : jsstring) :
  isOutOfStock (Str html) =
  existsb (fun pattern => test_ci pattern html)
    [u "out of stock"; u "unavailable"; u "sold out"].
Proof.
  destruct html as [|x r]; [vm_compute; reflexivity|].
  assert (E1 : u "currently unavailable" = u "currently " ++ u "unavailable")
    by (vm_compute; reflexivity).
  assert (E2 : u "temporarily out of stock" = u "temporarily " ++ u "out of stock")
    by (vm_compute; reflexivity).
  pose proof (test_ci_suffix (u "currently ") (u "unavailable") (x :: r)) as S1.
  pose proof (test_ci_suffix (u "temporarily ") (u "out of stock") (x :: r)) as S2.
  rewrite <- E1 in S1. rewrite <- E2 in S2.
  unfold isOutOfStock, outOfStockIndicators.
  change (negb (truthy (Str (x :: r)))) with false. cbv iota.
  cbn [existsb].
  exact (three_of_five _ _ _ _ _ S1 S2).
Qed.

(** X11: [isCartPrice] and [isRollbackPrice] hold of every page that
    contains one of their phrases, in any mix of cases, and of no empty
    page. *)
Theorem cart_and_rollback_phrases (before found rest : jsstring) :
  (forall phrase, In phrase AmazonExtractor.cartPricePhrases -> same_ignoring_case found phrase ->
                  AmazonExtractor.isCartPrice (before ++ found ++ rest) = true) /\
  (forall phrase, In phrase WalmartExtractor.rollbackPhrases -> same_ignoring_case found phrase ->
                  WalmartExtractor.isRollbackPrice (before ++ found ++ rest) = true) /\
  AmazonExtractor.isCartPrice [] = false /\ WalmartExtractor.isRollbackPrice [] = false.
Proof.
  assert (G : forall phrases phrase,
             In phrase phrases -> same_ignoring_case found phrase ->
             ~ In [] phrases ->
             (if negb (truthy (Str (before ++ found ++ rest))) then false
              else existsb (fun p => test_ci p (before ++ found ++ rest)) phrases) = true).
  { intros phrases phrase Hin S Ne.
    assert (N : before ++ found ++ rest <> []).
    { destruct S as [|x y found phrase]; [contradiction|].
      destruct before; discriminate. }
    destruct (before ++ found ++ rest) eqn:E; [contradiction|].
    change (negb (truthy (Str (z :: l)))) with false. cbv iota.
    apply existsb_exists. exists phrase. split; [exact Hin|].
    rewrite <- E. now apply test_ci_found. }
  split; [|split; [|split; reflexivity]].
  - intros phrase Hin S. apply (G AmazonExtractor.cartPricePhrases phrase Hin S).
    vm_compute. intros [H|[H|[H|[]]]]; discriminate H.
  - intros phrase Hin S. apply (G WalmartExtractor.rollbackPhrases phrase Hin S).
    vm_compute. intros [H|[H|[]]]; discriminate H.
Qed.

(** ** The vendor of a URL *)

Section Vendors.

Lemma starts_with_prefix (p q s : jsstring) :
  starts_with (p ++ q) s = true -> starts_with p s = true.
Proof.
  revert s. induction p as [|x p IH]; intros s H; [reflexivity|].
  destruct s as [|y s]; [discriminate H|].
  cbn [app starts_with] in *. apply andb_true_iff in H. destruct H as [E H].
  rewrite E, (IH s H). reflexivity.
Qed.

Lemma includes_prefix (p q s : jsstring) :
  includes s (p ++ q) = true -> includes s p = true.
Proof.
  induction s as [|c s IH]; intros H.
  - cbn [includes] in *. rewrite orb_false_r in *. exact (starts_with_prefix p q [] H).
  - cbn [includes] in *. apply orb_true_iff in H. destruct H as [H|H].
    + rewrite (starts_with_prefix p q _ H). reflexivity.
    + rewrite (IH H). apply orb_true_r.
Qed.

Lemma to_lower_idempotent (c : Z) : to_lower (to_lower c) = to_lower c.
Proof.
  unfold to_lower.
  destruct ((65 <=? c) && (c <=? 90)) eqn:E; [|now rewrite E].
  apply andb_true_iff in E. destruct E as [L U]. apply Z.leb_le in L, U.
  destruct (Z.leb_spec 65 (c + 32)); destruct (Z.leb_spec (c + 32) 90);
    cbn [andb]; lia.
Qed.

Lemma toLowerCase_idempotent (s : jsstring) : toLowerCase (toLowerCase s) = toLowerCase s.
Proof.
  unfold toLowerCase. rewrite map_map. apply map_ext. exact to_lower_idempotent.
Qed.

Import PriceScraper.

(** X12: [detectVendor] answers [amazon] exactly for the URLs that contain
    [amazon.] in some mix of cases, anywhere, be it in the path or the
    query of another shop's URL (the test for [amazon.com] adds nothing);
    [walmart] exactly for those of the others that contain [walmart.];
    and the answer does not depend on the case of the letters. *)
Theorem detectVendor_markers (url : jsstring) :
  (detectVendor url = AMAZON <-> includes (toLowerCase url) (u "amazon.") = true) /\
  (detectVendor url = WALMART <->
     includes (toLowerCase url) (u "amazon.") = false /\
     includes (toLowerCase url) (u "walmart.") = true) /\
  detectVendor (toLowerCase url) = detectVendor url.
Proof.
  assert (EA : u "amazon.com" = u "amazon." ++ u "com") by (vm_compute; reflexivity).
  assert (EW : u "walmart.com" = u "walmart." ++ u "com") by (vm_compute; reflexivity).
  pose proof (includes_prefix (u "amazon.") (u "com") (toLowerCase url)) as PA.
  pose proof (includes_prefix (u "walmart.") (u "com") (toLowerCase url)) as PW.
  rewrite <- EA in PA. rewrite <- EW in PW.
  assert (D : forall a b : jsstring, jsstring_eqb a b = false -> a = b -> False).
  { intros a b N E. apply (proj2 (jsstring_eqb_eq a b)) in E. congruence. }
  split; [|split]; [| |unfold detectVendor; now rewrite toLowerCase_idempotent].
  - unfold detectVendor.
    destruct (includes (toLowerCase url) (u "amazon.")) eqn:A.
    { rewrite orb_true_r. split; reflexivity. }
    destruct (includes (toLowerCase url) (u "amazon.com")) eqn:AC;
      [specialize (PA eq_refl); discriminate PA|].
    cbn [orb]. split; [|discriminate]. intros C. exfalso. revert C.
    destruct (includes (toLowerCase url) (u "walmart.com")
              || includes (toLowerCase url) (u "walmart."));
      [apply D; vm_compute; reflexivity|].
    destruct (includes (toLowerCase url) (u "target.com"));
      [apply D; vm_compute; reflexivity|].
    destruct (includes (toLowerCase url) (u "bestbuy.com"));
      apply D; vm_compute; reflexivity.
  - unfold detectVendor.
    destruct (includes (toLowerCase url) (u "amazon.")) eqn:A.
    { rewrite orb_true_r. split.
      - intros C. exfalso. revert C. apply D. vm_compute. reflexivity.
      - intros [C _]. discriminate C. }
    destruct (includes (toLowerCase url) (u "amazon.com")) eqn:AC;
      [specialize (PA eq_refl); discriminate PA|].
    cbn [orb].
    destruct (includes (toLowerCase url) (u "walmart.")) eqn:W.
    { rewrite orb_true_r. split; auto. }
    destruct (includes (toLowerCase url) (u "walmart.com")) eqn:WC;
      [specialize (PW eq_refl); discriminate PW|].
    cbn [orb]. split; [|intros [_ C]; discriminate C]. intros C. exfalso. revert C.
    destruct (includes (toLowerCase url) (u "target.com"));
      [apply D; vm_compute; reflexivity|].
    destruct (includes (toLowerCase url) (u "bestbuy.com"));
      apply D; vm_compute; reflexivity.
Qed.

End Vendors.

(** ** What [getPrice] resolves to *)

Section GetPrice.
Context `{H : Host}.
Import PriceScraper.

Lemma dispatch_no_sale (vendor html : jsstring) :
  no_sale (snd (dispatch vendor html)).
Proof.
  unfold dispatch.
  destruct (jsstring_eqb vendor AMAZON); [apply run_strategy_no_sale|].
  destruct (jsstring_eqb vendor WALMART); [apply run_strategy_no_sale|].
  destruct (negb (truthy (run_strategy GenericStrategy html)));
    [|apply run_strategy_no_sale].
  destruct (truthy (run_strategy AmazonStrategy html)); apply run_strategy_no_sale.
Qed.

Lemma isValid_price_range (priceData : jsval) :
  isValid (validatePriceData priceData) = true ->
  exists x, prop priceData (u "price") = Num x /\
            fle (dbl 0.01) x = true /\ fle x (dbl 1000000) = true.
Proof.
  rewrite isValid_validatePriceData. intros V.
  apply andb_true_iff in V. destruct V as [_ V].
  apply andb_true_iff in V. destruct V as [V R].
  apply andb_true_iff in V. destruct V as [_ N].
  destruct (prop priceData (u "price")) as [| | |x| | |]; try discriminate N.
  exists x. split; [reflexivity|].
  unfold isValidPriceRange in R. destruct (isNaN x); [discriminate|].
  apply andb_true_iff in R. exact R.
Qed.

(** The fields of the record of an accepted price. *)
Lemma assembled_fields (url vendor : jsstring) (p o s c : jsval) (b : bool)
  (v1 v2 v3 : jsval) :
  let r :=
    Obj (set_prop
           (set_prop
              (set_prop
                 (spread [ (u "url", Str url); (u "vendor", Str vendor) ]
                    (price_record p o s c b))
                 (u "available") v1)
              (u "scrapedAt") v2)
           (u "warnings") v3) in
  prop r (u "url") = Str url /\ prop r (u "vendor") = Str vendor /\
  prop r (u "price") = p /\ prop r (u "originalPrice") = o /\
  prop r (u "salePrice") = s /\ prop r (u "currency") = c /\
  prop r (u "isOnSale") = Bool b /\ prop r (u "available") = v1 /\
  prop r (u "error") = Undefined.
Proof. vm_compute. repeat split. Qed.

Lemma unavailable_available (url vendor error : jsstring) :
  prop (unavailable url vendor error) (u "available") = Bool false.
Proof. vm_compute. reflexivity. Qed.

Lemma assemble_available (url vendor : jsstring) (priceData : jsval) :
  no_sale priceData ->
  prop (assemble url vendor priceData) (u "available") = Bool true ->
  exists x,
    prop (assemble url vendor priceData) (u "price") = Num x /\
    fle (dbl 0.01) x = true /\ fle x (dbl 1000000) = true /\
    prop (assemble url vendor priceData) (u "isOnSale") = Bool false /\
    prop (assemble url vendor priceData) (u "salePrice") = Null /\
    prop (assemble url vendor priceData) (u "url") = Str url /\
    prop (assemble url vendor priceData) (u "vendor") = Str vendor /\
    prop (assemble url vendor priceData) (u "error") = Undefined.
Proof.
  intros [-> | (x & o & c & -> & T)].
  { rewrite assemble_without_price by reflexivity.
    rewrite unavailable_available. discriminate. }
  unfold assemble.
  change (truthy (price_record (Num x) o Null c false)) with true. cbn [negb].
  destruct (isValid (validatePriceData (price_record (Num x) o Null c false))) eqn:V;
    cbn [negb].
  - intros _. destruct (isValid_price_range _ V) as (x' & E & L & U).
    change (prop (price_record (Num x) o Null c false) (u "price")) with (Num x) in E.
    injection E as <-.
    match goal with
    | |- context [Obj (set_prop (set_prop (set_prop _ _ ?v1) _ ?v2) _ ?v3)] =>
      destruct (assembled_fields url vendor (Num x) o Null c false v1 v2 v3)
        as (F1 & F2 & F3 & F4 & F5 & F6 & F7 & F8 & F9)
    end.
    exists x. rewrite F1, F2, F3, F5, F7, F9. auto 10.
  - intros A. exfalso. revert A.
    match goal with
    | |- prop (Obj [_; _; _; (?k, ?v); _]) _ = _ -> _ =>
      change (v = Bool true -> False)
    end.
    discriminate.
Qed.

(** X13: a record of [getPrice] with [available: true] carries a price
    between 0.01 and 1000000, is never on sale ([isOnSale] is false and
    [salePrice] is [null]), names the URL asked for and the vendor
    detected from it, and has no [error]. *)
Theorem getPrice_available_record (url options : jsval) (a : answer) :
  getPrice url options = Ok a ->
  prop (record a) (u "available") = Bool true ->
  exists (s : jsstring) (x : number),
    url = Str s /\
    prop (record a) (u "url") = Str s /\
    prop (record a) (u "vendor") = Str (detectVendor s) /\
    prop (record a) (u "price") = Num x /\
    fle (dbl 0.01) x = true /\ fle x (dbl 1000000) = true /\
    prop (record a) (u "isOnSale") = Bool false /\
    prop (record a) (u "salePrice") = Null /\
    prop (record a) (u "error") = Undefined.
Proof.
  unfold getPrice. destruct url as [| | | |s| |]; try discriminate.
  destruct (negb (truthy (Str s))); [discriminate|].
  destruct (fetchHtml s (default_options options)) as [html|e]; [|discriminate].
  cbn [bind]. destruct (negb (truthy (Str html))); [discriminate|].
  destruct (out_of_stock_gate html (default_options options)) as [gate|e];
    [|discriminate].
  cbn [bind]. destruct gate.
  - intros [= <-]. cbn [record]. rewrite unavailable_available. discriminate.
  - pose proof (dispatch_no_sale (detectVendor s) html) as NS.
    destruct (dispatch (detectVendor s) html) as [called priceData].
    cbn [snd] in NS. intros [= <-]. cbn [record]. intros A.
    destruct (assemble_available s (detectVendor s) priceData NS A)
      as (x & P & L & U & S1 & S2 & F1 & F2 & F3).
    exists s, x. auto 12.
Qed.

(** X14: [getPrice] rejects an argument that is not a string and the empty
    string before anything is fetched, whatever the options. *)
Theorem getPrice_requires_a_url (url options : jsval) :
  is_string url = false \/ url = Str [] ->
  getPrice url options = Throw (u "Valid URL is required").
Proof.
  intros [N | ->]; [|reflexivity].
  destruct url; try reflexivity. discriminate N.
Qed.

End GetPrice.

Lemma getPrice_available_example :
  exists a,
    @PriceScraper.getPrice Fixture.host (Str (Fixture.page_url Fixture.amazon_style_page)) Undefined
      = Ok a /\
    prop (PriceScraper.record a) (u "available") = Bool true /\
    prop (PriceScraper.record a) (u "price") = Num (dbl 19.99) /\
    prop (PriceScraper.record a) (u "isOnSale") = Bool false.
Proof.
  assert (G : exists a,
             @PriceScraper.getPrice Fixture.host
               (Str (Fixture.page_url Fixture.amazon_style_page)) Undefined = Ok a /\
             prop (PriceScraper.record a) (u "available") = Bool true /\
             prop (PriceScraper.record a) (u "price") = Num (dbl 19.99)).
  { eexists. split; [vm_compute; reflexivity|]. split; vm_compute; reflexivity. }
  destruct G as (a & G & A & P). exists a.
  destruct (@getPrice_available_record Fixture.host _ _ a G A)
    as (s & x & _ & _ & _ & _ & _ & _ & S & _).
  auto.
Defined.

Lemma getPrice_of_a_number :
  (is_string (Num (dbl 42)) = false \/ Num (dbl 42) = Str []) /\
  @PriceScraper.getPrice Fixture.host (Num (dbl 42)) Undefined = Throw (u "Valid URL is required").
Proof.
  split; [left; reflexivity|].
  apply (@getPrice_requires_a_url Fixture.host). left. reflexivity.
Defined.

(** ** Prices that are JSON numbers *)

Lemma normalizePrice_number (price currency : jsval) :
  is_string price = false ->
  normalizePrice (Obj [(u "price", price); (u "currency", currency)]) = Null.
Proof.
  intros N. unfold normalizePrice.
  change (prop (Obj [(u "price", price); (u "currency", currency)]) (u "salePrice"))
    with Undefined.
  change (prop (Obj [(u "price", price); (u "currency", currency)]) (u "price"))
    with price.
  change (prop (Obj [(u "price", price); (u "currency", currency)]) (u "listPrice"))
    with Undefined.
  change (truthy (Obj [(u "price", price); (u "currency", currency)])) with true.
  cbn [negb]. change (Undefined ||| price) with price.
  assert (E : parsePrice (price ||| Undefined) = Null).
  { unfold js_or. destruct (truthy price); [|reflexivity].
    destruct price; try reflexivity. discriminate N. }
  rewrite E. reflexivity.
Qed.

Section NumericJson.
Context `{H : Host}.

(** X15: in [extractFromJsonLd] the first JSON-LD block that holds a price
    ends the search, also when that price is a JSON number, which
    [normalizePrice] rejects: the method returns [null] and the blocks
    after it are not read. *)
Theorem jsonld_number_price_ends_the_search
  (doc : document) (script : element) (rest : list element)
  (content : jsstring) (props : list (jsstring * jsval)) (x : number) :
  select doc JSON_LD_SCRIPTS = script :: rest ->
  inner_html doc [script] = Str content ->
  content <> [] ->
  JSON_parse content = Ok (Obj props) ->
  lookup (u "price") props = Num x ->
  truthy (Num x) = true ->
  GenericExtractor.extractFromJsonLd doc = Null.
Proof.
  intros S I N P L T. unfold GenericExtractor.extractFromJsonLd.
  rewrite S. cbn [for_each]. rewrite I.
  assert (Tc : truthy (Str content) = true) by (destruct content; [contradiction|reflexivity]).
  rewrite Tc, P. cbn [bind].
  rewrite findPriceInJsonLd_unfold.
  change (negb (truthy (Obj props)) || negb (is_object (Obj props))) with false.
  cbv iota.
  assert (Hp : GenericExtractor.has_price (Obj props) = true).
  { unfold GenericExtractor.has_price. cbn [prop]. rewrite L. reflexivity. }
  rewrite Hp. unfold GenericExtractor.price_here. cbn [prop]. rewrite L.
  rewrite (js_or_truthy (Num x) _ T).
  match goal with
  | |- context [truthy (Obj ?l)] => change (truthy (Obj l)) with true
  end.
  cbv iota. cbn [try_catch returned].
  apply normalizePrice_number. reflexivity.
Qed.

(** X16: the first of the three embedded-JSON patterns of the Amazon
    strategy that matches ends [extractFromJsonData] when its block
    carries an amount: an amount that is a JSON number is rejected by
    [normalizePrice] and the method returns [null], without a look at
    the other patterns or the JSON-LD blocks. *)
Theorem amazon_number_amount_ends_the_search
  (doc : document) (html group : jsstring) (props : list (jsstring * jsval))
  (x : number) :
  match_key_object "buyingPrice" html = Some group ->
  JSON_parse group = Ok (Obj props) ->
  lookup (u "amount") props = Num x ->
  truthy (Num x) = true ->
  AmazonExtractor.extractFromJsonData doc html = Null.
Proof.
  intros M P L T. unfold AmazonExtractor.extractFromJsonData, AmazonExtractor.jsonPatterns.
  cbn [for_each]. rewrite M, P. cbn [bind get prop]. rewrite L.
  rewrite !(js_or_truthy (Num x) _ T), T.
  cbn [try_catch returned].
  apply normalizePrice_number. reflexivity.
Qed.

End NumericJson.

Lemma jsonld_number_price_example :
  @GenericExtractor.extractFromJsonLd NumericPrices.host tt = Null /\
  normalizePrice
    (GenericExtractor.findPriceInJsonLd (Obj [(u "price", Str (u "19.99"))]))
  = price_record (Num (dbl 19.99)) (Num (dbl 19.99)) Null (Str USD) false.
Proof.
  split; [|vm_compute; reflexivity].
  apply (@jsonld_number_price_ends_the_search NumericPrices.host tt 0%nat [1%nat]
           NumericPrices.first_block [(u "price", Num (dbl 29.99))] (dbl 29.99)).
  - vm_compute; reflexivity.
  - reflexivity.
  - vm_compute; discriminate.
  - vm_compute; reflexivity.
  - vm_compute; reflexivity.
  - reflexivity.
Defined.

Lemma amazon_number_amount_example :
  @AmazonExtractor.extractFromJsonData NumericPrices.host tt NumericPrices.html = Null.
Proof.
  apply (@amazon_number_amount_ends_the_search NumericPrices.host tt
           NumericPrices.html NumericPrices.amount_block
           [(u "amount", Num (dbl 29.99))] (dbl 29.99)).
  - vm_compute; reflexivity.
  - vm_compute; reflexivity.
  - vm_compute; reflexivity.
  - reflexivity.
Defined.

(** The candidate of a printed price with a currency and no list price. *)
Lemma normalizePrice_printed_in (currency : jsval) (m : positive) (e : Z) :
  truthy currency = true ->
  Forall (fun c => plain c = true) (Number_toString (S754_finite false m e)) ->
  parsePrice (Str (Number_toString (S754_finite false m e))) =
    Num (S754_finite false m e) ->
  normalizePrice
    (candidate_price_list_currency
       (Str (toString (Num (S754_finite false m e)))) Null currency) =
  price_record (Num (S754_finite false m e)) (Num (S754_finite false m e)) Null
    currency false.
Proof.
  intros C Pl R. cbn [toString].
  set (str := Number_toString (S754_finite false m e)) in *.
  assert (Q : truthy (Str str) = true).
  { destruct str; [vm_compute in R; discriminate|reflexivity]. }
  unfold normalizePrice, candidate_price_list_currency.
  set (d := Obj [(u "price", Str str); (u "listPrice", Null); (u "currency", currency)]).
  change (prop d (u "salePrice")) with Undefined.
  change (prop d (u "price")) with (Str str).
  change (prop d (u "listPrice")) with Null.
  change (prop d (u "currency")) with currency.
  change (truthy d) with true.
  change (Undefined ||| Str str) with (Str str).
  rewrite (js_or_truthy (Str str) _ Q), R.
  change (truthy (Num (S754_finite false m e))) with true.
  change (truthy Undefined) with false. change (truthy Null) with false.
  cbn [negb andb]. rewrite (js_or_truthy currency _ C). reflexivity.
Qed.

Section WalmartState.
Context `{H : Host}.

(** X17: the Walmart search prints the price it finds before it is
    normalized, so a price that is a JSON number is accepted: for a
    state object whose [price] is a number that [parsePrice] can return
    (two decimals, not zero, up to 10^13) and that has no currency and no
    list price, the result is the record of that price in USD. *)
Theorem walmart_state_number_price
  (props : list (jsstring * jsval)) (text : jsstring) (r : number) :
  parsePrice (Str text) = Num r ->
  truthy (Num r) = true ->
  fle r (dbl 1e13) = true ->
  lookup (u "price") props = Num r ->
  lookup (u "currency") props = Undefined ->
  lookup (u "wasPrice") props = Undefined ->
  lookup (u "listPrice") props = Undefined ->
  WalmartExtractor.findPriceInState (Obj props) =
  Ok (price_record (Num r) (Num r) Null (Str USD) false).
Proof.
  intros P T B Lp Lc Lw Ll.
  destruct (parsePrice_cents text r P T B) as (n & Hn & E).
  destruct (rendering_parses_back n Hn) as (m & e & F & Pl & R).
  rewrite F in E. subst r.
  rewrite findPriceInState_unfold.
  change (negb (truthy (Obj props)) || negb (is_object (Obj props))) with false.
  cbv iota. unfold WalmartExtractor.price_property. cbn [prop].
  rewrite Lp, Lc, Lw, Ll.
  cbn [defined is_object bind prop].
  change (truthy (Num (S754_finite false m e))) with true. cbv iota.
  change (Undefined ||| Str USD) with (Str USD).
  change (Undefined ||| Undefined ||| Undefined) with Undefined.
  change (toString_or_null Undefined) with Null.
  rewrite (normalizePrice_printed_in (Str USD) m e) by (reflexivity || assumption).
  reflexivity.
Qed.

End WalmartState.

Lemma walmart_state_number_example :
  WalmartExtractor.findPriceInState
    (Obj [(u "name", Str (u "Mug")); (u "price", Num (dbl 12.99))]) =
  Ok (price_record (Num (dbl 12.99)) (Num (dbl 12.99)) Null (Str USD) false).
Proof.
  apply (@walmart_state_number_price NumericPrices.host
           [(u "name", Str (u "Mug")); (u "price", Num (dbl 12.99))]
           (u "$12.99") (dbl 12.99)); vm_compute; reflexivity.
Defined.

(** ** Price changes *)

Lemma fsub_same (s : bool) (m : positive) (e : Z) :
  fsub (S754_finite s m e) (S754_finite s m e) = S754_zero false.
Proof.
  unfold fsub, SFsub. rewrite Z.min_id.
  destruct (shl_align m e e) as [m' e'] eqn:A. cbn [fst].
  rewrite Z.sub_diag. reflexivity.
Qed.

(** X18: [isReasonablePriceChange] accepts every change when one of the
    prices is zero or NaN, and an unchanged price under any threshold
    that is not negative; the change is measured against the old price,
    so at the threshold of 50 a price that doubles is refused and a
    price that halves is accepted. *)
Theorem isReasonablePriceChange_cases :
  (forall o n t, truthy (Num o) = false \/ truthy (Num n) = false ->
                 isReasonablePriceChange o n t = true) /\
  (forall s m e t, fle pos_zero t = true ->
                   isReasonablePriceChange (S754_finite s m e) (S754_finite s m e) t
                   = true) /\
  isReasonablePriceChange (dbl 100) (dbl 200) DEFAULT_THRESHOLD = false /\
  isReasonablePriceChange (dbl 200) (dbl 100) DEFAULT_THRESHOLD = true.
Proof.
  split; [|split; [|split; vm_compute; reflexivity]].
  - intros o n t [E|E]; unfold isReasonablePriceChange; rewrite E; cbn [negb];
      [reflexivity|rewrite orb_true_r; reflexivity].
  - intros s m e t T. unfold isReasonablePriceChange.
    cbn [truthy negb orb]. rewrite fsub_same.
    replace (fmul (SFabs (fdiv (S754_zero false) (S754_finite s m e))) hundred)
      with pos_zero; [exact T|].
    rewrite hundred_eq. destruct s; reflexivity.
Qed.

(** ** Requests and retries *)

Section Retries.
Import Requests.

(** The delays of an exponential backoff: [delay], [2 * delay], ..., each
    a product in doubles. *)
Definition backoff (delay : number) (k : nat) : list number :=
  map (fun i => fmul delay (Math_pow2 (Z.of_nat i))) (seq 0 k).

(** The request number [k] gives no page. *)
Definition fails (network : nat -> outcome jsval) (k : nat) : Prop :=
  exists error, (data <- network k ;; read_response data) = Throw error.

Lemma backoff_S (delay : number) (k : nat) :
  backoff delay (S k) = backoff delay k ++ [fmul delay (Math_pow2 (Z.of_nat k))].
Proof. unfold backoff. rewrite seq_S, map_app. reflexivity. Qed.

(** What [attempts] leaves behind, from a state where the requests made
    so far have all failed. *)
Definition settled_log (network : nat -> outcome jsval) (retries : Z)
  (delay : number) (out : outcome jsval * log) : Prop :=
  let '(result, l) := out in
  (requests l <= Z.to_nat retries)%nat /\
  slept l = backoff delay (requests l - 1) /\
  (forall k, (S k < requests l)%nat -> fails network k) /\
  match result with
  | Ok html =>
    exists k, requests l = S k /\
              (data <- network k ;; read_response data) = Ok html
  | Throw _ =>
    requests l = Z.to_nat retries /\
    (forall k, (k < requests l)%nat -> fails network k)
  end.

Lemma attempts_settle (network : nat -> outcome jsval) (retries : Z)
  (delay : number) (left : nat) : forall fuel attempt lastError l,
  retries < 2 ^ 53 ->
  (left < fuel)%nat ->
  (left + requests l = Z.to_nat retries)%nat ->
  attempt = Z.of_nat (requests l) + 1 ->
  slept l = backoff delay (match left with O => requests l - 1 | _ => requests l end) ->
  (forall k, (k < requests l)%nat -> fails network k) ->
  exists out,
    attempts network retries delay fuel attempt lastError l = Some out /\
    settled_log network retries delay out.
Proof.
  induction left as [|left IH]; intros fuel attempt lastError l Hr Hfu Hn Ha Hs Hf;
    (destruct fuel as [|fuel]; [lia|]); cbn [attempts].
  - cbn [Nat.add] in Hn.
    destruct (Z.leb_spec attempt retries) as [L|_]; [lia|].
    eexists. split; [reflexivity|]. cbn [settled_log].
    split; [lia|]. split; [exact Hs|]. split; [intros k Hk; apply Hf; lia|].
    split; [lia|exact Hf].
  - destruct (Z.leb_spec attempt retries) as [_|G]; [|lia].
    destruct (data <- network (requests l) ;; read_response data) as [html|error] eqn:E.
    + eexists. split; [reflexivity|]. cbn [settled_log requests slept].
      split; [lia|]. split; [rewrite Hs; f_equal; lia|].
      split; [intros k Hk; apply Hf; lia|].
      exists (requests l). split; [reflexivity|exact E].
    + assert (I : increment attempt = attempt + 1).
      { unfold increment. destruct (Z.ltb_spec attempt (2 ^ 53)); [reflexivity|lia]. }
      rewrite I. apply IH.
      * exact Hr.
      * lia.
      * destruct (attempt <? retries); cbn [requests]; lia.
      * destruct (attempt <? retries); cbn [requests]; lia.
      * assert (R : retries = Z.of_nat (S left + requests l)) by lia.
        destruct (Z.ltb_spec attempt retries) as [L|G]; cbn [requests slept].
        -- destruct left as [|left']; [lia|].
           rewrite backoff_S, Hs. f_equal. f_equal. f_equal. f_equal. lia.
        -- destruct left as [|left']; [|lia].
           rewrite Hs. f_equal. lia.
      * intros k Hk.
        assert (Hk' : (k < S (requests l))%nat)
          by (destruct (attempt <? retries); cbn [requests] in Hk; exact Hk).
        destruct (Nat.eq_dec k (requests l)) as [->|N].
        -- exists error. exact E.
        -- apply Hf. lia.
Qed.

(** From [2^53] on the counter stays where it is: with such a
    [maxRetries] and requests that keep failing, the loop does not
    end. *)
Lemma attempts_never_end (network : nat -> outcome jsval) (retries : Z)
  (delay : number) (fuel : nat) : forall lastError l,
  2 ^ 53 <= retries ->
  (forall k, fails network k) ->
  attempts network retries delay fuel (2 ^ 53) lastError l = None.
Proof.
  induction fuel as [|fuel IH]; intros lastError l Hr F; [reflexivity|].
  cbn [attempts].
  destruct (Z.leb_spec (2 ^ 53) retries) as [_|]; [|lia].
  destruct (F (requests l)) as [error ->].
  change (increment (2 ^ 53)) with (2 ^ 53).
  apply IH; assumption.
Qed.

(** X19: for a whole number [maxRetries] below 2^53, [fetchHtml] sends
    at most [maxRetries] requests, one after the other, until one gives
    a page; it returns the page of the first that does, and throws when
    all [maxRetries] have failed.  After the failed request number [i],
    unless it was the last, it sleeps [retryDelay * Math.pow(2, i - 1)],
    a product in doubles; it never sleeps before the first request or
    after the last. *)
Theorem fetchHtml_retries (network : nat -> outcome jsval) (retries : Z)
  (delay : number) (fuel : nat) :
  retries < 2 ^ 53 ->
  (Z.to_nat retries < fuel)%nat ->
  exists result l,
    Requests.fetchHtml network retries delay fuel = Some (result, l) /\
    (requests l <= Z.to_nat retries)%nat /\
    slept l = backoff delay (requests l - 1) /\
    (forall k, (S k < requests l)%nat -> fails network k) /\
    match result with
    | Ok html =>
      exists k, requests l = S k /\
                (data <- network k ;; read_response data) = Ok html
    | Throw _ =>
      requests l = Z.to_nat retries /\
      (forall k, (k < requests l)%nat -> fails network k)
    end.
Proof.
  intros Hr Hfu. unfold Requests.fetchHtml.
  destruct (attempts_settle network retries delay (Z.to_nat retries) fuel 1 None
              {| requests := 0; slept := [] |} Hr Hfu) as ([result l] & E & S);
    cbn [requests slept].
  - lia.
  - reflexivity.
  - destruct (Z.to_nat retries); reflexivity.
  - intros k Hk. lia.
  - exists result, l. split; [exact E|exact S].
Qed.

End Retries.

(** With the default settings and a network that is down, three requests
    are sent, with pauses of one and two seconds. *)
Lemma fetchHtml_when_the_network_is_down :
  3 < 2 ^ 53 /\ (Z.to_nat 3 < 4)%nat /\
  Requests.fetchHtml (fun _ => Throw (u "ECONNREFUSED")) 3 (dbl 1000) 4 =
  Some (Throw (u "Failed to fetch HTML after 3 attempts: ECONNREFUSED"),
        {| Requests.requests := 3; Requests.slept := [dbl 1000; dbl 2000] |}) /\
  exists result l,
    Requests.fetchHtml (fun _ => Throw (u "ECONNREFUSED")) 3 (dbl 1000) 4 =
    Some (result, l) /\
    (Requests.requests l <= Z.to_nat 3)%nat /\
    Requests.slept l = backoff (dbl 1000) (Requests.requests l - 1).
Proof.
  split; [lia|]. split; [vm_compute; lia|]. split; [vm_compute; reflexivity|].
  destruct (fetchHtml_retries (fun _ => Throw (u "ECONNREFUSED")) 3 (dbl 1000) 4
              ltac:(lia) ltac:(vm_compute; lia)) as (result & l & E & Le & Sl & _).
  exists result, l. split; [exact E|]. split; [exact Le|exact Sl].
Defined.

(** From 1024 doublings on, the delay is [Infinity]. *)
Lemma the_delay_overflows :
  Requests.Math_pow2 1023 = S754_finite false 4503599627370496 971 /\
  Requests.Math_pow2 1024 = pos_inf /\
  fmul (dbl 1000) (Requests.Math_pow2 1015) = pos_inf.
Proof. repeat split; vm_compute; reflexivity. Qed.

Section Settings.
Import Requests.

(** ** The constructor *)

Lemma js_or_default (a d : jsval) : truthy d = true -> truthy (a ||| d) = true.
Proof. intros D. unfold js_or. destruct (truthy a) eqn:A; assumption. Qed.

(** X20: the constructor throws without an API key; otherwise every
    setting it keeps is truthy: an option that is missing or falsy is
    replaced by its default, so [maxRetries: 0] gives three attempts and
    [retryDelay: 0] a delay of one second. *)
Theorem constructor_defaults (env_url apiKey options : jsval) :
  (truthy apiKey = false ->
   constructor env_url apiKey options = Throw (u "Decodo API key is required")) /\
  (forall s, constructor env_url apiKey options = Ok s ->
             Requests.apiKey s = apiKey /\ truthy (Requests.apiUrl s) = true /\
             truthy (maxRetries s) = true /\ truthy (retryDelay s) = true /\
             truthy (timeout s) = true) /\
  constructor Undefined (Str (u "key"))
    (Obj [(u "maxRetries", Num pos_zero); (u "retryDelay", Num pos_zero)]) =
  Ok {| apiKey := Str (u "key");
        apiUrl := Str (u "https://api.decodo.com/v1");
        maxRetries := Num (dbl 3);
        retryDelay := Num (dbl 1000);
        timeout := Num (dbl 30000) |}.
Proof.
  split; [|split; [|vm_compute; reflexivity]].
  - intros K. unfold constructor. rewrite K. reflexivity.
  - intros s. unfold constructor.
    destruct (negb (truthy apiKey)); [discriminate|].
    destruct (get (PriceScraper.default_options options) (u "apiUrl")) as [a|];
      [|discriminate].
    destruct (get (PriceScraper.default_options options) (u "maxRetries")) as [b|];
      [|discriminate].
    destruct (get (PriceScraper.default_options options) (u "retryDelay")) as [c|];
      [|discriminate].
    destruct (get (PriceScraper.default_options options) (u "timeout")) as [d|];
      [|discriminate].
    cbn [bind]. intros [= <-]. cbn [Requests.apiKey Requests.apiUrl maxRetries retryDelay timeout].
    split; [reflexivity|].
    repeat split; apply js_or_default; reflexivity.
Qed.

End Settings.

(** ** Batches *)

Section Batches.
Context `{H : Host}.
Import Requests.

(** X21: [getPricesBatch] rejects what is not an array, and for an array
    it never rejects: it resolves to one entry per URL, in the order of
    the URLs; the entry of a URL is the record [getPrice] resolves to, or
    for a rejection a record with that URL, the message of the error and
    [available: false]. *)
Theorem getPricesBatch_settles_each_url (options : jsval) :
  (forall urls, (forall us, urls <> Arr us) ->
                getPricesBatch urls options = Throw (u "URLs must be an array")) /\
  (forall us,
     exists rs,
       getPricesBatch (Arr us) options = Ok rs /\
       List.length rs = List.length us /\
       forall i url,
         nth_error us i = Some url ->
         exists r,
           nth_error rs i = Some r /\
           match PriceScraper.getPrice url options with
           | Ok a => r = PriceScraper.record a
           | Throw message =>
             prop r (u "url") = url /\
             prop r (u "available") = Bool false /\
             prop r (u "error") =
               Str (if truthy (Str message) then message else u "Unknown error")
           end).
Proof.
  split.
  - intros urls N. destruct urls as [| |b|x|s|ps|us]; try reflexivity.
    exfalso. exact (N us eq_refl).
  - intros us. exists (map (settled options) us).
    split; [reflexivity|]. split; [apply length_map|].
    intros i url E. exists (settled options url).
    split; [exact (map_nth_error _ _ _ E)|].
    unfold settled. destruct (PriceScraper.getPrice url options) as [a|message];
      [reflexivity|].
    split; [reflexivity|]. split; [reflexivity|].
    change (prop (Obj [(u "url", url);
                       (u "error", Str message ||| Str (u "Unknown error"));
                       (u "available", Bool false)]) (u "error"))
      with (Str message ||| Str (u "Unknown error")).
    unfold js_or. destruct (truthy (Str message)); reflexivity.
Qed.

End Batches.

(** ** The search of a JSON-LD tree *)

(** [node] is [root] or lies below it: a property value or an array
    element, at any depth. *)
Inductive inside : jsval -> jsval -> Prop :=
| inside_here (v : jsval) : inside v v
| inside_child (v c node : jsval) :
    In c (children v) -> inside c node -> inside v node.

(** No object at or below [v] has a price of its own or under [offers]. *)
Definition no_price_inside (v : jsval) : Prop :=
  forall node, inside v node -> is_node node = true ->
               GenericExtractor.has_price node = false.

Lemma price_here_not_null (obj : jsval) : GenericExtractor.price_here obj <> Null.
Proof. unfold GenericExtractor.price_here. discriminate. Qed.

Lemma findPriceInJsonLd_truthy (obj : jsval) :
  truthy (GenericExtractor.findPriceInJsonLd obj) = false ->
  GenericExtractor.findPriceInJsonLd obj = Null.
Proof.
  destruct (findPriceInJsonLd_result obj) as [E | [node E]]; rewrite E; [reflexivity|].
  discriminate.
Qed.

Lemma first_in_elems_null (rec : jsval -> jsval) (xs : list jsval) :
  (forall v, truthy (rec v) = false -> rec v = Null) ->
  (first_in_elems rec xs = Null <->
   forall c, In c xs -> is_object c = true -> rec c = Null).
Proof.
  intros T. induction xs as [|v l IH]; cbn [first_in_elems].
  - split; [intros _ c []|reflexivity].
  - destruct (is_object v) eqn:O.
    + destruct (truthy (rec v)) eqn:R.
      * split.
        -- intros E. rewrite E in R. discriminate R.
        -- intros A. rewrite (A v (or_introl eq_refl) O) in R. discriminate R.
      * rewrite IH. split.
        -- intros A c [<-|Hc] Oc; [exact (T _ R)|exact (A c Hc Oc)].
        -- intros A c Hc. apply A. now right.
    + rewrite IH. split.
      * intros A c [<-|Hc] Oc; [congruence|exact (A c Hc Oc)].
      * intros A c Hc. apply A. now right.
Qed.

Lemma not_node_children (v : jsval) : is_node v = false -> children v = [].
Proof. destruct v; try reflexivity; discriminate. Qed.

Lemma inside_not_node (v node : jsval) :
  is_node v = false -> inside v node -> node = v.
Proof.
  intros N I. destruct I as [|v c node Hc _]; [reflexivity|].
  rewrite (not_node_children v N) in Hc. contradiction.
Qed.

Lemma is_object_node (v : jsval) : is_object v = true -> v = Null \/ is_node v = true.
Proof. destruct v; try discriminate; auto. Qed.

Lemma is_node_object (v : jsval) : is_node v = true -> is_object v = true.
Proof. destruct v; try discriminate; reflexivity. Qed.

Lemma findPriceInJsonLd_null_iff (obj : jsval) :
  GenericExtractor.findPriceInJsonLd obj = Null <-> no_price_inside obj.
Proof.
  induction obj as [obj IH] using jsval_children_ind.
  rewrite findPriceInJsonLd_unfold.
  destruct (is_node obj) eqn:N.
  - rewrite (node_searched obj N).
    destruct (GenericExtractor.has_price obj) eqn:P.
    + split; [intros E; now apply price_here_not_null in E|].
      intros A. rewrite (A obj (inside_here obj) N) in P. discriminate P.
    + rewrite (first_in_elems_null _ _ findPriceInJsonLd_truthy).
      rewrite Forall_forall in IH. split.
      * intros A node I Nn.
        destruct I as [|v c node Hc I]; [exact P|].
        destruct (is_node c) eqn:Nc.
        -- apply (proj1 (IH c Hc) (A c Hc (is_node_object c Nc)) node I Nn).
        -- rewrite (inside_not_node c node Nc I) in Nn. congruence.
      * intros A c Hc Oc. apply (IH c Hc).
        intros node I Nn. apply A; [|exact Nn].
        exact (inside_child obj c node Hc I).
  - rewrite (not_node_skipped obj N). split; [|reflexivity].
    intros _ node I Nn. rewrite (inside_not_node obj node N I) in Nn. congruence.
Qed.

(** X22: the search of a JSON-LD tree is complete: [findPriceInJsonLd]
    returns [null] exactly when no object of the tree, at any depth, has a
    [price] or an [offers.price] that is not [undefined]; every other
    result is the price and currency read at one object of the tree that
    has one. *)
Theorem findPriceInJsonLd_finds_any_price (obj : jsval) :
  (GenericExtractor.findPriceInJsonLd obj = Null <-> no_price_inside obj) /\
  (GenericExtractor.findPriceInJsonLd obj <> Null ->
   exists node,
     inside obj node /\ GenericExtractor.has_price node = true /\
     GenericExtractor.findPriceInJsonLd obj = GenericExtractor.price_here node).
Proof.
  split; [apply findPriceInJsonLd_null_iff|].
  induction obj as [obj IH] using jsval_children_ind.
  rewrite findPriceInJsonLd_unfold.
  destruct (negb (truthy obj) || negb (is_object obj)); [contradiction|].
  destruct (GenericExtractor.has_price obj) eqn:P.
  - intros _. exists obj. split; [constructor|]. split; [exact P|reflexivity].
  - rewrite Forall_forall in IH.
    assert (G : forall l, (forall c, In c l -> In c (children obj)) ->
                first_in_elems GenericExtractor.findPriceInJsonLd l <> Null ->
                exists node, inside obj node /\
                  GenericExtractor.has_price node = true /\
                  first_in_elems GenericExtractor.findPriceInJsonLd l =
                  GenericExtractor.price_here node).
    { induction l as [|c l IHl]; intros Sub Nz; cbn [first_in_elems] in *;
        [contradiction|].
      destruct (is_object c).
      - destruct (truthy (GenericExtractor.findPriceInJsonLd c)) eqn:T.
        + destruct (IH c (Sub c (or_introl eq_refl)) Nz) as (node & I & Hp & E).
          exists node. split; [|split; assumption].
          exact (inside_child obj c node (Sub c (or_introl eq_refl)) I).
        + apply IHl; [|exact Nz]. intros c' Hc'. apply Sub. now right.
      - apply IHl; [|exact Nz]. intros c' Hc'. apply Sub. now right. }
    apply G. auto.
Qed.

(** ** Results with two decimals *)

(** X23: a result of [parsePrice] other than zero and up to 10^13 is the
    double of a numeral with two decimals: the nearest double to
    [n / 100] for a whole number [n] of cents, which is what
    [parseFloat] gives for the digits of [n] with a dot before the last
    two. *)
Theorem parsePrice_result_has_two_decimals (s : jsstring) (r : number) :
  parsePrice (Str s) = Num r ->
  truthy (Num r) = true ->
  fle r (dbl 1e13) = true ->
  exists n, 1 <= n <= 10 ^ 15 /\ r = of_decimal false n (-2).
Proof.
  intros P T B.
  destruct (parsePrice_cents s r P T B) as (n & Hn & ->).
  exists n. split; [exact Hn|].
  destruct (of_int_small n ltac:(lia)) as (m & e & -> & V).
  apply (rounds_to_unique (IZR n / 100)).
  - pose proof (rounds_to_fdiv m 7036874417766400 e (-46)) as R.
    rewrite <- hundred_eq, F2R_hundred, V in R. exact R.
  - pose proof (of_decimal_rounds n (-2) ltac:(lia)) as R.
    unfold decimal_value in R. cbn [Z.leb Z.compare Z.opp] in R.
    change (IZR (10 ^ 2)) with 100%R in R. exact R.
Qed.

Lemma parsePrice_result_example :
  parsePrice (Str (u "$29.99")) = Num (dbl 29.99) /\
  truthy (Num (dbl 29.99)) = true /\
  fle (dbl 29.99) (dbl 1e13) = true /\
  dbl 29.99 = of_decimal false 2999 (-2) /\
  exists n, 1 <= n <= 10 ^ 15 /\ dbl 29.99 = of_decimal false n (-2).
Proof.
  repeat (split; [vm_compute; reflexivity|]).
  apply (parsePrice_result_has_two_decimals (u "$29.99") (dbl 29.99));
    vm_compute; reflexivity.
Defined.

(** ** Failures of [getPrice] *)

Section Failures.
Context `{H : Host}.
Import PriceScraper.

(** X24: [getPrice] does not turn a failed request into a record: when
    [fetchHtml] throws, [getPrice] rejects with the same error, and when
    it resolves to an empty page, with [Failed to fetch HTML content]. *)
Theorem getPrice_fetch_failures (url : jsstring) (options : jsval) :
  url <> [] ->
  (forall error, fetchHtml url (default_options options) = Throw error ->
                 getPrice (Str url) options = Throw error) /\
  (fetchHtml url (default_options options) = Ok [] ->
   getPrice (Str url) options = Throw (u "Failed to fetch HTML content")).
Proof.
  intros N. destruct url as [|c url]; [contradiction|].
  split.
  - intros error F. unfold getPrice. cbn [truthy negb]. rewrite F. reflexivity.
  - intros F. unfold getPrice. cbn [truthy negb]. rewrite F. reflexivity.
Qed.

(** The record for a price that [validatePriceData] refuses. *)
Lemma assemble_refused (url vendor : jsstring) (priceData : jsval) :
  truthy priceData = true ->
  isValid (validatePriceData priceData) = false ->
  prop (assemble url vendor priceData) (u "available") = Bool false /\
  prop (assemble url vendor priceData) (u "rawPrice") = priceData /\
  prop (assemble url vendor priceData) (u "price") = Undefined.
Proof.
  intros T V. unfold assemble. rewrite T, V. cbn [negb].
  split; [reflexivity|]. split; reflexivity.
Qed.

(** X25: a price outside the range from 0.01 to 1000000 is not reported
    as a price: the record of [getPrice] has [available: false] and no
    [price], and carries the extracted record under [rawPrice]. *)
Theorem assemble_hides_a_price_out_of_range
  (url vendor : jsstring) (x : number) (o c : jsval) :
  fle (dbl 0.01) x = false \/ fle x (dbl 1000000) = false ->
  let priceData := price_record (Num x) o Null c false in
  prop (assemble url vendor priceData) (u "available") = Bool false /\
  prop (assemble url vendor priceData) (u "rawPrice") = priceData /\
  prop (assemble url vendor priceData) (u "price") = Undefined.
Proof.
  intros R. cbv zeta. apply assemble_refused; [reflexivity|].
  rewrite isValid_validatePriceData.
  change (prop (price_record (Num x) o Null c false) (u "price")) with (Num x).
  unfold isValidPriceRange, fge, fle, DEFAULT_MIN_PRICE, DEFAULT_MAX_PRICE in *.
  destruct (truthy (price_record (Num x) o Null c false)); [|reflexivity].
  destruct (truthy (Num x)); [|reflexivity].
  destruct (isNaN x); [reflexivity|].
  destruct R as [-> | ->]; cbn [andb is_number]; [reflexivity|].
  now rewrite andb_false_r.
Qed.

End Failures.

Lemma getPrice_of_an_unknown_page :
  u "https://example.com/none" <> [] /\
  @PriceScraper.getPrice Fixture.host (Str (u "https://example.com/none")) Undefined =
  Throw (u "Failed to fetch HTML after 3 attempts: Unknown error").
Proof.
  assert (N : u "https://example.com/none" <> []) by (vm_compute; discriminate).
  split; [exact N|].
  exact (proj1 (@getPrice_fetch_failures Fixture.host
                  (u "https://example.com/none") Undefined N)
           (u "Failed to fetch HTML after 3 attempts: Unknown error")
           ltac:(vm_compute; reflexivity)).
Defined.

Lemma two_million_is_not_reported :
  normalizePrice (candidate_price (Str (u "$2,000,000.00"))) =
    price_record (Num (dbl 2000000)) (Num (dbl 2000000)) Null (Str USD) false /\
  (fle (dbl 0.01) (dbl 2000000) = false \/ fle (dbl 2000000) (dbl 1000000) = false) /\
  prop (@PriceScraper.assemble Fixture.host (u "https://example.com/p") (u "generic")
          (price_record (Num (dbl 2000000)) (Num (dbl 2000000)) Null (Str USD) false))
       (u "available") = Bool false.
Proof.
  split; [vm_compute; reflexivity|]. split; [right; vm_compute; reflexivity|].
  apply (@assemble_hides_a_price_out_of_range Fixture.host).
  right. vm_compute. reflexivity.
Defined.

(** ** The currency of a record *)

Lemma extractCurrency_truthy (v : jsval) : truthy (Str (extractCurrency v)) = true.
Proof.
  unfold extractCurrency.
  destruct v; try reflexivity.
  repeat match goal with |- context [if ?c then _ else _] => destruct c end;
    reflexivity.
Qed.

(** X26: a record of [normalizePrice] always has a truthy currency, the
    one given or the code read off the price text, so
    [validatePriceData] never adds its warning about a missing currency
    to such a record: the errors of an accepted record are empty. *)
Theorem normalizePrice_always_has_a_currency (priceData : jsval) :
  normalizePrice priceData <> Null ->
  truthy (prop (normalizePrice priceData) (u "currency")) = true /\
  (isValid (validatePriceData (normalizePrice priceData)) = true ->
   errors (validatePriceData (normalizePrice priceData)) = []).
Proof.
  intros N.
  assert (C : truthy (prop (normalizePrice priceData) (u "currency")) = true).
  { revert N. unfold normalizePrice.
    destruct (negb (truthy priceData)); [contradiction|].
    destruct (negb (truthy (parsePrice _))); [contradiction|]. intros _.
    match goal with
    | |- truthy (prop (Obj [_; _; _; (_, ?c); _]) _) = true =>
      change (truthy c = true)
    end.
    apply js_or_default, extractCurrency_truthy. }
  split; [exact C|].
  unfold validatePriceData. rewrite C.
  destruct (negb (truthy (normalizePrice priceData))); [discriminate|].
  cbn [negb].
  repeat match goal with
         | |- context [if ?c then _ else _] => destruct c
         end; cbn [isValid errors]; try discriminate; reflexivity.
Qed.

Lemma normalizePrice_currency_example :
  normalizePrice (candidate_price (Str (u "12.50"))) <> Null /\
  prop (normalizePrice (candidate_price (Str (u "12.50")))) (u "currency") = Str USD /\
  errors (validatePriceData (normalizePrice (candidate_price (Str (u "12.50"))))) = [].
Proof.
  split; [vm_compute; discriminate|]. split; [vm_compute; reflexivity|].
  apply (normalizePrice_always_has_a_currency (candidate_price (Str (u "12.50")))).
  - vm_compute; discriminate.
  - vm_compute; reflexivity.
Defined.

(** ** Vendors without a strategy *)

Section OtherVendors.
Context `{H : Host}.
Import PriceScraper.

(** X27: the vendors [target] and [bestbuy] that [detectVendor] names
    have no strategy of their own: for every vendor other than [amazon]
    and [walmart], [getPrice] runs the same strategies, in the same
    order and with the same result, as for [generic]. *)
Theorem dispatch_knows_two_vendors (vendor html : jsstring) :
  vendor <> AMAZON -> vendor <> WALMART ->
  dispatch vendor html = dispatch (u "generic") html.
Proof.
  intros NA NW. rewrite (dispatch_other vendor html NA NW).
  rewrite (dispatch_other (u "generic") html); [reflexivity| |];
    intros E; apply (proj2 (jsstring_eqb_eq _ _)) in E; vm_compute in E;
    discriminate E.
Qed.

End OtherVendors.

Lemma dispatch_for_target :
  u "target" <> PriceScraper.AMAZON /\ u "target" <> PriceScraper.WALMART /\
  @PriceScraper.dispatch Fixture.host (u "target") Fixture.amazon_style_html =
  @PriceScraper.dispatch Fixture.host (u "generic") Fixture.amazon_style_html.
Proof.
  assert (NA : u "target" <> PriceScraper.AMAZON).
  { intros E. apply (proj2 (jsstring_eqb_eq _ _)) in E. vm_compute in E. discriminate E. }
  assert (NW : u "target" <> PriceScraper.WALMART).
  { intros E. apply (proj2 (jsstring_eqb_eq _ _)) in E. vm_compute in E. discriminate E. }
  split; [exact NA|]. split; [exact NW|].
  exact (@dispatch_knows_two_vendors Fixture.host (u "target")
           Fixture.amazon_style_html NA NW).
Defined.

(** ** Giving up *)

(** The product of two doubles is the double nearest to the product. *)
Lemma rounds_to_fmul (mx my : positive) (ex ey : Z) :
  2 ^ 52 <= Z.pos my ->
  rounds_to (F2R (S754_finite false mx ex) * F2R (S754_finite false my ey))
    (fmul (S754_finite false mx ex) (S754_finite false my ey)).
Proof.
  intros Hy. rewrite (fmul_finite false false mx my ex ey Hy). cbn [xorb].
  exists (Z.pos mx * Z.pos my), 1, (ex + ey).
  split; [lia|]. split; [lia|]. split; [|split; [|reflexivity]].
  - unfold rounded_exponent. rewrite Z.div_1_r.
    assert (2 ^ 52 <= Z.pos mx * Z.pos my) by nia.
    pose proof (Zdigits2_ge _ 52 ltac:(lia) H). rewrite fexp_eq. lia.
  - unfold exact_value, F2R. rewrite mult_IZR, pow2_add, !Rmult_1_l.
    change (IZR 1) with 1%R. field.
Qed.

(** A double whose value is a whole number is the double of that
    number. *)
Lemma of_int_of_double (n : Z) (m : positive) (e : Z) :
  0 < n ->
  SpecFloat.bounded prec emax m e = true ->
  F2R (S754_finite false m e) = IZR n ->
  of_int n = S754_finite false m e.
Proof.
  intros Hn B V.
  apply (rounds_to_unique (IZR n)); [apply rounds_to_of_int; exact Hn|].
  rewrite <- V. apply rounds_to_exact. exact B.
Qed.

(** A whole number of at most 53 bits, doubled [i] times, is a double
    as long as it stays below [2^1024]. *)
Lemma of_int_shifted (d i : Z) :
  1 <= d < 2 ^ 53 -> 0 <= i -> d * 2 ^ i < 2 ^ 1024 ->
  exists m e, of_int (d * 2 ^ i) = S754_finite false m e /\
              2 ^ 52 <= Z.pos m /\
              F2R (S754_finite false m e) = IZR (d * 2 ^ i).
Proof.
  intros [L U] Hi B.
  set (D := Zdigits2 d).
  pose proof (Zdigits2_bounds d ltac:(lia)) as [Ld Ud]. fold D in Ld, Ud.
  pose proof (Zdigits2_pos d ltac:(lia)) as Pd. fold D in Pd.
  assert (D53 : D <= 53).
  { destruct (Z.le_gt_cases D 53) as [|G]; [assumption|].
    assert (2 ^ 53 <= 2 ^ (D - 1)) by (apply Z.pow_le_mono_r; lia). lia. }
  assert (Pi : 0 < 2 ^ i) by (apply Z.pow_pos_nonneg; lia).
  assert (Di : D + i <= 1024).
  { destruct (Z.le_gt_cases (D + i) 1024) as [|G]; [assumption|].
    assert (2 ^ 1024 <= 2 ^ (D - 1 + i)) by (apply Z.pow_le_mono_r; lia).
    rewrite Z.pow_add_r in H by lia. nia. }
  set (X := d * 2 ^ (53 - D)).
  assert (P53 : 0 < 2 ^ (53 - D)) by (apply Z.pow_pos_nonneg; lia).
  assert (PX : 0 < X) by (unfold X; nia).
  set (m := Z.to_pos X).
  assert (Em : Z.pos m = X) by (unfold m; apply Z2Pos.id; exact PX).
  assert (Bd : SpecFloat.bounded prec emax m (D - 53 + i) = true).
  { apply bounded_iff. rewrite Em. unfold X.
    rewrite Zdigits2_shift by lia. rewrite fexp_eq. lia. }
  assert (V : F2R (S754_finite false m (D - 53 + i)) = IZR (d * 2 ^ i)).
  { unfold F2R. rewrite Em. unfold X. rewrite !mult_IZR, !pow2_IZR by lia.
    rewrite Rmult_1_l, Rmult_assoc, <- pow2_add.
    replace (53 - D + (D - 53 + i)) with i by lia. reflexivity. }
  exists m, (D - 53 + i). split; [|split; [|exact V]].
  - apply of_int_of_double; [nia|exact Bd|exact V].
  - rewrite Em. unfold X.
    assert (E : 2 ^ 52 = 2 ^ (D - 1) * 2 ^ (53 - D)).
    { rewrite <- Z.pow_add_r by lia. f_equal. lia. }
    rewrite E. nia.
Qed.

(** Doubling such a number in doubles is exact. *)
Lemma doubled_delay (d i : Z) :
  1 <= d < 2 ^ 53 -> 0 <= i -> d * 2 ^ i < 2 ^ 1024 ->
  fmul (of_int d) (Requests.Math_pow2 i) = of_int (d * 2 ^ i).
Proof.
  intros Hd Hi B.
  assert (Pi : 0 < 2 ^ i) by (apply Z.pow_pos_nonneg; lia).
  destruct (of_int_shifted d 0 Hd ltac:(lia) ltac:(change (2 ^ 0) with 1; lia))
    as (mx & ex & Ex & _ & Vx).
  change (2 ^ 0) with 1 in Ex, Vx. rewrite Z.mul_1_r in Ex, Vx.
  destruct (of_int_shifted 1 i ltac:(lia) Hi ltac:(nia)) as (my & ey & Ey & My & Vy).
  rewrite Z.mul_1_l in Ey, Vy.
  unfold Requests.Math_pow2. rewrite Ex, Ey.
  apply (rounds_to_unique (IZR (d * 2 ^ i))).
  - rewrite mult_IZR, <- Vx, <- Vy. apply rounds_to_fmul. exact My.
  - apply rounds_to_of_int. nia.
Qed.

Section GivingUp.
Import Requests.

(** The delays of a backoff from the whole number [d]. *)
Definition whole_backoff (d : Z) (k : nat) : list Z :=
  map (fun i => d * 2 ^ Z.of_nat i) (seq 0 k).

Lemma whole_backoff_S (d : Z) (k : nat) :
  whole_backoff d (S k) = whole_backoff d k ++ [d * 2 ^ Z.of_nat k].
Proof. unfold whole_backoff. rewrite seq_S, map_app. reflexivity. Qed.

Lemma whole_backoff_sum (d : Z) (k : nat) :
  fold_right Z.add 0 (whole_backoff d k) = d * (2 ^ Z.of_nat k - 1).
Proof.
  induction k as [|k IH]; [cbn; lia|].
  rewrite whole_backoff_S, fold_right_app. cbn [fold_right].
  assert (G : forall l a, fold_right Z.add a l = fold_right Z.add 0 l + a).
  { induction l as [|x l IHl]; intros a; cbn [fold_right]; [lia|].
    rewrite IHl. lia. }
  rewrite G, IH, Nat2Z.inj_succ, Z.pow_succ_r by lia. lia.
Qed.

(** Each delay of the backoff is the whole number, without a rounding. *)
Lemma backoff_exact (d : Z) (k : nat) :
  1 <= d < 2 ^ 53 ->
  d * 2 ^ (Z.of_nat k - 1) < 2 ^ 1024 ->
  Forall2 (fun x n => x = of_int n /\ F2R x = IZR n)
    (backoff (of_int d) k) (whole_backoff d k).
Proof.
  intros Hd. induction k as [|k IH]; intros B; [constructor|].
  rewrite backoff_S, whole_backoff_S.
  replace (Z.of_nat (S k) - 1) with (Z.of_nat k) in B by lia.
  assert (Pk : 0 < 2 ^ Z.of_nat k) by (apply Z.pow_pos_nonneg; lia).
  apply Forall2_app.
  - apply IH.
    assert (2 ^ (Z.of_nat k - 1) <= 2 ^ Z.of_nat k).
    { destruct k as [|k']; [cbn; lia|]. apply Z.pow_le_mono_r; lia. }
    nia.
  - constructor; [|constructor].
    rewrite (doubled_delay d (Z.of_nat k) Hd ltac:(lia) B).
    split; [reflexivity|].
    destruct (of_int_shifted d (Z.of_nat k) Hd ltac:(lia) B) as (m & e & -> & _ & V).
    exact V.
Qed.

(** X28: for a whole number [maxRetries] of at least one and a whole
    number [retryDelay] of at least one whose last delay,
    [retryDelay * 2^(maxRetries - 2)], is below 2^1024 (and
    [retryDelay] and [maxRetries] below 2^53): when every request
    fails, [fetchHtml] throws after exactly [maxRetries] requests; the
    delays it has slept are the whole numbers [retryDelay * 2^i]
    without a rounding, and they add up to
    [retryDelay * (2^(maxRetries - 1) - 1)]: three requests and three
    seconds with the default settings. *)
Theorem fetchHtml_gives_up (network : nat -> outcome jsval) (retries d : Z)
  (fuel : nat) :
  1 <= retries < 2 ^ 53 ->
  1 <= d < 2 ^ 53 ->
  d * 2 ^ (retries - 2) < 2 ^ 1024 ->
  (Z.to_nat retries < fuel)%nat ->
  (forall k, fails network k) ->
  exists error l delays,
    Requests.fetchHtml network retries (of_int d) fuel = Some (Throw error, l) /\
    Z.of_nat (requests l) = retries /\
    Forall2 (fun x n => x = of_int n /\ F2R x = IZR n) (slept l) delays /\
    delays = map (fun i => d * 2 ^ Z.of_nat i) (seq 0 (Z.to_nat retries - 1)) /\
    fold_right Z.add 0 delays = d * (2 ^ (retries - 1) - 1).
Proof.
  intros R Hd B Hfu F.
  unfold Requests.fetchHtml.
  destruct (attempts_settle network retries (of_int d) (Z.to_nat retries) fuel 1 None
              {| requests := 0; slept := [] |} ltac:(lia) Hfu)
    as ([result l] & E & S); cbn [requests slept].
  - lia.
  - reflexivity.
  - destruct (Z.to_nat retries); reflexivity.
  - intros k Hk. lia.
  - cbn [settled_log] in S. destruct S as (Le & Sl & _ & Res).
    destruct result as [html|error].
    + destruct Res as (k & _ & Ek). destruct (F k) as [e Fk]. congruence.
    + destruct Res as [Rq _].
      exists error, l, (whole_backoff d (Z.to_nat retries - 1)).
      split; [exact E|]. split; [lia|]. split; [|split; [reflexivity|]].
      * rewrite Sl, Rq. apply backoff_exact; [exact Hd|].
        replace (Z.of_nat (Z.to_nat retries - 1) - 1) with (retries - 2) by lia.
        exact B.
      * rewrite whole_backoff_sum. f_equal. f_equal. f_equal. lia.
Qed.

End GivingUp.

Lemma fetchHtml_with_the_defaults :
  1 <= 3 < 2 ^ 53 /\
  1 <= 1000 < 2 ^ 53 /\
  1000 * 2 ^ (3 - 2) < 2 ^ 1024 /\
  (Z.to_nat 3 < 4)%nat /\
  (forall k, fails (fun _ => Throw (u "ECONNREFUSED")) k) /\
  of_int 1000 = dbl 1000 /\
  exists error l delays,
    Requests.fetchHtml (fun _ => Throw (u "ECONNREFUSED")) 3 (of_int 1000) 4 =
    Some (Throw error, l) /\
    Z.of_nat (Requests.requests l) = 3 /\
    Forall2 (fun x n => x = of_int n /\ F2R x = IZR n) (Requests.slept l) delays /\
    delays = [1000; 2000] /\
    fold_right Z.add 0 delays = 3000.
Proof.
  assert (F : forall k, fails (fun _ => Throw (u "ECONNREFUSED")) k).
  { intros k. exists (u "ECONNREFUSED"). reflexivity. }
  split; [lia|]. split; [lia|]. split; [vm_compute; reflexivity|].
  split; [vm_compute; lia|]. split; [exact F|]. split; [vm_compute; reflexivity|].
  destruct (fetchHtml_gives_up (fun _ => Throw (u "ECONNREFUSED")) 3 1000 4
              ltac:(lia) ltac:(lia) ltac:(vm_compute; reflexivity)
              ltac:(vm_compute; lia) F)
    as (error & l & delays & E & Rq & Fa & Ed & Su).
  exists error, l, delays. split; [exact E|]. split; [exact Rq|].
  split; [exact Fa|]. split; [exact Ed|exact Su].
Defined.

